(** * CEX listing feed: the listing differ, the retention pruner and the
    run orchestrator of the update script

    The development embeds the update script of the listing feed
    (normalizeSymbol, detectNewListings, cleanOldListings, updateListings
    and the helpers they call) and proves the properties its design
    document states about them. Its last part proves further properties
    of the same code: the log, the order of the writes, what two runs in
    a row do, and what the six fetchers make of a reply ([Wire]).

    Conventions of the embedding.
    - A JavaScript string is a [string]. Upper-casing is the one of the
      7-bit alphabet, a..z to A..Z; what [String.prototype.toUpperCase]
      does to other characters is in the host's Unicode tables, which the
      development does not hold, so every statement about the characters
      of a normalized symbol is made for 7-bit strings ([sevenBit]).
    - A [Date] is its time value, a number of milliseconds since the epoch
      in [Z]; an invalid date (time value NaN) is [None]. Local time is
      the host's: the offset from UTC is a function of the instant.
    - The documents on disk either fail to load or have the shape of the
      interface the script declares for them; an exchange can return
      something that is not a string ([Mixed]).
    - The log directory can be written for the whole run or not at all
      ([logFault]); a document that cannot be written fails when it is
      opened or, having been truncated, when it is written
      ([WriteFault]).
    - The script runs on one thread: every [await] is a sequencing point,
      so an [async] function is a computation in the monad [M] below. *)

From Stdlib Require Import ZArith Lia Ascii.
From stdpp Require Import base option list strings pretty gmap.

Open Scope string_scope.
Open Scope list_scope.
Open Scope Z_scope.

(** ** Symbol normalizer *)

Module Normalizer.

(** The character class [[-_\/]] of the regular expression. *)
Definition isSeparator (c : ascii) : bool :=
  bool_decide (c = "-"%char) || bool_decide (c = "_"%char)
  || bool_decide (c = "/"%char).

(** [symbol.replace(/[-_\/]/g, '')]: with the [g] flag every match is
    replaced, here by the empty string. *)
Fixpoint removeSeparators (s : string) : string :=
  match s with
  | EmptyString => EmptyString
  | String c rest =>
      if isSeparator c then removeSeparators rest
      else String c (removeSeparators rest)
  end.

Definition isLower (c : ascii) : bool :=
  ((97 <=? nat_of_ascii c) && (nat_of_ascii c <=? 122))%nat.

Definition upperChar (c : ascii) : ascii :=
  if isLower c then ascii_of_nat (nat_of_ascii c - 32) else c.

(** [String.prototype.toUpperCase] on the 7-bit alphabet. *)
Fixpoint toUpperCase (s : string) : string :=
  match s with
  | EmptyString => EmptyString
  | String c rest => String (upperChar c) (toUpperCase rest)
  end.

(** The strings over the 7-bit alphabet. *)
Fixpoint sevenBit (s : string) : bool :=
  match s with
  | EmptyString => true
  | String c rest => (nat_of_ascii c <? 128)%nat && sevenBit rest
  end.

Definition normalizeSymbol (symbol : string) : string :=
  toUpperCase (removeSeparators symbol).

End Normalizer.
Export Normalizer.

(** ** Dates

    The part of the ECMAScript [Date] object the script uses: the current
    time, [toISOString], the constructor applied to a string, [getDate]
    and [setDate], and the comparison [>=] of two dates. Time values stay
    well inside the range a [Date] can hold, so no clipping is modelled. *)

Module JSDate.

Definition msPerDay : Z := 86400000.

Definition Day (t : Z) : Z := t / msPerDay.
Definition TimeWithinDay (t : Z) : Z := t mod msPerDay.

(** Year, month (1..12) and day of the month (1..31) of a day number
    counted from 1970-01-01, in the proleptic Gregorian calendar. The
    computation works in 400-year eras that start on 1 March. *)
Definition civilFromDays (day : Z) : Z * Z * Z :=
  let z := day + 719468 in
  let era := z / 146097 in
  let doe := z - era * 146097 in
  let yoe := (doe - doe / 1460 + doe / 36524 - doe / 146096) / 365 in
  let doy := doe - (365 * yoe + yoe / 4 - yoe / 100) in
  let mp := (5 * doy + 2) / 153 in
  let d := doy - (153 * mp + 2) / 5 + 1 in
  let m := if mp <? 10 then mp + 3 else mp - 9 in
  (yoe + era * 400 + (if m <=? 2 then 1 else 0), m, d).

(** The day number of a calendar date; [d] may lie outside the month. *)
Definition daysFromCivil (y m d : Z) : Z :=
  let y := if m <=? 2 then y - 1 else y in
  let era := y / 400 in
  let yoe := y - era * 400 in
  let doy := (153 * (if 2 <? m then m - 3 else m + 9) + 2) / 5 + d - 1 in
  let doe := yoe * 365 + yoe / 4 - yoe / 100 + doy in
  era * 146097 + doe - 719468.

Definition YearFromTime (t : Z) : Z := (civilFromDays (Day t)).1.1.
(** Months are numbered from 0 in ECMAScript. *)
Definition MonthFromTime (t : Z) : Z := (civilFromDays (Day t)).1.2 - 1.
Definition DateFromTime (t : Z) : Z := (civilFromDays (Day t)).2.

(** [MakeDay(year, month, date)]: the day number of the first day of
    the month, plus [date - 1]; a [date] below 1 or above the length of
    the month runs over into the neighbouring months. *)
Definition MakeDay (year month date : Z) : Z :=
  daysFromCivil (year + month / 12) (month mod 12 + 1) 1 + date - 1.

Definition MakeDate (day time : Z) : Z := day * msPerDay + time.

(** Local time. [tza t isUTC] is the abstract operation [LocalTZA] of
    ECMAScript: the offset of the host's time zone from UTC, in
    milliseconds, in force at the time value [t], which is a UTC time
    value if [isUTC] and a local one otherwise. *)
Definition LocalTime (tza : Z -> bool -> Z) (t : Z) : Z := t + tza t true.
Definition UTC (tza : Z -> bool -> Z) (t : Z) : Z := t - tza t false.

(** [Date.prototype.getDate] and [Date.prototype.setDate]; [setDate]
    returns the new time value of the date object. *)
Definition getDate (tza : Z -> bool -> Z) (t : Z) : Z :=
  DateFromTime (LocalTime tza t).

Definition setDate (tza : Z -> bool -> Z) (t dt : Z) : Z :=
  let lt := LocalTime tza t in
  UTC tza
    (MakeDate (MakeDay (YearFromTime lt) (MonthFromTime lt) dt)
              (TimeWithinDay lt)).

(** Decimal digits, most significant first, zero-padded to [width]. *)
Definition digit (n : Z) : ascii := ascii_of_nat (48 + Z.to_nat (n mod 10)).

Fixpoint padded (width : nat) (n : Z) (acc : string) : string :=
  match width with
  | O => acc
  | S w => padded w (n / 10) (String (digit n) acc)
  end.

(** [Date.prototype.toISOString]: [YYYY-MM-DDTHH:mm:ss.sssZ] in UTC, the
    year written with a sign and six digits outside 0..9999. *)
Definition toISOString (t : Z) : string :=
  let '(y, m, d) := civilFromDays (Day t) in
  let ms := TimeWithinDay t in
  let year :=
    if (0 <=? y) && (y <=? 9999) then padded 4 y ""
    else (if 0 <=? y then "+" else "-") +:+ padded 6 (Z.abs y) "" in
  year +:+ "-" +:+ padded 2 m "" +:+ "-" +:+ padded 2 d "" +:+ "T"
    +:+ padded 2 (ms / 3600000) "" +:+ ":"
    +:+ padded 2 (ms / 60000 mod 60) "" +:+ ":"
    +:+ padded 2 (ms / 1000 mod 60) "" +:+ "."
    +:+ padded 3 (ms mod 1000) "" +:+ "Z".

(** [isoString.split('T')[0]]: the text before the first [T]. *)
Fixpoint beforeT (s : string) : string :=
  match s with
  | EmptyString => EmptyString
  | String c rest =>
      if bool_decide (c = "T"%char) then EmptyString
      else String c (beforeT rest)
  end.

(** A parser for the strings [toISOString] writes (four-digit years);
    every other string is an invalid date. What [new Date(string)]
    accepts beyond that format depends on the host, so the script is
    verified for an arbitrary parser and this one serves the examples. *)
Definition digitValue (c : ascii) : option Z :=
  let n := nat_of_ascii c in
  if ((48 <=? n) && (n <=? 57))%nat then Some (Z.of_nat n - 48) else None.

Fixpoint number (cs : list ascii) (acc : Z) : option Z :=
  match cs with
  | [] => Some acc
  | c :: rest =>
      match digitValue c with
      | Some v => number rest (10 * acc + v)
      | None => None
      end
  end.

Definition field (cs : list ascii) (from len : nat) : option Z :=
  number (take len (drop from cs)) 0.

Definition mark (cs : list ascii) (at_ : nat) (c : ascii) : bool :=
  bool_decide (cs !! at_ = Some c).

Definition parseISO (s : string) : option Z :=
  let cs := String.list_ascii_of_string s in
  if bool_decide (length cs = 24%nat)
     && mark cs 4 "-" && mark cs 7 "-" && mark cs 10 "T"
     && mark cs 13 ":" && mark cs 16 ":" && mark cs 19 "." && mark cs 23 "Z"
  then
    y ← field cs 0 4; m ← field cs 5 2; d ← field cs 8 2;
    hh ← field cs 11 2; mm ← field cs 14 2; ss ← field cs 17 2;
    ms ← field cs 20 3;
    if (1 <=? m) && (m <=? 12) && (1 <=? d) && (d <=? 31)
       && (hh <=? 23) && (mm <=? 59) && (ss <=? 59)
    then Some (MakeDate (daysFromCivil y m d)
                        (hh * 3600000 + mm * 60000 + ss * 1000 + ms))
    else None
  else None.

End JSDate.

(** ** Data model: the three JSON documents *)

Inductive Exchange : Type :=
  Binance | Coinbase | Bybit | Upbit | OKX | Kraken.

#[global] Instance Exchange_eq_dec : EqDecision Exchange.
Proof. solve_decision. Defined.

(** The configured exchanges, in the order the run visits them. *)
Definition EXCHANGES : list Exchange :=
  [Binance; Coinbase; Bybit; Upbit; OKX; Kraken].

(** The name an exchange carries in listing events, error messages and
    the log. *)
Definition exchangeName (ex : Exchange) : string :=
  match ex with
  | Binance => "Binance" | Coinbase => "Coinbase" | Bybit => "Bybit"
  | Upbit => "Upbit" | OKX => "OKX" | Kraken => "Kraken"
  end.

(** The key of an exchange in the [exchanges] object. *)
Definition exchangeKey (ex : Exchange) : string :=
  match ex with
  | Binance => "binance" | Coinbase => "coinbase" | Bybit => "bybit"
  | Upbit => "upbit" | OKX => "okx" | Kraken => "kraken"
  end.

Record Exchanges : Type := {
  binance : list string;
  coinbase : list string;
  bybit : list string;
  upbit : list string;
  okx : list string;
  kraken : list string
}.

(** Field access [exchanges.<key>]. *)
Definition exchangeSymbols (ex : Exchange) (e : Exchanges) : list string :=
  match ex with
  | Binance => binance e | Coinbase => coinbase e | Bybit => bybit e
  | Upbit => upbit e | OKX => okx e | Kraken => kraken e
  end.

Record ExchangeListings : Type := {
  lastUpdated : option string;
  exchanges : Exchanges
}.

Record NewListing : Type := {
  exchange : string;
  symbol : string;
  detectedAt : string
}.

Record NewListingsData : Type := {
  lastChecked : option string;
  listings : list NewListing
}.

Inductive Status : Type := success | partial_success | failed | never_run.

Record StatusData : Type := {
  lastRun : option string;
  lastSuccessfulRun : option string;
  status : Status;
  errors : list string
}.

(** ** The world the script runs in *)

(** What is on disk under a path: a document of the expected interface,
    or something [readJSON] fails on (missing file, text that is not
    JSON), with the text of the error it raises. *)
Inductive Stored (A : Type) : Type :=
  | Parsed (data : A)
  | Unreadable (error : string).
Arguments Parsed {A} data.
Arguments Unreadable {A} error.

(** How [fs.writeFileSync] fails on a path that cannot be written. It
    opens the file with the flag [w], which truncates it, and then writes
    the text: it fails when it opens the file, which is then left as it
    was, or when it writes, and the file is then left empty or with a
    part of the text, on which [JSON.parse] raises [damage]. *)
Inductive WriteFault : Type :=
  | FailsAtOpen (error : string)
  | FailsAtWrite (error damage : string).

(** The error the write raises. *)
Definition writeError (fault : WriteFault) : string :=
  match fault with
  | FailsAtOpen error => error
  | FailsAtWrite error _ => error
  end.

(** [writeFault] is how every attempt to write the path fails, if the
    path cannot be written. *)
Record File (A : Type) : Type := {
  stored : Stored A;
  writeFault : option WriteFault
}.
Arguments stored {A} _.
Arguments writeFault {A} _.

(** What one exchange answers during the run: the list of active symbols
    its fetcher extracts from the reply, or the text of the error the
    fetcher raises (transport failure, reply of the wrong shape). The
    fetchers do not check what they extract, so the list can hold
    something that is not a string: [before] are then the strings in
    front of the first such value, [after] is the number of values
    behind it, and [error] is the TypeError that calling [replace] on it
    raises. *)
Inductive Reply : Type :=
  | Listed (symbols : list string)
  | Failed (error : string)
  | Mixed (before : list string) (error : string) (after : nat).

(** How [writeLog] fails when the log cannot be written: creating the
    directory fails, or appending to the file of the day does. *)
Inductive LogFault : Type :=
  | MkdirFails (error : string)
  | AppendFails (error : string).

Definition logError (fault : LogFault) : string :=
  match fault with
  | MkdirFails error => error
  | AppendFails error => error
  end.

Record LogLine : Type := {
  logFile : string;     (* the day in the name of the log file *)
  logStamp : string;
  logMessage : string
}.

(** What the script cannot change: the host's date parser and time zone,
    the successive readings of the system clock, the exchanges, and
    whether the log can be written. *)
Record Env : Type := {
  Date_parse : string -> option Z;
  LocalTZA : Z -> bool -> Z;
  clock : nat -> Z;
  network : Exchange -> Reply;
  logFault : option LogFault
}.

(** The three documents on disk. *)
Record Disk : Type := {
  cexListingsFile : File ExchangeListings;
  newListingsFile : File NewListingsData;
  statusFile : File StatusData
}.

(** The variables [errors], [results] and [allNewListings] of
    [updateListings]. They live in the state because the handlers of its
    [try] blocks read them after the body has changed them. *)
Record Vars : Type := {
  var_errors : list string;
  var_results : gmap string (list string);
  var_allNewListings : list NewListing
}.

(** What the script can change: the number of clock readings taken so
    far, the log, the documents and its variables. *)
Record World : Type := {
  ticks : nat;
  logs : list LogLine;
  disk : Disk;
  vars : Vars
}.

Definition tick (w : World) : World :=
  {| ticks := S (ticks w); logs := logs w; disk := disk w; vars := vars w |}.

Definition withLogs (l : list LogLine) (w : World) : World :=
  {| ticks := ticks w; logs := l; disk := disk w; vars := vars w |}.

Definition withDisk (d : Disk) (w : World) : World :=
  {| ticks := ticks w; logs := logs w; disk := d; vars := vars w |}.

Definition withVars (v : Vars) (w : World) : World :=
  {| ticks := ticks w; logs := logs w; disk := disk w; vars := v |}.

Definition withErrors (l : list string) (w : World) : World :=
  withVars {| var_errors := l;
              var_results := var_results (vars w);
              var_allNewListings := var_allNewListings (vars w) |} w.

Definition withResults (r : gmap string (list string)) (w : World) : World :=
  withVars {| var_errors := var_errors (vars w);
              var_results := r;
              var_allNewListings := var_allNewListings (vars w) |} w.

Definition withAllNewListings (l : list NewListing) (w : World) : World :=
  withVars {| var_errors := var_errors (vars w);
              var_results := var_results (vars w);
              var_allNewListings := l |} w.

(** A path of [FILES] together with the interface of its document. *)
Record Path (A : Type) : Type := {
  fileAt : Disk -> File A;
  putFile : File A -> Disk -> Disk
}.
Arguments fileAt {A} _ _.
Arguments putFile {A} _ _ _.

Definition FILES_cexListings : Path ExchangeListings :=
  {| fileAt := cexListingsFile;
     putFile := fun f d =>
       {| cexListingsFile := f; newListingsFile := newListingsFile d;
          statusFile := statusFile d |} |}.

Definition FILES_newListings : Path NewListingsData :=
  {| fileAt := newListingsFile;
     putFile := fun f d =>
       {| cexListingsFile := cexListingsFile d; newListingsFile := f;
          statusFile := statusFile d |} |}.

Definition FILES_status : Path StatusData :=
  {| fileAt := statusFile;
     putFile := fun f d =>
       {| cexListingsFile := cexListingsFile d;
          newListingsFile := newListingsFile d; statusFile := f |} |}.

Definition RETENTION_DAYS : Z := 30.

(** ** Computations: state and exceptions

    A thrown value is kept as the text its interpolation into a template
    string gives, which is all the script does with one. *)

Inductive Outcome (A : Type) : Type :=
  | Returned (value : A)
  | Thrown (error : string).
Arguments Returned {A} value.
Arguments Thrown {A} error.

Definition M (A : Type) : Type := World -> Outcome A * World.

#[global] Instance M_ret : MRet M := fun A (a : A) w => (Returned a, w).

#[global] Instance M_bind : MBind M := fun A B (f : A -> M B) (m : M A) w =>
  match m w with
  | (Returned a, w') => f a w'
  | (Thrown error, w') => (Thrown error, w')
  end.

#[global] Instance M_fmap : FMap M := fun A B (f : A -> B) (m : M A) w =>
  match m w with
  | (Returned a, w') => (Returned (f a), w')
  | (Thrown error, w') => (Thrown error, w')
  end.

Definition throw {A : Type} (error : string) : M A :=
  fun w => (Thrown error, w).

(** [try { body } catch (error) { handler }]: the handler starts in the
    world the body left behind. *)
Definition tryCatch {A : Type} (body : M A) (handler : string -> M A) : M A :=
  fun w =>
    match body w with
    | (Returned a, w') => (Returned a, w')
    | (Thrown error, w') => handler error w'
    end.

Definition inspect {A : Type} (f : World -> A) : M A :=
  fun w => (Returned (f w), w).

Definition modify (f : World -> World) : M unit :=
  fun w => (Returned tt, f w).

(** ** The script *)

Section Script.

Context (env : Env).

(** [new Date()]: one reading of the clock. *)
Definition newDate : M Z :=
  fun w => (Returned (clock env (ticks w)), tick w).

(** [new Date().toISOString()] *)
Definition nowISO : M string := JSDate.toISOString <$> newDate.

(** [writeLog]: a line stamped with the time goes to the log file of
    the day. The clock is read once for the stamp and once for the name
    of the file; [fs.mkdirSync] comes between the two readings and
    [fs.appendFileSync] after them, and either can throw. The console
    copy of the message is not kept. *)
Definition writeLog (message : string) : M unit :=
  timestamp ← nowISO;
  match logFault env with
  | Some (MkdirFails error) => throw error
  | _ => mret tt
  end;;
  day ← nowISO;
  match logFault env with
  | Some (AppendFails error) => throw error
  | _ => mret tt
  end;;
  modify (fun w =>
    withLogs (logs w ++ [ {| logFile := JSDate.beforeT day;
                             logStamp := timestamp;
                             logMessage := message |} ]) w).

(** [readJSON]: the handler reports on the console and throws the
    error again. *)
Definition readJSON {A : Type} (filePath : Path A) : M A :=
  tryCatch
    (fun w =>
       match stored (fileAt filePath (disk w)) with
       | Parsed data => (Returned data, w)
       | Unreadable error => (Thrown error, w)
       end)
    (fun error => throw error).

(** [writeJSON]: likewise. A document written and read back is the
    document, so the text on disk is not modelled; a write that fails
    after the file has been truncated leaves a text that does not
    parse. *)
Definition writeJSON {A : Type} (filePath : Path A) (data : A) : M unit :=
  tryCatch
    (fun w =>
       match writeFault (fileAt filePath (disk w)) with
       | None =>
           (Returned tt,
            withDisk
              (putFile filePath {| stored := Parsed data; writeFault := None |}
                 (disk w)) w)
       | Some (FailsAtOpen error) => (Thrown error, w)
       | Some (FailsAtWrite error damage) =>
           (Thrown error,
            withDisk
              (putFile filePath
                 {| stored := Unreadable damage;
                    writeFault := Some (FailsAtWrite error damage) |}
                 (disk w)) w)
       end)
    (fun error => throw error).

(** What a fetcher returns: an array of strings, or an array in which
    something that is not a string comes after the strings [before]. *)
Inductive Fetched : Type :=
  | Strings (symbols : list string)
  | Other (before : list string) (error : string).

(** The six fetchers [fetchBinance] ... [fetchKraken] differ in the
    address they ask and in the way they read the reply, which is the
    subject of [Wire] below; what comes of it is in [network env]. All
    six log the request, then the number of pairs or the failure, and
    throw the failure again. *)
Definition fetchSymbols (ex : Exchange) : M Fetched :=
  tryCatch
    (writeLog ("Fetching " +:+ exchangeName ex +:+ " listings...");;
     match network env ex with
     | Listed symbols =>
         writeLog ("✓ " +:+ exchangeName ex +:+ ": "
                   +:+ pretty (length symbols) +:+ " trading pairs");;
         mret (Strings symbols)
     | Mixed before error after =>
         writeLog ("✓ " +:+ exchangeName ex +:+ ": "
                   +:+ pretty (length before + 1 + after)%nat
                   +:+ " trading pairs");;
         mret (Other before error)
     | Failed error => throw error
     end)
    (fun error =>
       writeLog ("✗ " +:+ exchangeName ex +:+ " fetch failed: " +:+ error);;
       throw error).

Definition fetchBinance : M Fetched := fetchSymbols Binance.
Definition fetchCoinbase : M Fetched := fetchSymbols Coinbase.
Definition fetchBybit : M Fetched := fetchSymbols Bybit.
Definition fetchUpbit : M Fetched := fetchSymbols Upbit.
Definition fetchOKX : M Fetched := fetchSymbols OKX.
Definition fetchKraken : M Fetched := fetchSymbols Kraken.

(** The fetcher the block of an exchange calls. *)
Definition fetcherOf (ex : Exchange) : M Fetched :=
  match ex with
  | Binance => fetchBinance | Coinbase => fetchCoinbase | Bybit => fetchBybit
  | Upbit => fetchUpbit | OKX => fetchOKX | Kraken => fetchKraken
  end.

(** The [for ... of] loop of [detectNewListings]; [newListings] is the
    array the loop pushes to. *)
Fixpoint detectLoop (oldNormalized : gset string) (exchangeName : string)
    (newSymbols : list string) (newListings : list NewListing)
    : M (list NewListing) :=
  match newSymbols with
  | [] => mret newListings
  | symbol :: rest =>
      let normalized := normalizeSymbol symbol in
      if negb (bool_decide (normalized ∈ oldNormalized)) then
        stamp ← nowISO;
        detectLoop oldNormalized exchangeName rest
          (newListings ++ [ {| exchange := exchangeName;
                               symbol := symbol;
                               detectedAt := stamp |} ])
      else detectLoop oldNormalized exchangeName rest newListings
  end.

Definition detectNewListings (oldSymbols newSymbols : list string)
    (exchangeName : string) : M (list NewListing) :=
  let oldNormalized : gset string :=
    list_to_set (normalizeSymbol <$> oldSymbols) in
  detectLoop oldNormalized exchangeName newSymbols [].

(** [listingDate >= cutoffDate] compares the two time values; with an
    invalid [listingDate] the comparison is false. *)
Definition notBefore (cutoffDate : Z) (listing : NewListing) : bool :=
  match Date_parse env (detectedAt listing) with
  | Some listingDate => cutoffDate <=? listingDate
  | None => false
  end.

Definition cleanOldListings (listings : list NewListing)
    : M (list NewListing) :=
  cutoffDate ← newDate;
  let cutoffDate :=
    JSDate.setDate (LocalTZA env) cutoffDate
      (JSDate.getDate (LocalTZA env) cutoffDate - RETENTION_DAYS) in
  mret (List.filter (notBefore cutoffDate) listings).

(** One of the six blocks of [updateListings], which are the same text
    up to the exchange. When the fetched array holds something that is
    not a string, [detectNewListings] goes through the strings in front
    of it as it does through any list, and [normalizeSymbol] then throws:
    the events pushed so far are lost with the call, and [results.<key>],
    which has held the fetched array since the fetcher returned, gets the
    old list from the handler before anything reads it. *)
Definition updateExchange (oldListings : ExchangeListings) (ex : Exchange)
    : M unit :=
  tryCatch
    (fetched ← fetcherOf ex;
     match fetched with
     | Strings fetched =>
         modify (fun w =>
           withResults (<[exchangeKey ex := fetched]> (var_results (vars w)))
             w);;
         detected ← detectNewListings
                      (exchangeSymbols ex (exchanges oldListings))
                      fetched (exchangeName ex);
         modify (fun w =>
           withAllNewListings (var_allNewListings (vars w) ++ detected) w);;
         if bool_decide (0 < length detected)%nat then
           writeLog ("🆕 " +:+ exchangeName ex +:+ ": "
                     +:+ pretty (length detected) +:+ " new listing(s)")
         else mret tt
     | Other before error =>
         detectNewListings (exchangeSymbols ex (exchanges oldListings))
           before (exchangeName ex);;
         throw error
     end)
    (fun error =>
       modify (fun w =>
         withErrors (var_errors (vars w)
                     ++ [exchangeName ex +:+ ": " +:+ error]) w);;
       modify (fun w =>
         withResults
           (<[exchangeKey ex := exchangeSymbols ex (exchanges oldListings)]>
              (var_results (vars w))) w)).

(** [results.<key> || []] *)
Definition orEmpty (r : option (list string)) : list string := default [] r.

Definition statusOf (errorCount : nat) : Status :=
  if bool_decide (errorCount = 0%nat) then success
  else if bool_decide (errorCount < 6)%nat then partial_success
  else failed.

Definition rule : string :=
  "════════════════════════════════════════════════════════════".

Definition updateListings : M unit :=
  startTime ← nowISO;
  modify (withErrors []);;
  writeLog rule;;
  writeLog "Starting CEX Listings Update";;
  writeLog rule;;
  tryCatch
    (oldListings ← readJSON FILES_cexListings;
     newListingsData ← readJSON FILES_newListings;
     modify (withResults ∅);;
     modify (withAllNewListings []);;
     updateExchange oldListings Binance;;
     updateExchange oldListings Coinbase;;
     updateExchange oldListings Bybit;;
     updateExchange oldListings Upbit;;
     updateExchange oldListings OKX;;
     updateExchange oldListings Kraken;;
     results ← inspect (fun w => var_results (vars w));
     stamp ← nowISO;
     let updatedListings :=
       {| lastUpdated := Some stamp;
          exchanges :=
            {| binance := orEmpty (results !! "binance");
               coinbase := orEmpty (results !! "coinbase");
               bybit := orEmpty (results !! "bybit");
               upbit := orEmpty (results !! "upbit");
               okx := orEmpty (results !! "okx");
               kraken := orEmpty (results !! "kraken") |} |} in
     writeJSON FILES_cexListings updatedListings;;
     allNewListings ← inspect (fun w => var_allNewListings (vars w));
     let combinedListings := listings newListingsData ++ allNewListings in
     cleanedListings ← cleanOldListings combinedListings;
     stamp ← nowISO;
     let updatedNewListings :=
       {| lastChecked := Some stamp; listings := cleanedListings |} in
     writeJSON FILES_newListings updatedNewListings;;
     errors ← inspect (fun w => var_errors (vars w));
     lastSuccessful ←
       (if bool_decide (length errors = 0%nat) then mret (Some startTime)
        else lastSuccessfulRun <$> readJSON FILES_status);
     let status :=
       {| lastRun := Some startTime;
          lastSuccessfulRun := lastSuccessful;
          status := statusOf (length errors);
          errors := errors |} in
     writeJSON FILES_status status;;
     writeLog rule;;
     writeLog ("Update Complete: " +:+ pretty (length allNewListings)
               +:+ " new listing(s) detected");;
     (if bool_decide (0 < length errors)%nat then
        writeLog ("⚠ " +:+ pretty (length errors)
                  +:+ " error(s) occurred - check logs for details")
      else mret tt);;
     writeLog rule)
    (fun error =>
       writeLog ("✗ Critical error: " +:+ error);;
       lastSuccessful ← lastSuccessfulRun <$> readJSON FILES_status;
       let status :=
         {| lastRun := Some startTime;
            lastSuccessfulRun := lastSuccessful;
            status := failed;
            errors := ["Critical: " +:+ error] |} in
       writeJSON FILES_status status;;
       throw error).

(** The entry point: the exit code of the process. *)
Definition main (w : World) : Z * World :=
  match updateListings w with
  | (Returned _, w') => (0, w')
  | (Thrown _, w') => (1, w')
  end.

End Script.

(** ** Vocabulary of the specification *)

(** A new-side symbol is new when its normalized form is not the
    normalized form of any old-side symbol. *)
Definition isNew (oldSymbols : list string) (symbol : string) : bool :=
  bool_decide (normalizeSymbol symbol ∉ normalizeSymbol <$> oldSymbols).

(** The state after [n] further readings of the clock. *)
Definition advance (n : nat) (w : World) : World := Nat.iter n tick w.

(** Nothing but the clock and the log has changed between two states. *)
Definition quiet (w w' : World) : Prop :=
  disk w' = disk w /\ vars w' = vars w /\ (ticks w <= ticks w')%nat.

(** Weakest precondition of a computation, read at a given state. *)
Definition wp {A : Type} (m : M A) (w : World)
    (Q : Outcome A -> World -> Prop) : Prop :=
  Q (m w).1 (m w).2.

(** The log can be written during the run. *)
Class LogWritable (env : Env) : Prop :=
  log_writable : logFault env = None.

Section Vocabulary.

Context (env : Env).

(** The entry of [errors] an exchange contributes. *)
Definition failureOf (ex : Exchange) : list string :=
  match network env ex with
  | Listed _ => []
  | Failed error => [exchangeName ex +:+ ": " +:+ error]
  | Mixed _ error _ => [exchangeName ex +:+ ": " +:+ error]
  end.

Definition failures : list string :=
  concat (failureOf <$> EXCHANGES).

(** The fetcher of the exchange throws. *)
Definition fetchFailed (ex : Exchange) : bool :=
  match network env ex with Failed _ => true | _ => false end.

(** The block of the exchange ends in its handler: the fetcher throws,
    or [detectNewListings] does. *)
Definition blockFailed (ex : Exchange) : bool :=
  match network env ex with Listed _ => false | _ => true end.

(** The list an exchange has in the new snapshot. *)
Definition carried (old : Exchanges) (ex : Exchange) : list string :=
  match network env ex with
  | Listed symbols => symbols
  | Failed _ | Mixed _ _ _ => exchangeSymbols ex old
  end.

(** The stamp [startTime] of a run started in state [w]. *)
Definition startOf (w : World) : string :=
  JSDate.toISOString (clock env (ticks w)).

(** Detected at or after the instant [RETENTION_DAYS] days of
    86 400 000 ms before [now]. *)
Definition withinWindow (now : Z) (listing : NewListing) : bool :=
  match Date_parse env (detectedAt listing) with
  | Some t => now - RETENTION_DAYS * JSDate.msPerDay <=? t
  | None => false
  end.

(** The cutoff [cleanOldListings] computes from the reading [now] of the
    clock: the same local time of day, [RETENTION_DAYS] days earlier in
    the host's calendar. *)
Definition cutoffOf (now : Z) : Z :=
  JSDate.setDate (LocalTZA env) now
    (JSDate.getDate (LocalTZA env) now - RETENTION_DAYS).

(** The host keeps one offset from UTC. *)
Definition fixedOffset : Prop :=
  exists tza, forall t isUTC, LocalTZA env t isUTC = tza.

(** An entry of [errors] that carries the name of the exchange, and a
    list of errors that holds one. *)
Definition tagged (ex : Exchange) (error : string) : bool :=
  String.prefix (exchangeName ex +:+ ": ") error.

Definition recorded (ex : Exchange) (errors : list string) : bool :=
  existsb (tagged ex) errors.

(** The events [detectNewListings] pushes, given the number of clock
    readings taken before the call. *)
Fixpoint detected (oldSymbols : list string) (exchangeName : string)
    (newSymbols : list string) (n : nat) : list NewListing :=
  match newSymbols with
  | [] => []
  | s :: rest =>
      if isNew oldSymbols s then
        {| exchange := exchangeName; symbol := s;
           detectedAt := JSDate.toISOString (clock env n) |}
        :: detected oldSymbols exchangeName rest (S n)
      else detected oldSymbols exchangeName rest n
  end.

(** The status document of a fatal run. *)
Definition fatalStatus (w : World) (prior : StatusData) (error : string)
    : StatusData :=
  {| lastRun := Some (startOf w);
     lastSuccessfulRun := lastSuccessfulRun prior;
     status := failed;
     errors := ["Critical: " +:+ error] |}.

(** What a run that returns leaves on disk. *)
Definition Committed (w w' : World) : Prop :=
  exists (old : ExchangeListings) (prior : NewListingsData)
         (snapshot : ExchangeListings) (log : NewListingsData)
         (report : StatusData) (k : nat) (found : list NewListing),
    stored (cexListingsFile (disk w)) = Parsed old
    /\ stored (newListingsFile (disk w)) = Parsed prior
    /\ stored (cexListingsFile (disk w')) = Parsed snapshot
    /\ stored (newListingsFile (disk w')) = Parsed log
    /\ stored (statusFile (disk w')) = Parsed report
    /\ (forall ex, exchangeSymbols ex (exchanges snapshot)
                   = carried (exchanges old) ex)
    /\ (ticks w <= k < ticks w')%nat
    /\ listings log
       = List.filter (notBefore env (cutoffOf (clock env k)))
           (listings prior ++ found)
    /\ lastRun report = Some (startOf w)
    /\ errors report = failures
    /\ status report = statusOf (length failures)
    /\ (failures = [] -> lastSuccessfulRun report = Some (startOf w))
    /\ (failures <> [] ->
         exists before, stored (statusFile (disk w)) = Parsed before
           /\ lastSuccessfulRun report = lastSuccessfulRun before)
    /\ var_errors (vars w') = failures.

(** The prior snapshot or the prior listing log cannot be loaded, and
    [error] is what loading raises. *)
Definition loadFails (w : World) (error : string) : Prop :=
  stored (cexListingsFile (disk w)) = Unreadable error
  \/ ((exists old, stored (cexListingsFile (disk w)) = Parsed old)
      /\ stored (newListingsFile (disk w)) = Unreadable error).

(** Every step of a run with this disk succeeds. *)
Definition healthy (w : World) : Prop :=
  logFault env = None
  /\ (exists old, stored (cexListingsFile (disk w)) = Parsed old)
  /\ (exists prior, stored (newListingsFile (disk w)) = Parsed prior)
  /\ writeFault (cexListingsFile (disk w)) = None
  /\ writeFault (newListingsFile (disk w)) = None
  /\ writeFault (statusFile (disk w)) = None
  /\ (failures = []
      \/ exists before, stored (statusFile (disk w)) = Parsed before).

(** If the run could load the prior snapshot and the prior listing log
    and can write the snapshot, the snapshot on disk is the new one, and
    [errors] holds what the six blocks have pushed. *)
Definition Snapshotted (w w' : World) : Prop :=
  forall old prior,
    stored (cexListingsFile (disk w)) = Parsed old ->
    stored (newListingsFile (disk w)) = Parsed prior ->
    writeFault (cexListingsFile (disk w)) = None ->
    exists snapshot,
      stored (cexListingsFile (disk w')) = Parsed snapshot
      /\ (forall ex, exchangeSymbols ex (exchanges snapshot)
                     = carried (exchanges old) ex)
      /\ var_errors (vars w') = failures.

(** What a run leaves behind, by the way it ends. *)
Definition RunPost (w : World) (o : Outcome unit) (w' : World) : Prop :=
  (o = Returned tt -> Committed w w')
  /\ (forall e before,
        o = Thrown e ->
        stored (statusFile (disk w)) = Parsed before ->
        writeFault (statusFile (disk w)) = None ->
        stored (statusFile (disk w')) = Parsed (fatalStatus w before e))
  /\ (forall e,
        loadFails w e ->
        cexListingsFile (disk w') = cexListingsFile (disk w)
        /\ newListingsFile (disk w') = newListingsFile (disk w)
        /\ (exists e', o = Thrown e')
        /\ (forall before,
              stored (statusFile (disk w)) = Parsed before ->
              writeFault (statusFile (disk w)) = None ->
              o = Thrown e))
  /\ (healthy w -> o = Returned tt)
  /\ Snapshotted w w'.

End Vocabulary.

(** ** A host and a run for the examples *)

Definition sampleClock (n : nat) : Z := 1706659200000 + 1000 * Z.of_nat n.

Definition hostWith (network : Exchange -> Reply) : Env :=
  {| Date_parse := JSDate.parseISO; LocalTZA := fun _ _ => 0;
     clock := sampleClock; network := network; logFault := None |}.

Definition fileOf {A : Type} (data : A) : File A :=
  {| stored := Parsed data; writeFault := None |}.

Definition freshVars : Vars :=
  {| var_errors := []; var_results := ∅; var_allNewListings := [] |}.

Definition worldOf (d : Disk) : World :=
  {| ticks := 0; logs := []; disk := d; vars := freshVars |}.

Definition sampleSnapshot : ExchangeListings :=
  {| lastUpdated := Some "2024-01-30T00:00:00.046Z";
     exchanges :=
       {| binance := ["BTCUSDT"]; coinbase := ["BTC-USD"]; bybit := [];
          upbit := ["KRW-BTC"]; okx := ["BTC-USDT"];
          kraken := ["XXBTZUSD"] |} |}.

Definition sampleLog : NewListingsData :=
  {| lastChecked := Some "2024-01-30T00:00:00.048Z";
     listings :=
       [ {| exchange := "Binance"; symbol := "OLDUSDT";
            detectedAt := "2023-12-01T00:00:00.000Z" |};
         {| exchange := "Kraken"; symbol := "NEWUSD";
            detectedAt := "2024-01-15T12:00:00.000Z" |};
         {| exchange := "Bybit"; symbol := "XUSDT";
            detectedAt := "yesterday" |} ] |}.

Definition sampleStatus : StatusData :=
  {| lastRun := Some "2024-01-30T00:00:00.000Z";
     lastSuccessfulRun := Some "2024-01-29T00:00:00.000Z";
     status := partial_success;
     errors := ["OKX: Error: Invalid OKX API response"] |}.

Definition sampleDisk : Disk :=
  {| cexListingsFile := fileOf sampleSnapshot;
     newListingsFile := fileOf sampleLog;
     statusFile := fileOf sampleStatus |}.

(** Two of the six exchanges fail. *)
Definition market (ex : Exchange) : Reply :=
  match ex with
  | Binance => Listed ["BTCUSDT"; "ETHUSDT"]
  | Coinbase => Failed "Error: Invalid Coinbase API response"
  | Bybit => Listed ["BTCUSDT"]
  | Upbit => Listed ["KRW-BTC"]
  | OKX => Failed "FetchError: request to https://www.okx.com failed"
  | Kraken => Listed ["XXBTZUSD"]
  end.

(** One exchange fails. *)
Definition oneDown (ex : Exchange) : Reply :=
  match ex with
  | Coinbase => Failed "Error: Invalid Coinbase API response"
  | _ => Listed (exchangeSymbols ex (exchanges sampleSnapshot))
  end.

(** A status document whose last successful run carries the stamp the
    sample clock gives the next run. *)
Definition sameInstantStatus : StatusData :=
  {| lastRun := Some "2024-01-31T00:00:00.000Z";
     lastSuccessfulRun := Some "2024-01-31T00:00:00.000Z";
     status := success;
     errors := [] |}.

Definition sameInstantDisk : Disk :=
  {| cexListingsFile := fileOf sampleSnapshot;
     newListingsFile := fileOf sampleLog;
     statusFile := fileOf sameInstantStatus |}.

(** The status document is not JSON. *)
Definition brokenStatusDisk : Disk :=
  {| cexListingsFile := fileOf sampleSnapshot;
     newListingsFile := fileOf sampleLog;
     statusFile :=
       {| stored := Unreadable "SyntaxError: Unexpected end of JSON input";
          writeFault := None |} |}.

(** The snapshot document is not JSON. *)
Definition brokenSnapshotDisk : Disk :=
  {| cexListingsFile :=
       {| stored := Unreadable "SyntaxError: Unexpected end of JSON input";
          writeFault := None |};
     newListingsFile := fileOf sampleLog;
     statusFile := fileOf sampleStatus |}.

(** Every exchange answers with the pairs of the sample snapshot. *)
Definition allUp (ex : Exchange) : Reply :=
  Listed (exchangeSymbols ex (exchanges sampleSnapshot)).

(** Binance lists a pair whose [symbol] is [null], after two pairs that
    have one. *)
Definition nullSymbol (ex : Exchange) : Reply :=
  match ex with
  | Binance =>
      Mixed ["BTCUSDT"; "ETHUSDT"]
        "TypeError: Cannot read properties of null (reading 'replace')" 0
  | _ => allUp ex
  end.

(** The listing log cannot be opened for writing. *)
Definition readOnlyLogDisk : Disk :=
  {| cexListingsFile := fileOf sampleSnapshot;
     newListingsFile :=
       {| stored := Parsed sampleLog;
          writeFault :=
            Some (FailsAtOpen "Error: EACCES: permission denied, open") |};
     statusFile := fileOf sampleStatus |}.

(** A host on which the log file of the day cannot be appended to. *)
Definition muteHost (network : Exchange -> Reply) : Env :=
  {| Date_parse := JSDate.parseISO; LocalTZA := fun _ _ => 0;
     clock := sampleClock; network := network;
     logFault :=
       Some (AppendFails "Error: EACCES: permission denied, open") |}.




(** Listings detected 31, 30 and 29 days before the first reading of the
    sample clock. *)
Definition listedAt (stamp : string) : NewListing :=
  {| exchange := "Binance"; symbol := "ETHUSDT"; detectedAt := stamp |}.

Definition boundaryEntries : list NewListing :=
  [ listedAt "2023-12-31T00:00:00.000Z";
    listedAt "2024-01-01T00:00:00.000Z";
    listedAt "2024-01-02T00:00:00.000Z" ].

(** ** Vocabulary and samples of the further properties *)

(** ** Vocabulary for the properties of whole runs *)

(** A computation that only appends to the log and only advances the
    clock, however it ends. *)
Definition appends {A : Type} (m : M A) : Prop :=
  forall w,
    logs w `prefix_of` logs (m w).2 /\ (ticks w <= ticks (m w).2)%nat.

Section Traces.

Context (env : Env).

(** The events the block of an exchange adds to [allNewListings], when
    [detectNewListings] is called after [n] readings of the clock. *)
Definition foundOf (old : Exchanges) (ex : Exchange) (n : nat)
    : list NewListing :=
  match network env ex with
  | Listed symbols =>
      detected env (exchangeSymbols ex old) (exchangeName ex) symbols n
  | Failed _ | Mixed _ _ _ => []
  end.

(** The listing log of a run that returns: the prior entries followed by
    the events of the six exchanges, pruned at reading [k] of the clock,
    which comes after the readings that stamped the events. *)
Definition Traced (w w' : World) : Prop :=
  exists (old : ExchangeListings) (prior log : NewListingsData)
         (at_ : Exchange -> nat) (k : nat),
    stored (cexListingsFile (disk w)) = Parsed old
    /\ stored (newListingsFile (disk w)) = Parsed prior
    /\ stored (newListingsFile (disk w')) = Parsed log
    /\ (forall ex,
          (ticks w <= at_ ex)%nat
          /\ (at_ ex + length (foundOf (exchanges old) ex (at_ ex)) <= k)%nat)
    /\ (k < ticks w')%nat
    /\ listings log
       = List.filter (notBefore env (cutoffOf env (clock env k)))
           (listings prior
            ++ concat ((fun ex => foundOf (exchanges old) ex (at_ ex))
                         <$> EXCHANGES)).

End Traces.

(** Every exchange fails. *)
Definition allDown (ex : Exchange) : Reply :=
  Failed ("FetchError: request to " +:+ exchangeName ex +:+ " failed").

(** The snapshot document cannot be opened for writing. *)
Definition readOnlySnapshotDisk : Disk :=
  {| cexListingsFile :=
       {| stored := Parsed sampleSnapshot;
          writeFault :=
            Some (FailsAtOpen "Error: EACCES: permission denied, open") |};
     newListingsFile := fileOf sampleLog;
     statusFile := fileOf sampleStatus |}.

(** The disk is full: the snapshot document is truncated and cannot be
    written. *)
Definition fullSnapshotDisk : Disk :=
  {| cexListingsFile :=
       {| stored := Parsed sampleSnapshot;
          writeFault :=
            Some (FailsAtWrite
                    "Error: ENOSPC: no space left on device, write"
                    "SyntaxError: Unexpected end of JSON input") |};
     newListingsFile := fileOf sampleLog;
     statusFile := fileOf sampleStatus |}.

(** What a run leaves of the two data files when one of them cannot be
    written. *)
Definition FaultPost (w : World) (o : Outcome unit) (w' : World) : Prop :=
  (forall fault,
      writeFault (cexListingsFile (disk w)) = Some fault ->
      newListingsFile (disk w') = newListingsFile (disk w)
      /\ (forall e,
            fault = FailsAtOpen e ->
            cexListingsFile (disk w') = cexListingsFile (disk w))
      /\ forall old prior before,
           stored (cexListingsFile (disk w)) = Parsed old ->
           stored (newListingsFile (disk w)) = Parsed prior ->
           stored (statusFile (disk w)) = Parsed before ->
           writeFault (statusFile (disk w)) = None ->
           o = Thrown (writeError fault)
           /\ forall e damage,
                fault = FailsAtWrite e damage ->
                stored (cexListingsFile (disk w')) = Unreadable damage)
  /\ (forall fault,
        writeFault (newListingsFile (disk w)) = Some fault ->
        (forall e,
            fault = FailsAtOpen e ->
            newListingsFile (disk w') = newListingsFile (disk w))
        /\ forall old prior before,
             stored (cexListingsFile (disk w)) = Parsed old ->
             stored (newListingsFile (disk w)) = Parsed prior ->
             writeFault (cexListingsFile (disk w)) = None ->
             stored (statusFile (disk w)) = Parsed before ->
             writeFault (statusFile (disk w)) = None ->
             o = Thrown (writeError fault)
             /\ forall e damage,
                  fault = FailsAtWrite e damage ->
                  stored (newListingsFile (disk w')) = Unreadable damage).


(** ** The replies of the exchanges

    What each fetcher makes of the value [await response.json()] gives:
    the statements from the test of the shape of [data] to
    [return symbols], the logging apart. A failure of [fetch] or of
    [response.json()] comes before and is not part of it. *)

Module Wire.

(** The values of JSON, and [undefined], which reading a property that is
    not there gives. Of a number the script can only see whether it is
    truthy, that is, neither zero nor NaN. An object is the list of its
    own properties in the order of their creation, one entry per name. *)
#[warnings="-register-all"]
Inductive JSValue : Type :=
  | JUndefined
  | JNull
  | JBool (b : bool)
  | JNumber (nonzero : bool)
  | JString (s : string)
  | JArray (items : list JSValue)
  | JObject (properties : list (string * JSValue)).

(** The properties the fetchers read. None of them is inherited from a
    prototype, an index or [length]: only an object can have one. *)
Inductive Key : Type :=
  | k_symbols | k_status | k_symbol | k_id | k_result | k_list
  | k_market | k_data | k_state | k_instId.

Definition keyName (k : Key) : string :=
  match k with
  | k_symbols => "symbols" | k_status => "status" | k_symbol => "symbol"
  | k_id => "id" | k_result => "result" | k_list => "list"
  | k_market => "market" | k_data => "data" | k_state => "state"
  | k_instId => "instId"
  end.

(** What the engine throws by itself; the text of the message is the
    engine's. *)
Inductive Fault : Type :=
  | CannotRead (property : string)   (* a property of null or undefined *)
  | NotAFunction (method : string)   (* a call of what is no function *)
  | CannotConvert.                   (* null or undefined to an object *)

Inductive JSError : Type :=
  | Error (message : string)         (* [new Error(message)] *)
  | TypeError (fault : Fault).

Inductive Completion (A : Type) : Type :=
  | Normal (value : A)
  | Abrupt (error : JSError).
Arguments Normal {A} value.
Arguments Abrupt {A} error.

#[global] Instance Completion_ret : MRet Completion :=
  fun A (a : A) => Normal a.

#[global] Instance Completion_bind : MBind Completion :=
  fun A B (f : A -> Completion B) (m : Completion A) =>
    match m with
    | Normal a => f a
    | Abrupt e => Abrupt e
    end.

(** [ToBoolean] *)
Definition truthy (v : JSValue) : bool :=
  match v with
  | JUndefined | JNull => false
  | JBool b => b
  | JNumber nonzero => nonzero
  | JString s => negb (bool_decide (s = ""))
  | JArray _ | JObject _ => true
  end.

(** The value of an own property. *)
Fixpoint own (name : string) (properties : list (string * JSValue))
    : option JSValue :=
  match properties with
  | [] => None
  | (n, v) :: rest => if bool_decide (n = name) then Some v else own name rest
  end.

(** [v.k] *)
Definition get (v : JSValue) (k : Key) : Completion JSValue :=
  match v with
  | JUndefined | JNull => Abrupt (TypeError (CannotRead (keyName k)))
  | JObject properties => Normal (default JUndefined (own (keyName k) properties))
  | JBool _ | JNumber _ | JString _ | JArray _ => Normal JUndefined
  end.

(** [v === 'literal'] *)
Definition strictEquals (v : JSValue) (literal : string) : bool :=
  match v with
  | JString s => bool_decide (s = literal)
  | _ => false
  end.

(** [Array.isArray(v)] *)
Definition isArray (v : JSValue) : bool :=
  match v with JArray _ => true | _ => false end.

(** [Array.prototype.filter] and [Array.prototype.map]: the elements are
    visited in order, and an exception of the callback ends the call. *)
Fixpoint filterItems (callback : JSValue -> Completion bool)
    (items : list JSValue) : Completion (list JSValue) :=
  match items with
  | [] => Normal []
  | item :: rest =>
      keep ← callback item;
      kept ← filterItems callback rest;
      Normal (if keep : bool then item :: kept else kept)
  end.

Fixpoint mapItems (callback : JSValue -> Completion JSValue)
    (items : list JSValue) : Completion (list JSValue) :=
  match items with
  | [] => Normal []
  | item :: rest =>
      value ← callback item;
      values ← mapItems callback rest;
      Normal (value :: values)
  end.

(** [v.filter(callback)]: only an array has the method. *)
Definition filter (v : JSValue) (callback : JSValue -> Completion bool)
    : Completion (list JSValue) :=
  match v with
  | JArray items => filterItems callback items
  | JUndefined | JNull => Abrupt (TypeError (CannotRead "filter"))
  | JBool _ | JNumber _ | JString _ | JObject _ =>
      Abrupt (TypeError (NotAFunction "filter"))
  end.

(** [v.startsWith(searchString)]: only a string has the method. *)
Definition startsWith (v : JSValue) (searchString : string)
    : Completion bool :=
  match v with
  | JString s => Normal (String.prefix searchString s)
  | JUndefined | JNull => Abrupt (TypeError (CannotRead "startsWith"))
  | JBool _ | JNumber _ | JArray _ | JObject _ =>
      Abrupt (TypeError (NotAFunction "startsWith"))
  end.

(** An array index is the canonical decimal form of an integer below
    2^32 - 1. *)
Fixpoint digits (s : string) (acc : N) : option N :=
  match s with
  | EmptyString => Some acc
  | String c rest =>
      let n := N.of_nat (nat_of_ascii c) in
      if ((48 <=? n) && (n <=? 57))%N then digits rest (10 * acc + (n - 48))%N
      else None
  end.

Definition arrayIndex (name : string) : option N :=
  match digits name 0%N with
  | Some n =>
      if bool_decide (pretty n = name) && (n <? 4294967295)%N then Some n
      else None
  | None => None
  end.

Fixpoint insertIndex (n : N) (sorted : list N) : list N :=
  match sorted with
  | [] => [n]
  | m :: rest => if (n <=? m)%N then n :: sorted else m :: insertIndex n rest
  end.

Definition ascending (indices : list N) : list N :=
  foldr insertIndex [] indices.

(** The own property names of an object, in the order [Object.keys]
    lists them: the array indices in ascending order, then the other
    names in the order of creation. *)
Definition ownKeys (properties : list (string * JSValue)) : list string :=
  let names := fst <$> properties in
  (pretty <$> ascending (omap arrayIndex names))
  ++ List.filter (fun name => bool_decide (arrayIndex name = None)) names.

(** [Object.keys(v)]: a string has one index per code unit, an array one
    per element, a boolean or a number none. *)
Definition Object_keys (v : JSValue) : Completion (list string) :=
  match v with
  | JUndefined | JNull => Abrupt (TypeError CannotConvert)
  | JBool _ | JNumber _ => Normal []
  | JString s => Normal (pretty <$> seq 0 (String.length s))
  | JArray items => Normal (pretty <$> seq 0 (length items))
  | JObject properties => Normal (ownKeys properties)
  end.

(** [pairs.filter(p => p.flag === literal).map(p => p.name)]: the text
    [fetchBinance], [fetchCoinbase], [fetchBybit] and [fetchOKX] share,
    up to the two properties and the literal. *)
Definition select (pairs : JSValue) (flag : Key) (literal : string)
    (name : Key) : Completion (list JSValue) :=
  kept ← filter pairs
           (fun p => v ← get p flag; Normal (strictEquals v literal));
  mapItems (fun p => get p name) kept.

Definition fetchBinance (data : JSValue) : Completion (list JSValue) :=
  symbols ← get data k_symbols;
  if negb (truthy symbols)
  then Abrupt (Error "Invalid Binance API response")
  else select symbols k_status "TRADING" k_symbol.

Definition fetchCoinbase (data : JSValue) : Completion (list JSValue) :=
  if negb (isArray data)
  then Abrupt (Error "Invalid Coinbase API response")
  else select data k_status "online" k_id.

Definition fetchBybit (data : JSValue) : Completion (list JSValue) :=
  result ← get data k_result;
  if negb (truthy result)
  then Abrupt (Error "Invalid Bybit API response")
  else
    list ← get result k_list;
    if negb (truthy list)
    then Abrupt (Error "Invalid Bybit API response")
    else select list k_status "Trading" k_symbol.

Definition fetchUpbit (data : JSValue) : Completion (list JSValue) :=
  if negb (isArray data)
  then Abrupt (Error "Invalid Upbit API response")
  else
    kept ← filter data
             (fun m =>
                market ← get m k_market;
                if truthy market then startsWith market "KRW-"
                else Normal false);
    mapItems (fun m => get m k_market) kept.

Definition fetchOKX (data : JSValue) : Completion (list JSValue) :=
  instruments ← get data k_data;
  if negb (truthy instruments)
  then Abrupt (Error "Invalid OKX API response")
  else select instruments k_state "live" k_instId.

Definition fetchKraken (data : JSValue) : Completion (list JSValue) :=
  result ← get data k_result;
  if negb (truthy result)
  then Abrupt (Error "Invalid Kraken API response")
  else
    symbols ← Object_keys result;
    Normal (JString <$> symbols : list JSValue).

(** The fetcher of an exchange. *)
Definition fetcherOf (ex : Exchange) : JSValue -> Completion (list JSValue) :=
  match ex with
  | Binance => fetchBinance | Coinbase => fetchCoinbase | Bybit => fetchBybit
  | Upbit => fetchUpbit | OKX => fetchOKX | Kraken => fetchKraken
  end.

(** The text of an error in a template string. *)
Definition render (engine : Fault -> string) (e : JSError) : string :=
  match e with
  | Error message => "Error: " +:+ message
  | TypeError fault => "TypeError: " +:+ engine fault
  end.

Definition asString (v : JSValue) : option string :=
  match v with JString s => Some s | _ => None end.

(** The reply of the run's model that a completion of a fetcher stands
    for, when what it returns are strings. *)
Definition replyOf (engine : Fault -> string)
    (c : Completion (list JSValue)) : option Reply :=
  match c with
  | Normal values => Listed <$> mapM asString values
  | Abrupt e => Some (Failed (render engine e))
  end.

(** The vocabulary of the properties: an entry that is neither [null]
    nor [undefined], an entry whose [flag] is the literal, and the value
    of a property that may be absent. *)
Definition present (v : JSValue) : bool :=
  match v with JUndefined | JNull => false | _ => true end.

Definition valueOf (name : Key) (v : JSValue) : JSValue :=
  match v with
  | JObject properties => default JUndefined (own (keyName name) properties)
  | _ => JUndefined
  end.

Definition marked (flag : Key) (literal : string) (v : JSValue) : bool :=
  strictEquals (valueOf flag v) literal.

(** A body of Binance with one pair trading and one halted, a body of an
    exchange in maintenance, and the body of a refusal. *)
Definition pairOf (name : Key) (s : string) (flag : Key) (value : string)
    : JSValue :=
  JObject [(keyName name, JString s); (keyName flag, JString value)].

Definition sampleBody : JSValue :=
  JObject [ ("timezone", JString "UTC");
            ("symbols",
             JArray [ pairOf k_symbol "BTCUSDT" k_status "TRADING";
                      pairOf k_symbol "LUNAUSDT" k_status "BREAK";
                      pairOf k_symbol "ETHUSDT" k_status "TRADING" ]) ].

Definition haltedBody : JSValue :=
  JObject [ ("symbols",
             JArray [ pairOf k_symbol "BTCUSDT" k_status "BREAK";
                      pairOf k_symbol "ETHUSDT" k_status "BREAK" ]) ].

Definition refusalBody : JSValue :=
  JObject [ ("code", JNumber true);
            ("msg", JString "Too many requests.") ].

Definition poisonedBody : JSValue :=
  JObject [ ("symbols",
             JArray [ pairOf k_symbol "BTCUSDT" k_status "TRADING";
                      JNull ]) ].

Definition upbitBody : JSValue :=
  JArray [ JObject [("market", JString "KRW-BTC");
                    ("english_name", JString "Bitcoin")];
           JObject [("market", JString "BTC-ETH");
                    ("english_name", JString "Ethereum")];
           JObject [("english_name", JString "Ripple")] ].

Definition krakenBody : JSValue :=
  JObject [ ("error", JArray []);
            ("result",
             JObject [ ("XXBTZUSD", JObject [("altname", JString "XBTUSD")]);
                       ("XETHZUSD", JObject [("altname", JString "ETHUSD")]) ]) ].

Definition sampleEngine (fault : Fault) : string :=
  match fault with
  | CannotRead property =>
      "Cannot read properties of null (reading '" +:+ property +:+ "')"
  | NotAFunction method => method +:+ " is not a function"
  | CannotConvert => "Cannot convert undefined or null to object"
  end.

End Wire.

(** * Properties *)

(** ** The calendar *)

Module JSDateFacts.
Import JSDate.

Section Era.
Variable doe : Z.
Hypothesis doe_range : 0 <= doe < 146097.

Let yoe := (doe - doe / 1460 + doe / 36524 - doe / 146096) / 365.
Let doy := doe - (365 * yoe + yoe / 4 - yoe / 100).
Let mp := (5 * doy + 2) / 153.

Lemma yoe_range : 0 <= yoe <= 399.
Proof. subst yoe. Z.to_euclidean_division_equations. lia. Qed.

Lemma doy_range : 0 <= doy <= 365.
Proof. subst doy yoe. Z.to_euclidean_division_equations. lia. Qed.

Lemma mp_range : 0 <= mp <= 11.
Proof.
  pose proof doy_range. subst mp. Z.to_euclidean_division_equations. lia.
Qed.
End Era.

Lemma daysFromCivil_civilFromDays (z dt : Z) :
  daysFromCivil (civilFromDays z).1.1 (civilFromDays z).1.2 dt
  = z - (civilFromDays z).2 + dt.
Proof.
  unfold civilFromDays, daysFromCivil. cbn zeta. cbn [fst snd].
  set (z' := z + 719468).
  set (era := z' / 146097).
  set (doe := z' - era * 146097).
  assert (Hdoe : 0 <= doe < 146097).
  { subst doe era. Z.to_euclidean_division_equations. lia. }
  pose proof (yoe_range doe Hdoe) as Hy.
  pose proof (mp_range doe Hdoe) as Hm.
  cbv zeta in Hy, Hm.
  set (yoe := (doe - doe / 1460 + doe / 36524 - doe / 146096) / 365) in *.
  set (doy := doe - (365 * yoe + yoe / 4 - yoe / 100)) in *.
  set (mp := (5 * doy + 2) / 153) in *.
  destruct (Z.ltb_spec mp 10) as [Hlt | Hge].
  - replace (mp + 3 <=? 2) with false by (symmetry; apply Z.leb_gt; lia).
    replace (2 <? mp + 3) with true by (symmetry; apply Z.ltb_lt; lia).
    replace (yoe + era * 400 + 0) with (yoe + era * 400) by lia.
    replace ((yoe + era * 400) / 400) with era
      by (Z.to_euclidean_division_equations; lia).
    replace (mp + 3 - 3) with mp by lia.
    replace (yoe + era * 400 - era * 400) with yoe by lia.
    subst doy z' doe. lia.
  - replace (mp - 9 <=? 2) with true by (symmetry; apply Z.leb_le; lia).
    replace (2 <? mp - 9) with false by (symmetry; apply Z.ltb_ge; lia).
    replace (yoe + era * 400 + 1 - 1) with (yoe + era * 400) by lia.
    replace ((yoe + era * 400) / 400) with era
      by (Z.to_euclidean_division_equations; lia).
    replace (mp - 9 + 9) with mp by lia.
    replace (yoe + era * 400 - era * 400) with yoe by lia.
    subst doy z' doe. lia.
Qed.

Lemma month_range (z : Z) : 1 <= (civilFromDays z).1.2 <= 12.
Proof.
  unfold civilFromDays. cbn zeta. cbn [fst snd].
  set (z' := z + 719468).
  set (era := z' / 146097).
  set (doe := z' - era * 146097).
  assert (Hdoe : 0 <= doe < 146097).
  { subst doe era. Z.to_euclidean_division_equations. lia. }
  pose proof (mp_range doe Hdoe) as Hm. cbv zeta in Hm.
  set (yoe := (doe - doe / 1460 + doe / 36524 - doe / 146096) / 365) in *.
  set (doy := doe - (365 * yoe + yoe / 4 - yoe / 100)) in *.
  set (mp := (5 * doy + 2) / 153) in *.
  destruct (Z.ltb_spec mp 10); lia.
Qed.

Lemma MakeDay_same_month (t dt : Z) :
  MakeDay (YearFromTime t) (MonthFromTime t) dt = Day t - DateFromTime t + dt.
Proof.
  unfold MakeDay, YearFromTime, MonthFromTime, DateFromTime.
  pose proof (month_range (Day t)) as Hm.
  set (c := civilFromDays (Day t)) in *.
  replace ((c.1.2 - 1) / 12) with 0
    by (Z.to_euclidean_division_equations; lia).
  replace ((c.1.2 - 1) mod 12 + 1) with (c.1.2)
    by (Z.to_euclidean_division_equations; lia).
  rewrite Z.add_0_r. subst c. rewrite daysFromCivil_civilFromDays. lia.
Qed.

(** On a host that keeps one offset, [setDate] moves the date by whole
    days of 86 400 000 ms. *)
Lemma setDate_getDate (tza : Z -> bool -> Z) (offset t n : Z) :
  (forall t isUTC, tza t isUTC = offset) ->
  setDate tza t (getDate tza t - n) = t - n * msPerDay.
Proof.
  intros Hfix.
  unfold setDate, getDate, UTC, MakeDate. cbn zeta.
  rewrite MakeDay_same_month.
  unfold LocalTime. rewrite !Hfix.
  unfold Day, TimeWithinDay, msPerDay.
  Z.to_euclidean_division_equations. lia.
Qed.
End JSDateFacts.

Example toISOString_parseISO_sample :
  JSDate.toISOString 1706659200123 = "2024-01-31T00:00:00.123Z"
  /\ JSDate.parseISO "2024-01-31T00:00:00.123Z" = Some 1706659200123
  /\ JSDate.toISOString (-1) = "1969-12-31T23:59:59.999Z"
  /\ JSDate.parseISO "yesterday" = None
  /\ JSDate.beforeT "2024-01-31T00:00:00.123Z" = "2024-01-31".
Proof. vm_compute. auto. Qed.

(** ** The normalizer *)

Lemma upperChar_not_separator (c : ascii) :
  isSeparator c = false -> isSeparator (upperChar c) = false.
Proof.
  destruct c as [[] [] [] [] [] [] [] []]; vm_compute; congruence.
Qed.

Lemma upperChar_idempotent (c : ascii) : upperChar (upperChar c) = upperChar c.
Proof. destruct c as [[] [] [] [] [] [] [] []]; reflexivity. Qed.

Lemma normalizeSymbol_idempotent (s : string) :
  normalizeSymbol (normalizeSymbol s) = normalizeSymbol s.
Proof.
  unfold normalizeSymbol.
  induction s as [|c s IH]; [reflexivity|].
  cbn [removeSeparators].
  destruct (isSeparator c) eqn:Hc; [exact IH|].
  cbn [toUpperCase removeSeparators].
  rewrite (upperChar_not_separator c Hc).
  cbn [toUpperCase]. rewrite upperChar_idempotent. f_equal. exact IH.
Qed.






(** ** Computations *)

Lemma wp_eq {A : Type} (m : M A) (w w' : World) (o : Outcome A)
    (Q : Outcome A -> World -> Prop) :
  wp m w Q -> m w = (o, w') -> Q o w'.
Proof. unfold wp. intros H E. rewrite E in H. exact H. Qed.

Lemma wp_ret {A : Type} (a : A) (w : World) (Q : Outcome A -> World -> Prop) :
  Q (Returned a) w -> wp (mret a) w Q.
Proof. exact (fun H => H). Qed.

Lemma wp_throw {A : Type} (e : string) (w : World)
    (Q : Outcome A -> World -> Prop) :
  Q (Thrown e) w -> wp (throw e) w Q.
Proof. exact (fun H => H). Qed.

Lemma wp_bind {A B : Type} (m : M A) (f : A -> M B) (w : World)
    (Q : Outcome B -> World -> Prop) :
  wp m w (fun o w1 =>
            match o with
            | Returned a => wp (f a) w1 Q
            | Thrown e => Q (Thrown e) w1
            end) ->
  wp (m ≫= f) w Q.
Proof.
  unfold wp, mbind, M_bind. destruct (m w) as [[a|e] w1]; exact (fun H => H).
Qed.

Lemma wp_fmap {A B : Type} (m : M A) (f : A -> B) (w : World)
    (Q : Outcome B -> World -> Prop) :
  wp m w (fun o w1 =>
            match o with
            | Returned a => Q (Returned (f a)) w1
            | Thrown e => Q (Thrown e) w1
            end) ->
  wp (f <$> m) w Q.
Proof.
  unfold wp, fmap, M_fmap. destruct (m w) as [[a|e] w1]; exact (fun H => H).
Qed.

Lemma wp_tryCatch {A : Type} (body : M A) (handler : string -> M A)
    (w : World) (Q : Outcome A -> World -> Prop) :
  wp body w (fun o w1 =>
               match o with
               | Returned a => Q (Returned a) w1
               | Thrown e => wp (handler e) w1 Q
               end) ->
  wp (tryCatch body handler) w Q.
Proof.
  unfold wp, tryCatch. destruct (body w) as [[a|e] w1]; exact (fun H => H).
Qed.

Lemma wp_modify (f : World -> World) (w : World)
    (Q : Outcome unit -> World -> Prop) :
  Q (Returned tt) (f w) -> wp (modify f) w Q.
Proof. exact (fun H => H). Qed.

Lemma wp_inspect {A : Type} (f : World -> A) (w : World)
    (Q : Outcome A -> World -> Prop) :
  Q (Returned (f w)) w -> wp (inspect f) w Q.
Proof. exact (fun H => H). Qed.

Lemma quiet_refl (w : World) : quiet w w.
Proof. split; [|split]; [reflexivity | reflexivity | lia]. Qed.

Lemma quiet_trans (w1 w2 w3 : World) : quiet w1 w2 -> quiet w2 w3 -> quiet w1 w3.
Proof.
  intros (D1 & V1 & T1) (D2 & V2 & T2).
  split; [|split]; [congruence | congruence | lia].
Qed.

Lemma ticks_advance (n : nat) (w : World) : ticks (advance n w) = (n + ticks w)%nat.
Proof. induction n as [|n IH]; [reflexivity|]. cbn. rewrite <- IH. reflexivity. Qed.

Lemma advance_tick (n : nat) (w : World) : advance n (tick w) = advance (S n) w.
Proof. induction n as [|n IH]; [reflexivity|]. cbn. f_equal. exact IH. Qed.

Lemma quiet_advance (n : nat) (w : World) : quiet w (advance n w).
Proof.
  split; [|split]; [| |rewrite ticks_advance; lia];
    (induction n as [|n IH]; [reflexivity | exact IH]).
Qed.

(** ** The steps of the script *)

Section Steps.

Context (env : Env) `{!LogWritable env}.

Lemma nowISO_eq (w : World) :
  nowISO env w = (Returned (startOf env w), tick w).
Proof. unfold nowISO, startOf, fmap, M_fmap, newDate. reflexivity. Qed.

Lemma wp_nowISO (w : World) (Q : Outcome string -> World -> Prop) :
  Q (Returned (startOf env w)) (tick w) -> wp (nowISO env) w Q.
Proof. exact (fun H => H). Qed.

Lemma writeLog_eq (message : string) (w : World) :
  writeLog env message w
  = (Returned tt,
     withLogs
       (logs w ++ [ {| logFile := JSDate.beforeT (startOf env (tick w));
                       logStamp := startOf env w;
                       logMessage := message |} ])
       (tick (tick w))).
Proof.
  unfold writeLog. rewrite (log_writable : logFault env = None).
  unfold mbind, M_bind. rewrite !nowISO_eq. reflexivity.
Qed.

(** With a log that cannot be written, [writeLog] throws and leaves
    everything but the clock as it is. *)
Lemma writeLog_fault (fault : LogFault) (message : string) (w : World) :
  logFault env = Some fault ->
  exists w',
    writeLog env message w = (Thrown (logError fault), w')
    /\ quiet w w' /\ logs w' = logs w.
Proof.
  intros Hf. unfold writeLog. rewrite Hf.
  unfold mbind, M_bind. rewrite nowISO_eq.
  destruct fault as [error|error]; cbn [throw logError].
  - eexists. split; [reflexivity|].
    split; [|reflexivity].
    split; [|split]; cbn; [reflexivity | reflexivity | lia].
  - cbn [mret M_ret]. rewrite nowISO_eq.
    eexists. split; [reflexivity|].
    split; [|reflexivity].
    split; [|split]; cbn; [reflexivity | reflexivity | lia].
Qed.

Lemma wp_writeLog (message : string) (w : World)
    (Q : Outcome unit -> World -> Prop) :
  (forall w1, quiet w w1 -> (ticks w < ticks w1)%nat -> Q (Returned tt) w1) ->
  wp (writeLog env message) w Q.
Proof.
  intros H. unfold wp. rewrite writeLog_eq. cbn [fst snd].
  apply H; [|cbn; lia].
  split; [|split]; cbn; [reflexivity | reflexivity | lia].
Qed.

Lemma wp_readJSON {A : Type} (filePath : Path A) (w : World)
    (Q : Outcome A -> World -> Prop) :
  Q match stored (fileAt filePath (disk w)) with
    | Parsed data => Returned data
    | Unreadable error => Thrown error
    end w ->
  wp (readJSON filePath) w Q.
Proof.
  unfold wp, readJSON, tryCatch, throw.
  destruct (stored (fileAt filePath (disk w))); exact (fun H => H).
Qed.

Lemma wp_writeJSON {A : Type} (filePath : Path A) (data : A) (w : World)
    (Q : Outcome unit -> World -> Prop) :
  match writeFault (fileAt filePath (disk w)) with
  | None =>
      Q (Returned tt)
        (withDisk (putFile filePath (fileOf data) (disk w)) w)
  | Some (FailsAtOpen error) => Q (Thrown error) w
  | Some (FailsAtWrite error damage) =>
      Q (Thrown error)
        (withDisk
           (putFile filePath
              {| stored := Unreadable damage;
                 writeFault := Some (FailsAtWrite error damage) |}
              (disk w)) w)
  end ->
  wp (writeJSON filePath data) w Q.
Proof.
  unfold wp, writeJSON, tryCatch, throw.
  destruct (writeFault (fileAt filePath (disk w))) as [[error|error damage]|];
    exact (fun H => H).
Qed.

Lemma wp_fetchSymbols (ex : Exchange) (w : World)
    (Q : Outcome Fetched -> World -> Prop) :
  (forall w1, quiet w w1 -> (ticks w < ticks w1)%nat ->
     Q match network env ex with
       | Listed symbols => Returned (Strings symbols)
       | Failed error => Thrown error
       | Mixed before error _ => Returned (Other before error)
       end w1) ->
  wp (fetchSymbols env ex) w Q.
Proof.
  intros H. unfold fetchSymbols.
  apply wp_tryCatch, wp_bind, wp_writeLog. intros w1 Q1 T1.
  destruct (network env ex) as [symbols|error|before error rest].
  - apply wp_bind, wp_writeLog. intros w2 Q2 T2. apply wp_ret.
    apply H; [exact (quiet_trans _ _ _ Q1 Q2) | lia].
  - apply wp_throw, wp_bind, wp_writeLog. intros w2 Q2 T2. apply wp_throw.
    apply H; [exact (quiet_trans _ _ _ Q1 Q2) | lia].
  - apply wp_bind, wp_writeLog. intros w2 Q2 T2. apply wp_ret.
    apply H; [exact (quiet_trans _ _ _ Q1 Q2) | lia].
Qed.

Lemma wp_fetcherOf (ex : Exchange) (w : World)
    (Q : Outcome Fetched -> World -> Prop) :
  (forall w1, quiet w w1 -> (ticks w < ticks w1)%nat ->
     Q match network env ex with
       | Listed symbols => Returned (Strings symbols)
       | Failed error => Thrown error
       | Mixed before error _ => Returned (Other before error)
       end w1) ->
  wp (fetcherOf env ex) w Q.
Proof. destruct ex; apply wp_fetchSymbols. Qed.

Lemma has_isNew (oldSymbols : list string) (s : string) :
  negb (bool_decide
          (normalizeSymbol s
           ∈ (list_to_set (normalizeSymbol <$> oldSymbols) : gset string)))
  = isNew oldSymbols s.
Proof.
  unfold isNew. rewrite <- bool_decide_not.
  apply bool_decide_ext. rewrite elem_of_list_to_set. reflexivity.
Qed.

Lemma detectLoop_eq (oldSymbols : list string) (name : string)
    (newSymbols : list string) (acc : list NewListing) (w : World) :
  detectLoop env (list_to_set (normalizeSymbol <$> oldSymbols)) name
    newSymbols acc w
  = (Returned (acc ++ detected env oldSymbols name newSymbols (ticks w)),
     advance (length (detected env oldSymbols name newSymbols (ticks w))) w).
Proof.
  revert acc w.
  induction newSymbols as [|s rest IH]; intros acc w.
  - cbn. rewrite app_nil_r. reflexivity.
  - cbn [detectLoop detected]. rewrite has_isNew.
    destruct (isNew oldSymbols s).
    + unfold mbind, M_bind. rewrite nowISO_eq, IH.
      cbn [ticks tick length]. rewrite advance_tick, <- app_assoc.
      reflexivity.
    + apply IH.
Qed.

Lemma detectNewListings_eq (oldSymbols newSymbols : list string)
    (name : string) (w : World) :
  detectNewListings env oldSymbols newSymbols name w
  = (Returned (detected env oldSymbols name newSymbols (ticks w)),
     advance (length (detected env oldSymbols name newSymbols (ticks w))) w).
Proof. unfold detectNewListings. apply detectLoop_eq. Qed.

Lemma wp_detectNewListings (oldSymbols newSymbols : list string)
    (name : string) (w : World)
    (Q : Outcome (list NewListing) -> World -> Prop) :
  (forall w1, quiet w w1 ->
     Q (Returned (detected env oldSymbols name newSymbols (ticks w))) w1) ->
  wp (detectNewListings env oldSymbols newSymbols name) w Q.
Proof.
  intros H. unfold wp. rewrite detectNewListings_eq. cbn [fst snd].
  apply H, quiet_advance.
Qed.

(** On a host that keeps one offset the cutoff lies [RETENTION_DAYS]
    days of 86 400 000 ms before the reading of the clock. *)
Lemma cutoffOf_fixed (now : Z) :
  fixedOffset env ->
  cutoffOf env now = now - RETENTION_DAYS * JSDate.msPerDay.
Proof.
  intros [offset Hfix]. unfold cutoffOf.
  exact (JSDateFacts.setDate_getDate _ offset now RETENTION_DAYS Hfix).
Qed.

Lemma notBefore_withinWindow (now : Z) (listing : NewListing) :
  fixedOffset env ->
  notBefore env (cutoffOf env now) listing = withinWindow env now listing.
Proof.
  intros Hfix. unfold notBefore, withinWindow.
  rewrite (cutoffOf_fixed now Hfix). reflexivity.
Qed.

Lemma cleanOldListings_eq (listings : list NewListing) (w : World) :
  cleanOldListings env listings w
  = (Returned
       (List.filter (notBefore env (cutoffOf env (clock env (ticks w))))
          listings),
     tick w).
Proof.
  unfold cleanOldListings, cutoffOf, mbind, M_bind, newDate, mret, M_ret,
    inspect.
  reflexivity.
Qed.

Lemma cleanOldListings_fixed (listings : list NewListing) (w : World) :
  fixedOffset env ->
  cleanOldListings env listings w
  = (Returned (List.filter (withinWindow env (clock env (ticks w))) listings),
     tick w).
Proof.
  intros Hfix. rewrite cleanOldListings_eq.
  f_equal. f_equal. apply filter_ext. intros l.
  apply notBefore_withinWindow, Hfix.
Qed.

End Steps.

Arguments writeLog_eq {env _} message w.
Arguments wp_writeLog {env _} message w Q _.
Arguments wp_fetchSymbols {env _} ex w Q _.
Arguments wp_fetcherOf {env _} ex w Q _.

(** ** One exchange *)

Section OneExchange.

Context (env : Env) `{!LogWritable env}.

Lemma wp_updateExchange (old : ExchangeListings) (ex : Exchange) (w : World)
    (Q : Outcome unit -> World -> Prop) :
  (forall w1 found,
      disk w1 = disk w ->
      (ticks w < ticks w1)%nat ->
      vars w1
      = {| var_errors := var_errors (vars w) ++ failureOf env ex;
           var_results :=
             <[exchangeKey ex := carried env (exchanges old) ex]>
               (var_results (vars w));
           var_allNewListings := var_allNewListings (vars w) ++ found |} ->
      Q (Returned tt) w1) ->
  wp (updateExchange env old ex) w Q.
Proof.
  unfold updateExchange, failureOf, carried. intros H.
  apply wp_tryCatch, wp_bind, wp_fetcherOf. intros w1 (D1 & V1 & _) T1.
  revert H. destruct (network env ex) as [symbols|error|before error rest];
    intros H.
  - apply wp_bind, wp_modify, wp_bind, wp_detectNewListings.
    intros w2 (D2 & V2 & T2).
    apply wp_bind, wp_modify.
    set (found := detected env _ _ _ _).
    destruct (bool_decide (0 < length found)%nat).
    + apply wp_writeLog. intros w3 (D3 & V3 & T3) _.
      apply (H _ found).
      * rewrite D3. cbn. rewrite D2. exact D1.
      * cbn in T2, T3. lia.
      * rewrite V3. cbn. rewrite V2. cbn. rewrite V1, app_nil_r. reflexivity.
    + apply wp_ret. apply (H _ found).
      * cbn. rewrite D2. exact D1.
      * cbn in T2 |- *. lia.
      * cbn. rewrite V2. cbn. rewrite V1, app_nil_r. reflexivity.
  - apply wp_bind, wp_modify, wp_modify.
    apply (H _ []); cbn.
    + exact D1.
    + exact T1.
    + rewrite V1, app_nil_r. reflexivity.
  - apply wp_bind, wp_detectNewListings. intros w2 (D2 & V2 & T2).
    apply wp_throw, wp_bind, wp_modify, wp_modify.
    apply (H _ []); cbn.
    + rewrite D2. exact D1.
    + lia.
    + rewrite V2, V1, app_nil_r. reflexivity.
Qed.

End OneExchange.

Arguments wp_updateExchange {env _} old ex w Q _.

(** ** A whole run *)

Section Run.

Context (env : Env) `{!LogWritable env}.

Lemma wp_cleanOldListings (listings : list NewListing) (w : World)
    (Q : Outcome (list NewListing) -> World -> Prop) :
  Q (Returned
       (List.filter (notBefore env (cutoffOf env (clock env (ticks w))))
          listings))
    (tick w) ->
  wp (cleanOldListings env listings) w Q.
Proof. unfold wp. rewrite cleanOldListings_eq. exact (fun H => H). Qed.

Lemma wp_onFailure (start error : string) (wh : World)
    (Q : Outcome unit -> World -> Prop) :
  (forall e' w1,
      cexListingsFile (disk w1) = cexListingsFile (disk wh) ->
      newListingsFile (disk w1) = newListingsFile (disk wh) ->
      vars w1 = vars wh ->
      (forall before,
          stored (statusFile (disk wh)) = Parsed before ->
          writeFault (statusFile (disk wh)) = None ->
          e' = error
          /\ stored (statusFile (disk w1))
             = Parsed {| lastRun := Some start;
                         lastSuccessfulRun := lastSuccessfulRun before;
                         status := failed;
                         errors := ["Critical: " +:+ error] |}) ->
      Q (Thrown e') w1) ->
  wp (writeLog env ("✗ Critical error: " +:+ error);;
      lastSuccessful ← lastSuccessfulRun <$> readJSON FILES_status;
      writeJSON FILES_status
        {| lastRun := Some start;
           lastSuccessfulRun := lastSuccessful;
           status := failed;
           errors := ["Critical: " +:+ error] |};;
      throw error) wh Q.
Proof.
  intros H.
  apply wp_bind, wp_writeLog. intros w1 (D1 & V1 & T1) _.
  apply wp_bind, wp_fmap, wp_readJSON. cbn [fileAt FILES_status].
  rewrite D1.
  destruct (stored (statusFile (disk wh))) as [before|e2] eqn:Es.
  - apply wp_bind, wp_writeJSON. cbn [fileAt FILES_status]. rewrite D1.
    destruct (writeFault (statusFile (disk wh))) as [[e3|e3 damage]|] eqn:Ef.
    + apply H; [congruence | congruence | congruence | discriminate].
    + apply H; cbn; [congruence | congruence | congruence | discriminate].
    + apply wp_throw, H; cbn; [congruence | congruence | congruence |].
      intros before' [= <-] _. split; reflexivity.
  - apply H; [congruence | congruence | congruence | discriminate].
Qed.

Ltac exchange_step D V T :=
  apply wp_bind, wp_updateExchange;
  let w' := fresh "w" in
  let found := fresh "found" in
  let D' := fresh "D" in
  let V' := fresh "V" in
  let T' := fresh "T" in
  intros w' found D' T' V';
  rewrite D in D'; rewrite V in V';
  cbn [var_errors var_results var_allNewListings] in V';
  apply (Nat.lt_trans _ _ _ T) in T';
  clear D V T.

Lemma updateListings_wp (w : World) :
  wp (updateListings env) w (RunPost env w).
Proof.
  unfold updateListings.
  apply wp_bind, wp_nowISO, wp_bind, wp_modify.
  apply wp_bind, wp_writeLog. intros w1 (D1 & V1 & T1) _.
  apply wp_bind, wp_writeLog. intros w2 (D2 & V2 & T2) _.
  apply wp_bind, wp_writeLog. intros w3 (D3 & V3 & T3) _.
  cbn in D1, V1, T1.
  rewrite D2, D1 in D3. rewrite V2, V1 in V3.
  assert (T : (ticks w < ticks w3)%nat) by lia.
  clear D1 D2 V1 V2 T1 T2 T3 w1 w2.
  apply wp_tryCatch.
  match goal with
  | |- wp _ _ (fun o w1 => match o with
                           | Returned a => _
                           | Thrown e => wp (@?h e) w1 _
                           end) =>
      assert (Hh : forall error wh,
                 (statusFile (disk wh) = statusFile (disk w)
                  \/ writeFault (statusFile (disk w)) <> None) ->
                 ~ healthy env w ->
                 (forall e, loadFails w e ->
                    e = error
                    /\ cexListingsFile (disk wh) = cexListingsFile (disk w)
                    /\ newListingsFile (disk wh) = newListingsFile (disk w)) ->
                 Snapshotted env w wh ->
                 wp (h error) wh (RunPost env w))
  end.
  { intros error wh Hs Hill Hload Hsn. cbv beta.
    apply wp_onFailure. intros e' w1 Hc1 Hn1 Hv1 Hst.
    split; [discriminate|]. split; [|split; [|split]].
    - intros e before [= ->] Eb Ef.
      destruct Hs as [Hs | Hs]; [|congruence]. rewrite Hs in Hst.
      destruct (Hst before Eb Ef) as [-> Hd].
      exact Hd.
    - intros e He. destruct (Hload e He) as (-> & Hc & Hn).
      split; [congruence|]. split; [congruence|]. split; [eauto|].
      intros before Eb Ef.
      destruct Hs as [Hs | Hs]; [|congruence]. rewrite Hs in Hst.
      destruct (Hst before Eb Ef) as [-> _].
      reflexivity.
    - intros Hw. contradiction.
    - intros old prior Ho Hp Hw. rewrite Hc1, Hv1.
      exact (Hsn old prior Ho Hp Hw). }
  apply wp_bind, wp_readJSON. cbn [fileAt FILES_cexListings]. rewrite D3.
  destruct (stored (cexListingsFile (disk w))) as [old|e] eqn:Ecex; cycle 1.
  { apply Hh.
    - left. congruence.
    - intros (_ & (old & Ho) & _). congruence.
    - intros e0 [He0 | ((old & Ho) & _)]; [|congruence].
      split; [congruence|]. split; congruence.
    - intros old prior Ho _ _. congruence. }
  apply wp_bind, wp_readJSON. cbn [fileAt FILES_newListings]. rewrite D3.
  destruct (stored (newListingsFile (disk w))) as [prior|e] eqn:Enew; cycle 1.
  { apply Hh.
    - left. congruence.
    - intros (_ & _ & (prior & Hp) & _). congruence.
    - intros e0 [He0 | (_ & He0)]; [congruence|].
      split; [congruence|]. split; congruence.
    - intros old0 prior _ Hp _. congruence. }
  assert (Hnoload : forall error wh e0, loadFails w e0 ->
            e0 = error
            /\ cexListingsFile (disk wh) = cexListingsFile (disk w)
            /\ newListingsFile (disk wh) = newListingsFile (disk w)).
  { intros error wh e0 [He0 | (_ & He0)]; congruence. }
  apply wp_bind, wp_modify, wp_bind, wp_modify.
  set (w4 := withAllNewListings [] (withResults ∅ w3)).
  assert (D4 : disk w4 = disk w) by exact D3.
  assert (V4 : vars w4 = freshVars) by (subst w4; cbn; rewrite V3; reflexivity).
  assert (T4 : (ticks w < ticks w4)%nat) by exact T.
  clearbody w4. clear D3 V3 T w3.
  exchange_step D4 V4 T4.
  exchange_step D V T.
  exchange_step D0 V0 T0.
  exchange_step D V T.
  exchange_step D0 V0 T0.
  exchange_step D V T.
  assert (Herr : var_errors (vars w6) = failures env).
  { rewrite V0. unfold failures.
    cbn [var_errors freshVars EXCHANGES fmap list_fmap concat app].
    rewrite app_nil_r, <- !app_assoc. reflexivity. }
  assert (Hres : forall ex,
             orEmpty (var_results (vars w6) !! exchangeKey ex)
             = carried env (exchanges old) ex).
  { intros ex. rewrite V0. cbn [var_results freshVars].
    destruct ex; cbn [exchangeKey]; simplify_map_eq; reflexivity. }
  assert (Hall : exists found', var_allNewListings (vars w6) = found').
  { eauto. }
  destruct Hall as [found' Hall].
  clear V0.
  apply wp_bind, wp_inspect, wp_bind, wp_nowISO, wp_bind, wp_writeJSON.
  cbn [fileAt FILES_cexListings disk tick]. rewrite D0.
  destruct (writeFault (cexListingsFile (disk w))) as [[e|e damage]|] eqn:Wcex.
  { apply Hh; [left; cbn; congruence | | apply Hnoload |].
    - intros (_ & _ & _ & Wc & _). congruence.
    - intros old0 prior0 _ _ Hw. congruence. }
  { apply Hh; [left; cbn; congruence | | |].
    - intros (_ & _ & _ & Wc & _). congruence.
    - intros e0 [He0 | (_ & He0)]; congruence.
    - intros old0 prior0 _ _ Hw. congruence. }
  set (snapshot := {| lastUpdated := _; exchanges := _ |}).
  assert (Hsnap : forall ex, exchangeSymbols ex (exchanges snapshot)
                             = carried env (exchanges old) ex).
  { intros ex. rewrite <- Hres. destruct ex; reflexivity. }
  assert (HS : forall wh,
             stored (cexListingsFile (disk wh)) = Parsed snapshot
             /\ var_errors (vars wh) = failures env ->
             Snapshotted env w wh).
  { intros wh [Hwh Hvh] old0 prior0 Ho _ _. exists snapshot.
    split; [exact Hwh|]. rewrite Ecex in Ho. injection Ho as <-.
    split; [exact Hsnap | exact Hvh]. }
  clearbody snapshot. clear Hres.
  apply wp_bind, wp_inspect, wp_bind, wp_cleanOldListings.
  apply wp_bind, wp_nowISO, wp_bind, wp_writeJSON.
  cbn [fileAt FILES_newListings FILES_cexListings putFile disk tick withDisk
       newListingsFile].
  destruct (writeFault (newListingsFile (disk w))) as [[e|e damage]|] eqn:Wnew.
  { apply Hh;
      [left; cbn; congruence | | apply Hnoload
      | apply HS; split; [reflexivity | exact Herr]].
    intros (_ & _ & _ & _ & Wn & _). congruence. }
  { apply Hh;
      [left; cbn; congruence | |
      | apply HS; split; [reflexivity | exact Herr]].
    - intros (_ & _ & _ & _ & Wn & _). congruence.
    - intros e0 [He0 | (_ & He0)]; congruence. }
  apply wp_bind, wp_inspect.
  cbn [vars tick withDisk]. rewrite Herr.
  set (k := ticks (withDisk _ (tick w6))).
  set (log := {| lastChecked := _; listings := _ |}).
  match goal with |- wp _ ?wx _ => set (wB := wx) end.
  assert (HBc : stored (cexListingsFile (disk wB)) = Parsed snapshot)
    by reflexivity.
  assert (HBn : stored (newListingsFile (disk wB)) = Parsed log)
    by reflexivity.
  assert (HBs : statusFile (disk wB) = statusFile (disk w)) by reflexivity.
  assert (HBk : (ticks w <= k < ticks wB)%nat) by (subst k wB; cbn; lia).
  assert (HBv : var_errors (vars wB) = failures env) by exact Herr.
  assert (Hlist : listings log
                  = List.filter (notBefore env (cutoffOf env (clock env k)))
                      (listings prior ++ found')).
  { subst log. cbn [listings]. rewrite Hall. reflexivity. }
  clearbody wB k log. clear Hall Herr D0 T0.
  match goal with
  | |- wp (_ ≫= ?rest) _ ?Q =>
      assert (Hrest : forall last wC,
                 disk wC = disk wB -> (ticks wB <= ticks wC)%nat ->
                 vars wC = vars wB ->
                 (failures env = [] -> last = Some (startOf env w)) ->
                 (failures env <> [] ->
                    exists before,
                      stored (statusFile (disk w)) = Parsed before
                      /\ last = lastSuccessfulRun before) ->
                 wp (rest last) wC Q)
  end.
  { intros last wC DC TC VC Hnone Hsome. cbv beta.
    apply wp_bind, wp_writeJSON. cbn [fileAt FILES_status].
    rewrite DC, HBs.
    destruct (writeFault (statusFile (disk w))) as [[e|e damage]|] eqn:Wst.
    { apply Hh;
        [left; congruence | | apply Hnoload
        | apply HS; split; congruence].
      intros (_ & _ & _ & _ & _ & Ws & _). congruence. }
    { apply Hh;
        [right; congruence | |
        | apply HS; split;
          [cbn; exact HBc | cbn [vars withDisk]; rewrite VC; exact HBv]].
      - intros (_ & _ & _ & _ & _ & Ws & _). congruence.
      - intros e0 [He0 | (_ & He0)]; congruence. }
    set (report := {| lastRun := _ |}).
    assert (Hdone : forall w',
               quiet (withDisk (putFile FILES_status (fileOf report) (disk wB))
                        wC) w' ->
               RunPost env w (Returned tt) w').
    { intros w' (D' & V' & T'). cbn in D', V', T'.
      assert (Hv' : var_errors (vars w') = failures env) by congruence.
      split; [|split; [|split; [|split]]].
      - intros _. exists old, prior, snapshot, log, report, k, found'.
        rewrite D'. cbn.
        split; [exact Ecex|]. split; [exact Enew|].
        split; [exact HBc|]. split; [exact HBn|]. split; [reflexivity|].
        split; [exact Hsnap|]. split; [lia|]. split; [exact Hlist|].
        split; [reflexivity|]. split; [reflexivity|]. split; [reflexivity|].
        split; [exact Hnone|]. split; [exact Hsome | exact Hv'].
      - discriminate.
      - intros e He. destruct (Hnoload e w' e He) as (_ & _ & _).
        destruct He as [He | (_ & He)]; congruence.
      - reflexivity.
      - apply HS. rewrite D'. split; [exact HBc | exact Hv']. }
    apply wp_bind, wp_writeLog. intros w7 Q7 _.
    apply wp_bind, wp_writeLog. intros w8 Q8 _.
    apply wp_bind.
    destruct (bool_decide (0 < length (failures env))%nat).
    - apply wp_writeLog. intros w9 Q9 _.
      apply wp_writeLog. intros w10 Q10 _.
      apply Hdone. eauto using quiet_trans.
    - apply wp_ret, wp_writeLog. intros w9 Q9 _.
      apply Hdone. eauto using quiet_trans. }
  apply wp_bind.
  destruct (decide (length (failures env) = 0%nat)) as [Hlen|Hlen];
    [rewrite (bool_decide_eq_true_2 _ Hlen)
    |rewrite (bool_decide_eq_false_2 _ Hlen)].
  - apply wp_ret, Hrest; [reflexivity | lia | reflexivity | |].
    + intros _. reflexivity.
    + intros Hne. destruct (failures env); [congruence | discriminate].
  - apply wp_fmap, wp_readJSON. cbn [fileAt FILES_status]. rewrite HBs.
    destruct (stored (statusFile (disk w))) as [before|e] eqn:Est.
    + apply Hrest; [reflexivity | lia | reflexivity | |].
      * intros Hnil. rewrite Hnil in Hlen. cbn in Hlen; congruence.
      * intros _. exists before. split; reflexivity.
    + apply Hh;
        [left; exact HBs | | apply Hnoload
        | apply HS; split; [exact HBc | exact HBv]].
      intros (_ & _ & _ & _ & _ & _ & [Hnil | (before & Hb)]).
      * rewrite Hnil in Hlen. cbn in Hlen. congruence.
      * congruence.
Qed.

(** With a log that cannot be written the run ends at its first line,
    in front of the [try]: nothing has been read or written. *)
Lemma updateListings_mute (fault : LogFault) (w : World) :
  logFault env = Some fault ->
  exists w',
    updateListings env w = (Thrown (logError fault), w')
    /\ disk w' = disk w /\ logs w' = logs w
    /\ var_errors (vars w') = []
    /\ (ticks w < ticks w')%nat.
Proof.
  intros Hf. unfold updateListings.
  unfold mbind at 1, M_bind at 1. rewrite nowISO_eq.
  unfold mbind at 1, M_bind at 1. unfold modify at 1.
  unfold mbind at 1, M_bind at 1.
  match goal with
  | |- context [writeLog env ?m ?w0] =>
      destruct (writeLog_fault env fault m w0 Hf) as (w' & E & (D & V & T) & L)
  end.
  rewrite E. exists w'. split; [reflexivity|].
  split; [exact D|]. split; [exact L|].
  split; [rewrite V; reflexivity|]. cbn in T. lia.
Qed.
End Run.

Arguments wp_onFailure {env _} start error wh Q _.
Arguments updateListings_wp {env _} w.

Lemma run_wp (env : Env) (w : World) :
  logFault env = None ->
  RunPost env w (updateListings env w).1 (updateListings env w).2.
Proof. intros Hlog. exact (@updateListings_wp env Hlog w). Qed.

Lemma run_returned_logged (env : Env) (w w' : World) :
  updateListings env w = (Returned tt, w') -> logFault env = None.
Proof.
  intros E. destruct (logFault env) as [fault|] eqn:Hlog; [|reflexivity].
  destruct (updateListings_mute env fault w Hlog) as (w1 & E1 & _).
  congruence.
Qed.

Lemma run_returned (env : Env) (w w' : World) :
  updateListings env w = (Returned tt, w') -> Committed env w w'.
Proof.
  intros E. pose proof (run_wp env w (run_returned_logged env w w' E)) as H.
  rewrite E in H. destruct H as (H & _). exact (H eq_refl).
Qed.

Lemma run_thrown (env : Env) (w w' : World) (e : string) (before : StatusData) :
  logFault env = None ->
  updateListings env w = (Thrown e, w') ->
  stored (statusFile (disk w)) = Parsed before ->
  writeFault (statusFile (disk w)) = None ->
  stored (statusFile (disk w')) = Parsed (fatalStatus env w before e).
Proof.
  intros Hlog E. pose proof (run_wp env w Hlog) as H.
  rewrite E in H. destruct H as (_ & H & _).
  exact (H e before eq_refl).
Qed.

Lemma run_loadFails (env : Env) (w : World) (e : string) (before : StatusData) :
  logFault env = None ->
  loadFails w e ->
  stored (statusFile (disk w)) = Parsed before ->
  writeFault (statusFile (disk w)) = None ->
  exists w',
    updateListings env w = (Thrown e, w')
    /\ cexListingsFile (disk w') = cexListingsFile (disk w)
    /\ newListingsFile (disk w') = newListingsFile (disk w).
Proof.
  intros Hlog Hload Hs Hf.
  pose proof (run_wp env w Hlog) as H.
  destruct (updateListings env w) as [o w'] eqn:E.
  destruct H as (_ & _ & H & _).
  destruct (H e Hload) as (Hc & Hn & _ & Ho).
  exists w'. cbn [fst snd] in *. rewrite (Ho before Hs Hf). auto.
Qed.

Lemma run_healthy (env : Env) (w : World) :
  healthy env w -> exists w', updateListings env w = (Returned tt, w').
Proof.
  intros Hw. pose proof (run_wp env w (proj1 Hw)) as H.
  destruct (updateListings env w) as [o w'] eqn:E.
  destruct H as (_ & _ & _ & H & _).
  exists w'. cbn [fst snd] in *. rewrite (H Hw). reflexivity.
Qed.

Lemma run_snapshot (env : Env) (w : World) (old : ExchangeListings)
    (prior : NewListingsData) :
  logFault env = None ->
  stored (cexListingsFile (disk w)) = Parsed old ->
  stored (newListingsFile (disk w)) = Parsed prior ->
  writeFault (cexListingsFile (disk w)) = None ->
  exists snapshot,
    stored (cexListingsFile (disk (updateListings env w).2)) = Parsed snapshot
    /\ (forall ex, exchangeSymbols ex (exchanges snapshot)
                   = carried env (exchanges old) ex)
    /\ var_errors (vars (updateListings env w).2) = failures env.
Proof.
  intros Hlog Ho Hp Hw.
  destruct (run_wp env w Hlog) as (_ & _ & _ & _ & H).
  exact (H old prior Ho Hp Hw).
Qed.

(** ** Counting the failures *)

Section Counting.

Context (env : Env).

Lemma length_failureOf (ex : Exchange) :
  length (failureOf env ex) = if blockFailed env ex then 1%nat else 0%nat.
Proof. unfold failureOf, blockFailed. destruct (network env ex); reflexivity. Qed.

Lemma length_failures :
  length (failures env) = length (List.filter (blockFailed env) EXCHANGES).
Proof.
  unfold failures, EXCHANGES.
  cbn [fmap list_fmap concat List.filter].
  rewrite !length_app, !length_failureOf.
  destruct (blockFailed env Binance), (blockFailed env Coinbase),
    (blockFailed env Bybit), (blockFailed env Upbit), (blockFailed env OKX),
    (blockFailed env Kraken); reflexivity.
Qed.

Lemma failures_at_most : (length (failures env) <= 6)%nat.
Proof.
  rewrite length_failures.
  exact (filter_length_le (blockFailed env) EXCHANGES).
Qed.

Lemma failures_all :
  length (failures env) = 6%nat <-> forall ex, blockFailed env ex = true.
Proof.
  rewrite length_failures. unfold EXCHANGES. cbn [List.filter]. split.
  - intros H ex.
    destruct (blockFailed env Binance) eqn:E1, (blockFailed env Coinbase) eqn:E2,
      (blockFailed env Bybit) eqn:E3, (blockFailed env Upbit) eqn:E4,
      (blockFailed env OKX) eqn:E5, (blockFailed env Kraken) eqn:E6;
      try discriminate H.
    destruct ex; assumption.
  - intros H. rewrite !H. reflexivity.
Qed.

Lemma failures_none :
  length (failures env) = 0%nat <-> forall ex, blockFailed env ex = false.
Proof.
  rewrite length_failures. unfold EXCHANGES. cbn [List.filter]. split.
  - intros H ex.
    destruct (blockFailed env Binance) eqn:E1, (blockFailed env Coinbase) eqn:E2,
      (blockFailed env Bybit) eqn:E3, (blockFailed env Upbit) eqn:E4,
      (blockFailed env OKX) eqn:E5, (blockFailed env Kraken) eqn:E6;
      try discriminate H.
    destruct ex; assumption.
  - intros H. rewrite !H. reflexivity.
Qed.

Lemma failureOf_failures (ex : Exchange) (error : string) :
  error ∈ failureOf env ex -> error ∈ failures env.
Proof.
  intros H. unfold failures. apply list_elem_of_In, in_concat.
  exists (failureOf env ex). split; [|apply list_elem_of_In, H].
  apply list_elem_of_In, list_elem_of_fmap. exists ex. split; [reflexivity|].
  destruct ex; unfold EXCHANGES; set_solver.
Qed.

(** The errors of the loop carry the names of the exchanges whose block
    failed, and of no other. *)
Lemma tagged_name (ex ex' : Exchange) (error : string) :
  tagged ex (exchangeName ex' +:+ ": " +:+ error) = bool_decide (ex = ex').
Proof.
  destruct ex, ex';
    first [ rewrite bool_decide_eq_true_2 by reflexivity
          | rewrite bool_decide_eq_false_2 by discriminate ];
    try reflexivity; destruct error; reflexivity.
Qed.

Lemma recorded_failureOf (ex ex' : Exchange) :
  existsb (tagged ex) (failureOf env ex')
  = blockFailed env ex' && bool_decide (ex = ex').
Proof.
  unfold failureOf, blockFailed.
  destruct (network env ex'); cbn [existsb andb];
    rewrite ?tagged_name, ?orb_false_r; reflexivity.
Qed.

Lemma recorded_failures (ex : Exchange) :
  recorded ex (failures env) = blockFailed env ex.
Proof.
  unfold recorded, failures, EXCHANGES. cbn [fmap list_fmap concat].
  rewrite !existsb_app, !recorded_failureOf. cbn [existsb].
  destruct ex;
    repeat match goal with
      | |- context [bool_decide (?a = ?b)] =>
          first [ rewrite (bool_decide_eq_true_2 (a = b)) by reflexivity
                | rewrite (bool_decide_eq_false_2 (a = b)) by discriminate ]
      end;
    rewrite ?andb_false_r, ?andb_true_r, ?orb_false_r; reflexivity.
Qed.

End Counting.

Lemma statusOf_cases (n : nat) :
  (n = 0%nat -> statusOf n = success)
  /\ ((1 <= n <= 5)%nat -> statusOf n = partial_success)
  /\ ((6 <= n)%nat -> statusOf n = failed).
Proof.
  unfold statusOf. split; [|split]; intros H; repeat case_bool_decide;
    first [reflexivity | lia].
Qed.

(** * The claims *)

(** C1, as stated, fails: a run in which the loop over the exchanges
    completes can still end in the handler of the whole run, which writes
    the status [failed] whatever the number of errors the loop has
    accumulated. Here the six exchanges answer, the loop accumulates no
    error and the new snapshot is written; the listing log cannot be
    written, and the status document the run leaves says [failed], with
    one error, where no error gives [success]. *)
Lemma status_tag_counterexample :
  exists error w' snapshot report,
    updateListings (hostWith allUp) (worldOf readOnlyLogDisk)
    = (Thrown error, w')
    /\ (forall ex, exists symbols, network (hostWith allUp) ex = Listed symbols)
    /\ var_errors (vars w') = []
    /\ statusOf (length (var_errors (vars w'))) = success
    /\ stored (cexListingsFile (disk w')) = Parsed snapshot
    /\ lastUpdated snapshot <> lastUpdated sampleSnapshot
    /\ stored (statusFile (disk w')) = Parsed report
    /\ status report = failed
    /\ errors report = ["Critical: " +:+ error].
Proof.
  eexists _, _, _, _. split; [vm_compute; reflexivity|].
  split; [intros ex; eexists; reflexivity|].
  split; [vm_compute; reflexivity|]. split; [vm_compute; reflexivity|].
  split; [vm_compute; reflexivity|]. split; [vm_compute; discriminate|].
  split; [vm_compute; reflexivity|]. split; vm_compute; reflexivity.
Qed.

(** C1, amended. In the status document written by a run that returns,
    the errors are the ones the loop over the exchanges has accumulated,
    at most six, and the status tag is a function of their number alone:
    [success] for none, [partial_success] for one to five, [failed] for
    six. A run that throws, on a host whose log can be written and with a
    status document that can be read and written, leaves the status
    [failed] with the one error of the handler, whatever the loop has
    accumulated. *)
Theorem status_tag_by_error_count (env : Env) (w : World) :
  (forall w',
      updateListings env w = (Returned tt, w') ->
      exists report,
        stored (statusFile (disk w')) = Parsed report
        /\ errors report = var_errors (vars w')
        /\ (length (errors report) <= 6)%nat
        /\ status report = statusOf (length (errors report))
        /\ (length (errors report) = 0%nat -> status report = success)
        /\ ((1 <= length (errors report) <= 5)%nat ->
            status report = partial_success)
        /\ (length (errors report) = 6%nat -> status report = failed))
  /\ (forall error w' before,
        logFault env = None ->
        stored (statusFile (disk w)) = Parsed before ->
        writeFault (statusFile (disk w)) = None ->
        updateListings env w = (Thrown error, w') ->
        exists report,
          stored (statusFile (disk w')) = Parsed report
          /\ status report = failed
          /\ errors report = ["Critical: " +:+ error]).
Proof.
  split.
  - intros w' E.
    destruct (run_returned env w w' E)
      as (old & prior & snapshot & log & report & k & found & _ & _ & _ & _
          & Hs & _ & _ & _ & _ & He & Ht & _ & _ & Hv).
    exists report. rewrite Hv, He, Ht.
    destruct (statusOf_cases (length (failures env))) as (H0 & H1 & H6).
    split; [exact Hs|]. split; [reflexivity|].
    split; [apply failures_at_most|].
    split; [reflexivity|]. split; [exact H0|]. split; [exact H1|].
    intros H; apply H6; lia.
  - intros error w' before Hlog Hs Hf E.
    eexists. split; [exact (run_thrown env w w' error before Hlog E Hs Hf)|].
    split; reflexivity.
Qed.

Lemma status_tag_by_error_count_witness :
  (exists w' report,
      updateListings (hostWith market) (worldOf sampleDisk) = (Returned tt, w')
      /\ stored (statusFile (disk w')) = Parsed report
      /\ status report = partial_success
      /\ length (errors report) = 2%nat)
  /\ exists w' report,
       updateListings (hostWith market) (worldOf brokenSnapshotDisk)
       = (Thrown "SyntaxError: Unexpected end of JSON input", w')
       /\ stored (statusFile (disk w')) = Parsed report
       /\ status report = failed
       /\ length (errors report) = 1%nat.
Proof.
  destruct (status_tag_by_error_count (hostWith market) (worldOf sampleDisk))
    as [Hreturned _].
  destruct (status_tag_by_error_count (hostWith market)
              (worldOf brokenSnapshotDisk))
    as [_ Hthrown].
  split.
  - destruct (Hreturned (updateListings (hostWith market)
                           (worldOf sampleDisk)).2)
      as (report & Hs & He & _ & Ht & _).
    + vm_compute. reflexivity.
    + eexists _, report. split; [vm_compute; reflexivity|].
      split; [exact Hs|]. rewrite Ht, He. vm_compute. split; reflexivity.
  - destruct (Hthrown "SyntaxError: Unexpected end of JSON input"
                (updateListings (hostWith market)
                   (worldOf brokenSnapshotDisk)).2 sampleStatus)
      as (report & Hs & Ht & He).
    + reflexivity.
    + reflexivity.
    + reflexivity.
    + vm_compute. reflexivity.
    + eexists _, report. split; [vm_compute; reflexivity|].
      split; [exact Hs|]. split; [exact Ht|]. rewrite He. reflexivity.
Defined.

(** C4, as stated, fails: with a fetch error the last successful run is
    copied forward, and the value copied may be the stamp of the current
    run. Here the prior status document already carries it, one fetch
    fails, and the field equals the start time with one error recorded. *)
Lemma last_successful_run_iff_counterexample :
  exists w' report,
    updateListings (hostWith oneDown) (worldOf sameInstantDisk)
    = (Returned tt, w')
    /\ stored (statusFile (disk w')) = Parsed report
    /\ ~ (lastSuccessfulRun report
          = Some (startOf (hostWith oneDown) (worldOf sameInstantDisk))
          <-> length (errors report) = 0%nat).
Proof.
  eexists _, _. split; [vm_compute; reflexivity|].
  split; [vm_compute; reflexivity|].
  intros [H _]. specialize (H eq_refl). discriminate H.
Qed.

(** C4, amended. In the status document written by a run that returns,
    [lastRun] is the start time of the run; [lastSuccessfulRun] is the
    start time when no fetch failed, and otherwise the value of the field
    in the status document found on disk. So the field equals the start
    time exactly when no fetch failed, unless the document found on disk
    already carried the start time of this run. *)
Theorem last_successful_run_carried_forward (env : Env) (w w' : World) :
  updateListings env w = (Returned tt, w') ->
  exists report,
    stored (statusFile (disk w')) = Parsed report
    /\ lastRun report = Some (startOf env w)
    /\ (length (errors report) = 0%nat ->
        lastSuccessfulRun report = Some (startOf env w))
    /\ (length (errors report) <> 0%nat ->
        exists before,
          stored (statusFile (disk w)) = Parsed before
          /\ lastSuccessfulRun report = lastSuccessfulRun before)
    /\ (forall before,
          stored (statusFile (disk w)) = Parsed before ->
          lastSuccessfulRun before <> Some (startOf env w) ->
          (lastSuccessfulRun report = Some (startOf env w)
           <-> length (errors report) = 0%nat)).
Proof.
  intros E.
  destruct (run_returned env w w' E)
    as (old & prior & snapshot & log & report & k & found & _ & _ & _ & _
        & Hs & _ & _ & _ & Hr & He & _ & Hnone & Hsome & _).
  exists report. rewrite He.
  assert (Hzero : length (failures env) = 0%nat -> failures env = []).
  { destruct (failures env); [reflexivity | discriminate]. }
  assert (Hpos : length (failures env) <> 0%nat -> failures env <> []).
  { intros Hl Hnil. rewrite Hnil in Hl. exact (Hl eq_refl). }
  split; [exact Hs|]. split; [exact Hr|].
  split; [intros Hl; apply Hnone, Hzero, Hl|].
  split; [intros Hl; apply Hsome, Hpos, Hl|].
  intros before Hb Hdiff. split.
  - intros Hlast.
    destruct (decide (length (failures env) = 0%nat)) as [Hl|Hl]; [exact Hl|].
    destruct (Hsome (Hpos Hl)) as (before' & Hb' & Hcopy).
    rewrite Hb in Hb'. injection Hb' as <-.
    rewrite Hcopy in Hlast. contradiction.
  - intros Hl. apply Hnone, Hzero, Hl.
Qed.

Lemma last_successful_run_carried_forward_witness :
  exists report,
    stored (statusFile (disk (updateListings (hostWith market)
                                (worldOf sampleDisk)).2)) = Parsed report
    /\ lastRun report = Some "2024-01-31T00:00:00.000Z"
    /\ lastSuccessfulRun report = Some "2024-01-29T00:00:00.000Z".
Proof.
  destruct (last_successful_run_carried_forward (hostWith market)
              (worldOf sampleDisk)
              (updateListings (hostWith market) (worldOf sampleDisk)).2)
    as (report & Hs & Hr & _ & Hc & _).
  - vm_compute. reflexivity.
  - exists report. split; [exact Hs|]. split; [exact Hr|].
    destruct Hc as (before & Hb & ->).
    + assert (Hd : Parsed report
                   = stored (statusFile (disk (updateListings (hostWith market)
                                                 (worldOf sampleDisk)).2)))
        by (symmetry; exact Hs).
      vm_compute in Hd. injection Hd as ->. discriminate.
    + injection Hb as <-. reflexivity.
Defined.

(** C5, as stated, fails: an exchange whose fetch succeeds does not
    always get the fetched list. Binance answers here with three pairs,
    the last with [symbol: null]; the fetcher logs three trading pairs and
    returns, no fetcher throws, and the differ then throws on the third,
    inside the same [try]. The snapshot keeps the prior list of Binance,
    one error is recorded and the status is [partial_success], with no
    failed fetch. *)
Lemma snapshot_counterexample :
  exists w' snapshot report line,
    updateListings (hostWith nullSymbol) (worldOf sampleDisk)
    = (Returned tt, w')
    /\ (forall ex, fetchFailed (hostWith nullSymbol) ex = false)
    /\ line ∈ logs w'
    /\ logMessage line = "✓ Binance: 3 trading pairs"
    /\ stored (cexListingsFile (disk w')) = Parsed snapshot
    /\ binance (exchanges snapshot) = binance (exchanges sampleSnapshot)
    /\ binance (exchanges snapshot) = ["BTCUSDT"]
    /\ stored (statusFile (disk w')) = Parsed report
    /\ status report = partial_success
    /\ errors report
       = ["Binance: TypeError: Cannot read properties of null (reading 'replace')"].
Proof.
  eexists _, _, _, _. split; [vm_compute; reflexivity|].
  split; [intros []; reflexivity|].
  split.
  { cbn [logs]. apply list_elem_of_further, list_elem_of_further,
      list_elem_of_further, list_elem_of_further, list_elem_of_here. }
  split; [reflexivity|]. split; [reflexivity|].
  split; [reflexivity|]. split; [reflexivity|].
  split; [reflexivity|]. split; reflexivity.
Qed.

(** C5, amended. On a host whose log can be written, a run that has
    loaded the prior snapshot and the prior listing log and can write the
    snapshot writes one that holds, for every exchange, the list of the
    prior snapshot when the block of the exchange has recorded an error,
    as it does when its fetch fails, and the fetched list when it has
    recorded none. When the listing log and the status document can be
    written too and, if an error is recorded, the prior status document
    can be read, the run returns and the status document carries the
    recorded errors; with two of them, or any number from one to five,
    its status is [partial_success]. *)
Theorem snapshot_keeps_failed_exchanges (env : Env) (w : World)
    (old : ExchangeListings) (prior : NewListingsData) :
  logFault env = None ->
  stored (cexListingsFile (disk w)) = Parsed old ->
  stored (newListingsFile (disk w)) = Parsed prior ->
  writeFault (cexListingsFile (disk w)) = None ->
  let w' := (updateListings env w).2 in
  let recordedErrors := var_errors (vars w') in
  exists snapshot,
    stored (cexListingsFile (disk w')) = Parsed snapshot
    /\ (forall ex error,
          network env ex = Failed error ->
          (exchangeName ex +:+ ": " +:+ error) ∈ recordedErrors
          /\ exchangeSymbols ex (exchanges snapshot)
             = exchangeSymbols ex (exchanges old))
    /\ (forall ex,
          recorded ex recordedErrors = true ->
          exchangeSymbols ex (exchanges snapshot)
          = exchangeSymbols ex (exchanges old))
    /\ (forall ex,
          recorded ex recordedErrors = false ->
          exists symbols,
            network env ex = Listed symbols
            /\ exchangeSymbols ex (exchanges snapshot) = symbols)
    /\ (length recordedErrors <= 6)%nat
    /\ (writeFault (newListingsFile (disk w)) = None ->
        writeFault (statusFile (disk w)) = None ->
        (recordedErrors = []
         \/ exists before, stored (statusFile (disk w)) = Parsed before) ->
        exists report,
          updateListings env w = (Returned tt, w')
          /\ stored (statusFile (disk w')) = Parsed report
          /\ errors report = recordedErrors
          /\ (length recordedErrors = 2%nat ->
              status report = partial_success
              /\ length (errors report) = 2%nat)
          /\ ((1 <= length recordedErrors <= 5)%nat ->
              status report = partial_success)).
Proof.
  intros Hlog Ho Hp Hw w' recordedErrors.
  destruct (run_snapshot env w old prior Hlog Ho Hp Hw)
    as (snapshot & Hc & Hsnap & Hv).
  fold w' in Hc, Hv. fold recordedErrors in Hv.
  exists snapshot. split; [exact Hc|].
  split; [|split; [|split; [|split]]].
  - intros ex error Hfail. split.
    + rewrite Hv. apply (failureOf_failures env ex).
      unfold failureOf. rewrite Hfail. apply list_elem_of_here.
    + rewrite Hsnap. unfold carried. rewrite Hfail. reflexivity.
  - intros ex. rewrite Hv, recorded_failures, Hsnap.
    unfold blockFailed, carried.
    destruct (network env ex); [discriminate | reflexivity | reflexivity].
  - intros ex. rewrite Hv, recorded_failures, Hsnap.
    unfold blockFailed, carried.
    destruct (network env ex) as [symbols| |]; [|discriminate|discriminate].
    intros _. exists symbols. split; reflexivity.
  - rewrite Hv. apply failures_at_most.
  - intros Hwn Hws Hst. rewrite Hv in Hst.
    destruct (run_healthy env w) as (w1 & E).
    { split; [exact Hlog|]. split; [eauto|]. split; [eauto|].
      split; [exact Hw|]. split; [exact Hwn|]. split; [exact Hws|].
      exact Hst. }
    assert (Hw1 : w1 = w') by (subst w'; rewrite E; reflexivity).
    subst w1.
    destruct (run_returned env w w' E)
      as (_ & _ & _ & _ & report & _ & _ & _ & _ & _ & _
          & Hs & _ & _ & _ & _ & He & Ht & _).
    exists report. rewrite Hv, He, Ht.
    destruct (statusOf_cases (length (failures env))) as (_ & H1 & _).
    split; [exact E|]. split; [exact Hs|]. split; [reflexivity|].
    split; [|exact H1].
    intros H2. split; [apply H1; lia | exact H2].
Qed.

Lemma snapshot_keeps_failed_exchanges_witness :
  exists snapshot report,
    stored (cexListingsFile (disk (updateListings (hostWith market)
                                     (worldOf sampleDisk)).2)) = Parsed snapshot
    /\ stored (statusFile (disk (updateListings (hostWith market)
                                   (worldOf sampleDisk)).2)) = Parsed report
    /\ exchanges snapshot
       = {| binance := ["BTCUSDT"; "ETHUSDT"]; coinbase := ["BTC-USD"];
            bybit := ["BTCUSDT"]; upbit := ["KRW-BTC"]; okx := ["BTC-USDT"];
            kraken := ["XXBTZUSD"] |}
    /\ status report = partial_success
    /\ length (errors report) = 2%nat.
Proof.
  destruct (snapshot_keeps_failed_exchanges (hostWith market)
              (worldOf sampleDisk) sampleSnapshot sampleLog
              eq_refl eq_refl eq_refl eq_refl)
    as (snapshot & Hc & _ & Hkept & Hnew & _ & Hrun).
  destruct Hrun as (report & _ & Hs & _ & H2 & _).
  - reflexivity.
  - reflexivity.
  - right. eexists. reflexivity.
  - exists snapshot, report.
    split; [exact Hc|]. split; [exact Hs|].
    split; [|apply H2; vm_compute; reflexivity].
    pose proof (Hkept Coinbase ltac:(vm_compute; reflexivity)) as Hcb.
    pose proof (Hkept OKX ltac:(vm_compute; reflexivity)) as Hx.
    destruct (Hnew Binance ltac:(vm_compute; reflexivity)) as (? & [= <-] & Hb).
    destruct (Hnew Bybit ltac:(vm_compute; reflexivity)) as (? & [= <-] & Hby).
    destruct (Hnew Upbit ltac:(vm_compute; reflexivity)) as (? & [= <-] & Hu).
    destruct (Hnew Kraken ltac:(vm_compute; reflexivity)) as (? & [= <-] & Hk).
    destruct snapshot as [stamp []]. cbn in Hb, Hcb, Hby, Hu, Hx, Hk |- *.
    congruence.
Defined.

(** C6, as stated, fails: reading the status document is a step outside
    the loop over the exchanges, and when it fails (one fetch has failed,
    so the document is read for its last successful run) the snapshot and
    the listing log are already written and no status document is. *)
Lemma fatal_run_counterexample :
  exists error w',
    updateListings (hostWith oneDown) (worldOf brokenStatusDisk)
    = (Thrown error, w')
    /\ stored (statusFile brokenStatusDisk) = Unreadable error
    /\ statusFile (disk w') = statusFile brokenStatusDisk
    /\ cexListingsFile (disk w') <> cexListingsFile brokenStatusDisk
    /\ newListingsFile (disk w') <> newListingsFile brokenStatusDisk.
Proof.
  eexists _, _. split; [vm_compute; reflexivity|].
  split; [reflexivity|]. split; [reflexivity|].
  split; vm_compute; discriminate.
Qed.

(** C6, amended. On a host whose log can be written, and when the
    status document on disk can be read and written, every run that
    throws leaves a status document with status [failed], the single
    entry [Critical: <error>] and the last successful run of the document
    it found, and throws the error it reported; the process then exits
    with code 1. When the error is raised by loading the prior snapshot
    or the prior listing log, the run throws it and leaves the snapshot
    and the listing log as they were. On a host whose log cannot be
    written the run throws at its first line, in front of the [try]: it
    writes no document, the status document included, and the process
    exits with code 1. *)
Theorem fatal_run_writes_failed_status (env : Env) (w : World)
    (before : StatusData) :
  stored (statusFile (disk w)) = Parsed before ->
  writeFault (statusFile (disk w)) = None ->
  (logFault env = None ->
   (forall error w',
       updateListings env w = (Thrown error, w') ->
       stored (statusFile (disk w'))
       = Parsed {| lastRun := Some (startOf env w);
                   lastSuccessfulRun := lastSuccessfulRun before;
                   status := failed;
                   errors := ["Critical: " +:+ error] |}
       /\ (main env w).1 = 1)
   /\ (forall error,
         loadFails w error ->
         exists w',
           updateListings env w = (Thrown error, w')
           /\ cexListingsFile (disk w') = cexListingsFile (disk w)
           /\ newListingsFile (disk w') = newListingsFile (disk w)))
  /\ (forall fault,
        logFault env = Some fault ->
        exists w',
          updateListings env w = (Thrown (logError fault), w')
          /\ disk w' = disk w
          /\ (main env w).1 = 1).
Proof.
  intros Hs Hf. split.
  - intros Hlog. split.
    + intros error w' E. split.
      * exact (run_thrown env w w' error before Hlog E Hs Hf).
      * unfold main. rewrite E. reflexivity.
    + intros error Hload.
      exact (run_loadFails env w error before Hlog Hload Hs Hf).
  - intros fault Hfault.
    destruct (updateListings_mute env fault w Hfault) as (w' & E & D & _).
    exists w'. split; [exact E|]. split; [exact D|].
    unfold main. rewrite E. reflexivity.
Qed.

Lemma fatal_run_writes_failed_status_witness :
  (exists w',
      updateListings (hostWith market) (worldOf brokenSnapshotDisk)
      = (Thrown "SyntaxError: Unexpected end of JSON input", w')
      /\ stored (statusFile (disk w'))
         = Parsed {| lastRun := Some "2024-01-31T00:00:00.000Z";
                     lastSuccessfulRun := Some "2024-01-29T00:00:00.000Z";
                     status := failed;
                     errors := ["Critical: SyntaxError: Unexpected end of JSON input"] |}
      /\ cexListingsFile (disk w') = cexListingsFile brokenSnapshotDisk
      /\ newListingsFile (disk w') = newListingsFile brokenSnapshotDisk)
  /\ exists w',
       updateListings (muteHost market) (worldOf sampleDisk)
       = (Thrown "Error: EACCES: permission denied, open", w')
       /\ disk w' = sampleDisk.
Proof.
  split.
  - destruct (fatal_run_writes_failed_status (hostWith market)
                (worldOf brokenSnapshotDisk) sampleStatus eq_refl eq_refl)
      as [Hlogged _].
    destruct (Hlogged eq_refl) as [Hthrown Hload].
    destruct (Hload "SyntaxError: Unexpected end of JSON input")
      as (w' & E & Hc & Hn).
    + left. reflexivity.
    + exists w'. split; [exact E|]. split; [|split; assumption].
      exact (proj1 (Hthrown _ _ E)).
  - destruct (fatal_run_writes_failed_status (muteHost market)
                (worldOf sampleDisk) sampleStatus eq_refl eq_refl)
      as [_ Hmute].
    destruct (Hmute _ eq_refl) as (w' & E & D & _).
    exists w'. split; [exact E | exact D].
Defined.

(** ** The retention window *)

Section Retention.

Context (env : Env).

Lemma notBefore_true (cutoff : Z) (l : NewListing) :
  notBefore env cutoff l = true
  <-> exists t, Date_parse env (detectedAt l) = Some t /\ cutoff <= t.
Proof.
  unfold notBefore. destruct (Date_parse env (detectedAt l)) as [t|].
  - rewrite Z.leb_le. split.
    + intros H. exists t. split; [reflexivity | exact H].
    + intros (t' & [= <-] & H). exact H.
  - split; [discriminate | intros (t & Ht & _); discriminate].
Qed.

Lemma withinWindow_true (now : Z) (l : NewListing) :
  withinWindow env now l = true
  <-> exists t, Date_parse env (detectedAt l) = Some t
        /\ now - RETENTION_DAYS * JSDate.msPerDay <= t.
Proof. apply notBefore_true. Qed.

Lemma elem_of_kept (keep : NewListing -> bool) (listings : list NewListing)
    (l : NewListing) :
  l ∈ List.filter keep listings <-> l ∈ listings /\ keep l = true.
Proof. rewrite !list_elem_of_In. apply filter_In. Qed.

Lemma kept_sublist (keep : NewListing -> bool) (listings : list NewListing) :
  List.filter keep listings `sublist_of` listings.
Proof.
  induction listings as [|l listings IH]; [constructor|].
  cbn [List.filter]. destruct (keep l).
  - apply sublist_skip, IH.
  - apply sublist_cons, IH.
Qed.

Lemma run_log_not_before (w w' : World) :
  updateListings env w = (Returned tt, w') ->
  exists log k,
    stored (newListingsFile (disk w')) = Parsed log
    /\ (ticks w <= k < ticks w')%nat
    /\ forall l,
         l ∈ listings log ->
         notBefore env (cutoffOf env (clock env k)) l = true.
Proof.
  intros E.
  destruct (run_returned env w w' E)
    as (old & prior & snapshot & log & report & k & found & _ & _ & _ & Hn
        & _ & _ & Hk & Hl & _).
  exists log, k. split; [exact Hn|]. split; [exact Hk|].
  intros l. rewrite Hl, elem_of_kept. intros [_ H]. exact H.
Qed.

End Retention.




(** C10. A listing whose [detectedAt] is not a date is not among the
    listings [cleanOldListings] returns, and the call returns; so no such
    entry is in the listing log a run writes, and the errors of the status
    document, which are those of the failed fetches, do not mention it. *)
Theorem unparseable_entries_are_dropped (env : Env)
    (entries : list NewListing) (w : World) (l : NewListing) :
  Date_parse env (detectedAt l) = None ->
  (exists kept,
      cleanOldListings env entries w = (Returned kept, tick w)
      /\ kept `sublist_of` entries
      /\ l ∉ kept)
  /\ (forall w0 w',
        updateListings env w0 = (Returned tt, w') ->
        exists log report,
          stored (newListingsFile (disk w')) = Parsed log
          /\ (l ∉ listings log)
          /\ stored (statusFile (disk w')) = Parsed report
          /\ errors report = failures env).
Proof.
  intros Hnone.
  assert (Hout : forall cutoff, notBefore env cutoff l = false).
  { intros cutoff. unfold notBefore. rewrite Hnone. reflexivity. }
  split.
  - exists (List.filter (notBefore env (cutoffOf env (clock env (ticks w))))
              entries).
    split; [apply cleanOldListings_eq|]. split; [apply kept_sublist|].
    rewrite elem_of_kept. intros [_ H]. rewrite Hout in H. discriminate.
  - intros w0 w' E.
    destruct (run_log_not_before env w0 w' E) as (log & k & Hs & _ & Hall).
    destruct (run_returned env w0 w' E)
      as (_ & _ & _ & _ & report & _ & _ & _ & _ & _ & _
          & Hr & _ & _ & _ & _ & He & _).
    exists log, report. split; [exact Hs|]. split; [|split; assumption].
    intros Hl. apply Hall in Hl. rewrite Hout in Hl. discriminate.
Qed.

Lemma unparseable_entries_are_dropped_witness :
  (exists kept,
      cleanOldListings (hostWith market) (listings sampleLog)
        (worldOf sampleDisk)
      = (Returned kept, tick (worldOf sampleDisk))
      /\ {| exchange := "Bybit"; symbol := "XUSDT"; detectedAt := "yesterday" |}
         ∉ kept)
  /\ exists log,
       stored (newListingsFile (disk (updateListings (hostWith market)
                                        (worldOf sampleDisk)).2)) = Parsed log
       /\ {| exchange := "Bybit"; symbol := "XUSDT"; detectedAt := "yesterday" |}
          ∉ listings log.
Proof.
  destruct (unparseable_entries_are_dropped (hostWith market)
              (listings sampleLog) (worldOf sampleDisk)
              {| exchange := "Bybit"; symbol := "XUSDT";
                 detectedAt := "yesterday" |} eq_refl)
    as [(kept & E & _ & Hkept) Hrun].
  split; [exists kept; split; assumption|].
  destruct (Hrun (worldOf sampleDisk)
              (updateListings (hostWith market) (worldOf sampleDisk)).2)
    as (log & _ & Hs & Hl & _).
  - vm_compute. reflexivity.
  - exists log. split; assumption.
Defined.

(** ** The differ *)

Section Differ.

Context (env : Env).

Lemma isNew_false (oldSymbols : list string) (s : string) :
  isNew oldSymbols s = false
  <-> exists o, o ∈ oldSymbols /\ normalizeSymbol o = normalizeSymbol s.
Proof.
  unfold isNew. rewrite bool_decide_eq_false. split.
  - intros H. apply dec_stable in H.
    apply list_elem_of_fmap in H. destruct H as (o & Ho & Hin).
    exists o. split; [exact Hin | symmetry; exact Ho].
  - intros (o & Hin & Ho) H. apply H.
    apply list_elem_of_fmap. exists o. split; [symmetry; exact Ho | exact Hin].
Qed.

Lemma isNew_true (oldSymbols : list string) (s : string) :
  isNew oldSymbols s = true
  <-> ~ exists o, o ∈ oldSymbols /\ normalizeSymbol o = normalizeSymbol s.
Proof.
  rewrite <- isNew_false. destruct (isNew oldSymbols s); split; congruence.
Qed.

Lemma detected_symbols (oldSymbols : list string) (name : string)
    (newSymbols : list string) (n : nat) :
  symbol <$> detected env oldSymbols name newSymbols n
  = List.filter (isNew oldSymbols) newSymbols.
Proof.
  revert n. induction newSymbols as [|s rest IH]; intros n; [reflexivity|].
  cbn [detected List.filter]. destruct (isNew oldSymbols s).
  - cbn [fmap list_fmap symbol]. f_equal. apply IH.
  - apply IH.
Qed.

Lemma detected_exchange (oldSymbols : list string) (name : string)
    (newSymbols : list string) (n : nat) :
  Forall (fun e => exchange e = name)
    (detected env oldSymbols name newSymbols n).
Proof.
  revert n. induction newSymbols as [|s rest IH]; intros n; [constructor|].
  cbn [detected]. destruct (isNew oldSymbols s).
  - constructor; [reflexivity | apply IH].
  - apply IH.
Qed.

Lemma detected_stamps (oldSymbols : list string) (name : string)
    (newSymbols : list string) (n i : nat) (e : NewListing) :
  detected env oldSymbols name newSymbols n !! i = Some e ->
  detectedAt e = JSDate.toISOString (clock env (n + i)).
Proof.
  revert n i. induction newSymbols as [|s rest IH]; intros n i; [discriminate|].
  cbn [detected]. destruct (isNew oldSymbols s).
  - destruct i as [|i].
    + intros [= <-]. cbn. rewrite Nat.add_0_r. reflexivity.
    + cbn [lookup list_lookup]. intros H. apply IH in H.
      rewrite H. f_equal. f_equal. lia.
  - apply IH.
Qed.

Lemma detected_nil (oldSymbols : list string) (name : string)
    (newSymbols : list string) (n : nat) :
  (forall s, s ∈ newSymbols -> isNew oldSymbols s = false) ->
  detected env oldSymbols name newSymbols n = [].
Proof.
  induction newSymbols as [|s rest IH]; intros H; [reflexivity|].
  cbn [detected]. rewrite (H s) by apply list_elem_of_here.
  apply IH. intros s' Hs'. apply H, list_elem_of_further, Hs'.
Qed.

Lemma detected_count (oldSymbols : list string) (name : string)
    (newSymbols : list string) (n : nat) (form : string) :
  form ∉ normalizeSymbol <$> oldSymbols ->
  length (List.filter (fun e => bool_decide (normalizeSymbol (symbol e) = form))
            (detected env oldSymbols name newSymbols n))
  = length (List.filter (fun s => bool_decide (normalizeSymbol s = form))
              newSymbols).
Proof.
  intros Hform. revert n.
  induction newSymbols as [|s rest IH]; intros n; [reflexivity|].
  cbn [detected List.filter]. destruct (isNew oldSymbols s) eqn:Hs.
  - cbn [List.filter symbol].
    destruct (bool_decide (normalizeSymbol s = form)); cbn [length];
      rewrite IH; reflexivity.
  - rewrite bool_decide_eq_false_2; [apply IH|].
    intros <-. apply Hform.
    unfold isNew in Hs. apply bool_decide_eq_false in Hs.
    apply dec_stable in Hs. exact Hs.
Qed.

Lemma detect_nothing (oldSymbols newSymbols : list string) (name : string)
    (w : World) :
  (forall s, s ∈ newSymbols -> isNew oldSymbols s = false) ->
  detectNewListings env oldSymbols newSymbols name w = (Returned [], w).
Proof.
  intros H. rewrite detectNewListings_eq, detected_nil by exact H.
  reflexivity.
Qed.

End Differ.

(** C2. [detectNewListings] returns one event for each element of
    [newSymbols] whose normalized form is not the normalized form of any
    element of [oldSymbols], in the order of [newSymbols]; an event carries
    the symbol as the exchange wrote it, the name of the exchange, and the
    reading of the clock taken when it was pushed. Against the old list
    [BTCUSDT], the new list [BTCUSDT; ETHUSDT] of Binance gives the one
    event for ETHUSDT. *)
Theorem detect_reports_new_symbols (env : Env)
    (oldSymbols newSymbols : list string) (name : string) (w : World) :
  exists events,
    detectNewListings env oldSymbols newSymbols name w
    = (Returned events, advance (length events) w)
    /\ symbol <$> events = List.filter (isNew oldSymbols) newSymbols
    /\ (forall s,
         isNew oldSymbols s = true
         <-> ~ exists o, o ∈ oldSymbols
                 /\ normalizeSymbol o = normalizeSymbol s)
    /\ Forall (fun e => exchange e = name) events
    /\ (forall i e,
         events !! i = Some e ->
         detectedAt e = JSDate.toISOString (clock env (ticks w + i)))
    /\ detectNewListings env ["BTCUSDT"] ["BTCUSDT"; "ETHUSDT"] "Binance" w
       = (Returned [ {| exchange := "Binance"; symbol := "ETHUSDT";
                        detectedAt := startOf env w |} ],
          tick w).
Proof.
  exists (detected env oldSymbols name newSymbols (ticks w)).
  split; [apply detectNewListings_eq|].
  split; [apply detected_symbols|].
  split; [apply isNew_true|].
  split; [apply detected_exchange|].
  split; [apply detected_stamps|].
  rewrite detectNewListings_eq. reflexivity.
Qed.

Lemma detect_reports_new_symbols_witness :
  exists events,
    detectNewListings (hostWith market) ["BTCUSDT"] ["BTCUSDT"; "ETHUSDT"]
      "Binance" (worldOf sampleDisk)
    = (Returned events, tick (worldOf sampleDisk))
    /\ symbol <$> events = ["ETHUSDT"]
    /\ exchange <$> events = ["Binance"]
    /\ detectedAt <$> events = ["2024-01-31T00:00:00.000Z"].
Proof.
  destruct (detect_reports_new_symbols (hostWith market) ["BTCUSDT"]
              ["BTCUSDT"; "ETHUSDT"] "Binance" (worldOf sampleDisk))
    as (events & E & Hsym & _ & _ & _ & Hone).
  exists events.
  assert (Hev : events
                = [ {| exchange := "Binance"; symbol := "ETHUSDT";
                       detectedAt := startOf (hostWith market)
                                       (worldOf sampleDisk) |} ]).
  { rewrite E in Hone. injection Hone as H _. exact H. }
  split; [rewrite E, Hev; reflexivity|]. split; [exact Hsym|].
  rewrite Hev. split; reflexivity.
Defined.

(** C7. When every new symbol has its normalized form among the
    normalized forms of the old symbols, [detectNewListings] returns no
    event; so a list compared with itself gives none, and a second call
    with the same new symbols gives none once the old list holds the
    symbols the first call detected, or is the new list itself, as it is
    in the snapshot after a successful fetch. *)
Theorem detect_nothing_new (env : Env)
    (oldSymbols newSymbols : list string) (name : string) (w : World) :
  ((forall s, s ∈ newSymbols ->
      normalizeSymbol s ∈ normalizeSymbol <$> oldSymbols) ->
   detectNewListings env oldSymbols newSymbols name w = (Returned [], w))
  /\ detectNewListings env oldSymbols oldSymbols name w = (Returned [], w)
  /\ (forall events w1,
        detectNewListings env oldSymbols newSymbols name w
        = (Returned events, w1) ->
        detectNewListings env (oldSymbols ++ (symbol <$> events)) newSymbols
          name w1 = (Returned [], w1)
        /\ detectNewListings env newSymbols newSymbols name w1
           = (Returned [], w1)).
Proof.
  assert (Hknown : forall old s,
             normalizeSymbol s ∈ normalizeSymbol <$> old ->
             isNew old s = false).
  { intros old s H. unfold isNew. rewrite bool_decide_eq_false.
    intros Hn. exact (Hn H). }
  assert (Hself : forall old w0,
             detectNewListings env old old name w0 = (Returned [], w0)).
  { intros old w0. apply detect_nothing. intros s Hs.
    apply Hknown, list_elem_of_fmap. exists s. split; [reflexivity | exact Hs]. }
  split; [|split].
  - intros H. apply detect_nothing. intros s Hs. apply Hknown, H, Hs.
  - apply Hself.
  - intros events w1 E. split; [|apply Hself].
    rewrite detectNewListings_eq in E. injection E as <- _.
    apply detect_nothing. intros s Hs. apply Hknown.
    rewrite fmap_app, elem_of_app.
    destruct (isNew oldSymbols s) eqn:Hnew.
    + right. apply list_elem_of_fmap. exists s. split; [reflexivity|].
      rewrite detected_symbols, list_elem_of_In. apply filter_In.
      split; [apply list_elem_of_In, Hs | exact Hnew].
    + left. unfold isNew in Hnew. apply bool_decide_eq_false in Hnew.
      apply dec_stable in Hnew. exact Hnew.
Qed.

Lemma detect_nothing_new_witness :
  detectNewListings (hostWith market) ["BTC-USD"; "ETH-USD"]
    ["ETH_USD"; "btcusd"] "Coinbase" (worldOf sampleDisk)
  = (Returned [], worldOf sampleDisk)
  /\ detectNewListings (hostWith market) (["BTCUSDT"] ++ ["ETHUSDT"])
       ["BTCUSDT"; "ETHUSDT"] "Binance" (tick (worldOf sampleDisk))
     = (Returned [], tick (worldOf sampleDisk)).
Proof.
  split.
  - apply (detect_nothing_new (hostWith market)).
    intros s Hs. apply list_elem_of_In in Hs.
    destruct Hs as [<- | [<- | []]];
      refine (bool_decide_unpack _ _); vm_compute; exact I.
  - refine (proj1 (proj2 (proj2 (detect_nothing_new (hostWith market)
                                   ["BTCUSDT"] ["BTCUSDT"; "ETHUSDT"] "Binance"
                                   (worldOf sampleDisk)))
                     [ {| exchange := "Binance"; symbol := "ETHUSDT";
                          detectedAt := "2024-01-31T00:00:00.000Z" |} ]
                     (tick (worldOf sampleDisk)) _)).
    vm_compute. reflexivity.
Defined.

(** C9. [detectNewListings] does not deduplicate: for a normalized form
    that no old symbol has, it returns as many events as there are new
    symbols of that form. With no old symbol, [BTC-USD] and [BTC_USD] give
    two events. *)
Theorem detect_one_event_per_occurrence (env : Env)
    (oldSymbols newSymbols : list string) (name : string) (w : World)
    (form : string) :
  form ∉ normalizeSymbol <$> oldSymbols ->
  (exists events,
      detectNewListings env oldSymbols newSymbols name w
      = (Returned events, advance (length events) w)
      /\ length (List.filter
                   (fun e => bool_decide (normalizeSymbol (symbol e) = form))
                   events)
         = length (List.filter
                     (fun s => bool_decide (normalizeSymbol s = form))
                     newSymbols))
  /\ detectNewListings env [] ["BTC-USD"; "BTC_USD"] name w
     = (Returned [ {| exchange := name; symbol := "BTC-USD";
                      detectedAt := startOf env w |};
                   {| exchange := name; symbol := "BTC_USD";
                      detectedAt := startOf env (tick w) |} ],
        tick (tick w)).
Proof.
  intros Hform. split.
  - exists (detected env oldSymbols name newSymbols (ticks w)).
    split; [apply detectNewListings_eq | apply detected_count, Hform].
  - rewrite detectNewListings_eq. reflexivity.
Qed.

Lemma detect_one_event_per_occurrence_witness :
  exists events,
    detectNewListings (hostWith market) ["ETH-USD"]
      ["BTC-USD"; "ETH-USD"; "BTC_USD"; "BTC/USD"] "Coinbase"
      (worldOf sampleDisk)
    = (Returned events, advance (length events) (worldOf sampleDisk))
    /\ length (List.filter
                 (fun e => bool_decide (normalizeSymbol (symbol e) = "BTCUSD"))
                 events) = 3%nat.
Proof.
  destruct (detect_one_event_per_occurrence (hostWith market) ["ETH-USD"]
              ["BTC-USD"; "ETH-USD"; "BTC_USD"; "BTC/USD"] "Coinbase"
              (worldOf sampleDisk) "BTCUSD")
    as [(events & E & Hn) _].
  - refine (bool_decide_unpack _ _). vm_compute. exact I.
  - exists events. split; [exact E|]. rewrite Hn. vm_compute. reflexivity.
Defined.


(** * Further properties of the script *)

(** ** The events of a run *)

Section Tracing.

Context (env : Env) `{!LogWritable env}.

Lemma wp_detectNewListings_ticks (oldSymbols newSymbols : list string)
    (name : string) (w : World)
    (Q : Outcome (list NewListing) -> World -> Prop) :
  (forall w1,
      quiet w w1 ->
      ticks w1
      = (length (detected env oldSymbols name newSymbols (ticks w))
         + ticks w)%nat ->
      Q (Returned (detected env oldSymbols name newSymbols (ticks w))) w1) ->
  wp (detectNewListings env oldSymbols newSymbols name) w Q.
Proof.
  intros H. unfold wp. rewrite detectNewListings_eq. cbn [fst snd].
  apply H; [apply quiet_advance | apply ticks_advance].
Qed.

Lemma wp_updateExchange_found (old : ExchangeListings) (ex : Exchange)
    (w : World) (Q : Outcome unit -> World -> Prop) :
  (forall w1 n,
      disk w1 = disk w ->
      (ticks w <= n)%nat ->
      (n + length (foundOf env (exchanges old) ex n) <= ticks w1)%nat ->
      vars w1
      = {| var_errors := var_errors (vars w) ++ failureOf env ex;
           var_results :=
             <[exchangeKey ex := carried env (exchanges old) ex]>
               (var_results (vars w));
           var_allNewListings :=
             var_allNewListings (vars w)
             ++ foundOf env (exchanges old) ex n |} ->
      Q (Returned tt) w1) ->
  wp (updateExchange env old ex) w Q.
Proof.
  unfold updateExchange, failureOf, carried, foundOf. intros H.
  apply wp_tryCatch, wp_bind, wp_fetcherOf. intros w1 (D1 & V1 & _) T1.
  revert H. destruct (network env ex) as [symbols|error|before error rest];
    intros H.
  - apply wp_bind, wp_modify, wp_bind, wp_detectNewListings_ticks.
    intros w2 (D2 & V2 & _) T2. cbn [ticks withResults withVars] in T2 |- *.
    apply wp_bind, wp_modify.
    set (found := detected env _ _ _ _) in *.
    destruct (bool_decide (0 < length found)%nat).
    + apply wp_writeLog. intros w3 (D3 & V3 & T3) _.
      apply (H _ (ticks w1)).
      * rewrite D3. cbn. rewrite D2. exact D1.
      * lia.
      * cbn in T3. unfold found in *. lia.
      * rewrite V3. cbn. rewrite V2. cbn. rewrite V1, app_nil_r. reflexivity.
    + apply wp_ret. apply (H _ (ticks w1)).
      * cbn. rewrite D2. exact D1.
      * lia.
      * cbn. unfold found in *. lia.
      * cbn. rewrite V2. cbn. rewrite V1, app_nil_r. reflexivity.
  - apply wp_bind, wp_modify, wp_modify.
    apply (H _ (ticks w1)); cbn.
    + exact D1.
    + lia.
    + lia.
    + rewrite V1, !app_nil_r. reflexivity.
  - apply wp_bind, wp_detectNewListings. intros w2 (D2 & V2 & T2).
    apply wp_throw, wp_bind, wp_modify, wp_modify.
    apply (H _ (ticks w1)); cbn.
    + rewrite D2. exact D1.
    + lia.
    + lia.
    + rewrite V2, V1, !app_nil_r. reflexivity.
Qed.

Ltac traced_step w0 D V T :=
  apply wp_bind, wp_updateExchange_found;
  let w' := fresh "w" in
  let n := fresh "n" in
  let D' := fresh "D" in
  let V' := fresh "V" in
  let L := fresh "L" in
  let U := fresh "U" in
  let T' := fresh "T" in
  intros w' n D' L U V';
  rewrite D in D'; rewrite V in V';
  cbn [var_errors var_results var_allNewListings] in V';
  assert (T' : (ticks w0 <= ticks w')%nat) by lia;
  clear D V.

Lemma updateListings_traced (w : World) :
  wp (updateListings env) w
    (fun o w' => o = Returned tt -> Traced env w w' /\ healthy env w).
Proof.
  unfold updateListings.
  apply wp_bind, wp_nowISO, wp_bind, wp_modify.
  apply wp_bind, wp_writeLog. intros w1 (D1 & V1 & T1) _.
  apply wp_bind, wp_writeLog. intros w2 (D2 & V2 & T2) _.
  apply wp_bind, wp_writeLog. intros w3 (D3 & V3 & T3) _.
  cbn in D1, V1, T1.
  rewrite D2, D1 in D3. rewrite V2, V1 in V3.
  assert (T : (ticks w <= ticks w3)%nat) by lia.
  clear D1 D2 V1 V2 T1 T2 T3 w1 w2.
  apply wp_tryCatch.
  match goal with
  | |- wp _ _ (fun o w1 => match o with
                           | Returned a => _
                           | Thrown e => wp (@?h e) w1 ?Q
                           end) =>
      assert (Hh : forall error wh, wp (h error) wh Q)
  end.
  { intros error wh. cbv beta. apply wp_onFailure. intros. discriminate. }
  apply wp_bind, wp_readJSON. cbn [fileAt FILES_cexListings]. rewrite D3.
  destruct (stored (cexListingsFile (disk w))) as [old|e] eqn:Ecex;
    [|apply Hh].
  apply wp_bind, wp_readJSON. cbn [fileAt FILES_newListings]. rewrite D3.
  destruct (stored (newListingsFile (disk w))) as [prior|e] eqn:Enew;
    [|apply Hh].
  apply wp_bind, wp_modify, wp_bind, wp_modify.
  set (w4 := withAllNewListings [] (withResults ∅ w3)).
  assert (D4 : disk w4 = disk w) by exact D3.
  assert (V4 : vars w4 = freshVars) by (subst w4; cbn; rewrite V3; reflexivity).
  assert (T4 : (ticks w <= ticks w4)%nat) by exact T.
  clearbody w4. clear D3 V3 T w3.
  traced_step w D4 V4 T4.
  traced_step w D V T.
  traced_step w D0 V0 T0.
  traced_step w D V T.
  traced_step w D0 V0 T0.
  traced_step w D V T.
  assert (Hall : var_allNewListings (vars w6)
                 = concat ((fun ex => foundOf env (exchanges old) ex
                                        match ex with
                                        | Binance => n | Coinbase => n0
                                        | Bybit => n1 | Upbit => n2
                                        | OKX => n3 | Kraken => n4
                                        end) <$> EXCHANGES)).
  { rewrite V0.
    cbn [var_allNewListings freshVars EXCHANGES fmap list_fmap concat app].
    rewrite app_nil_r, <- !app_assoc. reflexivity. }
  assert (Herr : var_errors (vars w6) = failures env).
  { rewrite V0. unfold failures.
    cbn [var_errors freshVars EXCHANGES fmap list_fmap concat app].
    rewrite app_nil_r, <- !app_assoc. reflexivity. }
  clear V0.
  apply wp_bind, wp_inspect, wp_bind, wp_nowISO, wp_bind, wp_writeJSON.
  cbn [fileAt FILES_cexListings disk tick]. rewrite D0.
  destruct (writeFault (cexListingsFile (disk w))) as [[e|e damage]|] eqn:Fcex;
    [apply Hh | apply Hh |].
  apply wp_bind, wp_inspect, wp_bind, wp_cleanOldListings.
  apply wp_bind, wp_nowISO, wp_bind, wp_writeJSON.
  cbn [fileAt FILES_newListings FILES_cexListings putFile disk tick withDisk
       newListingsFile].
  destruct (writeFault (newListingsFile (disk w))) as [[e|e damage]|] eqn:Fnew;
    [apply Hh | apply Hh |].
  apply wp_bind, wp_inspect.
  cbn [vars tick withDisk]. rewrite Hall.
  set (k := ticks (withDisk _ (tick w6))).
  set (log := {| lastChecked := _; listings := _ |}).
  match goal with |- wp _ ?wx _ => set (wB := wx) end.
  assert (HBn : stored (newListingsFile (disk wB)) = Parsed log)
    by reflexivity.
  assert (HBs : statusFile (disk wB) = statusFile (disk w)) by reflexivity.
  assert (Hk : k = S (ticks w6)) by reflexivity.
  assert (HBk : (k < ticks wB)%nat) by (subst k wB; cbn; lia).
  assert (Hlist : listings log
                 = List.filter (notBefore env (cutoffOf env (clock env k)))
                     (listings prior
                      ++ concat ((fun ex => foundOf env (exchanges old) ex
                                              match ex with
                                              | Binance => n | Coinbase => n0
                                              | Bybit => n1 | Upbit => n2
                                              | OKX => n3 | Kraken => n4
                                              end) <$> EXCHANGES)))
    by reflexivity.
  clearbody wB k log. clear Hall D0.
  assert (Hdone : forall w', disk w' = disk wB \/
                    (cexListingsFile (disk w') = cexListingsFile (disk wB)
                     /\ newListingsFile (disk w') = newListingsFile (disk wB)) ->
                    (ticks wB <= ticks w')%nat ->
                    Traced env w w').
  { intros w' Hd Ht.
    exists old, prior, log,
      (fun ex => match ex with
                 | Binance => n | Coinbase => n0 | Bybit => n1
                 | Upbit => n2 | OKX => n3 | Kraken => n4
                 end), k.
    split; [exact Ecex|]. split; [exact Enew|].
    split; [destruct Hd as [-> | [_ ->]]; exact HBn|].
    split; [intros []; lia|]. split; [lia | exact Hlist]. }
  match goal with
  | |- wp (_ ≫= ?rest) _ ?Q =>
      assert (Hrest : forall last wC,
                 (failures env = []
                  \/ exists before,
                       stored (statusFile (disk w)) = Parsed before) ->
                 disk wC = disk wB -> (ticks wB <= ticks wC)%nat ->
                 wp (rest last) wC Q)
  end.
  { intros last wC Hstatus DC TC. cbv beta.
    apply wp_bind, wp_writeJSON. cbn [fileAt FILES_status].
    rewrite DC, HBs.
    destruct (writeFault (statusFile (disk w))) as [[e|e damage]|] eqn:Fstatus;
      [apply Hh | apply Hh |].
    assert (Hhealthy : healthy env w).
    { unfold healthy. split; [exact log_writable|].
      split; [exists old; exact Ecex|].
      split; [exists prior; exact Enew|]. auto. }
    assert (Hq : forall w',
               quiet (withDisk (putFile FILES_status
                                  (fileOf {| lastRun := Some (startOf env w);
                                             lastSuccessfulRun := last;
                                             status := statusOf (length (var_errors (vars w6)));
                                             errors := var_errors (vars w6) |})
                                  (disk wB)) wC) w' ->
               Returned tt = Returned tt -> Traced env w w' /\ healthy env w).
    { intros w' (D' & _ & T') _. cbn in D', T'.
      split; [|exact Hhealthy]. apply Hdone; [|lia].
      right. rewrite D'. split; reflexivity. }
    apply wp_bind, wp_writeLog. intros w7 Q7 _.
    apply wp_bind, wp_writeLog. intros w8 Q8 _.
    apply wp_bind.
    destruct (bool_decide (0 < length (var_errors (vars w6)))%nat).
    - apply wp_writeLog. intros w9 Q9 _.
      apply wp_writeLog. intros w10 Q10 _.
      apply Hq. eauto using quiet_trans.
    - apply wp_ret, wp_writeLog. intros w9 Q9 _.
      apply Hq. eauto using quiet_trans. }
  apply wp_bind.
  destruct (bool_decide (length (var_errors (vars w6)) = 0%nat)) eqn:Enone.
  - apply wp_ret, Hrest; [|reflexivity | lia].
    left. apply bool_decide_eq_true_1 in Enone. rewrite <- Herr.
    destruct (var_errors (vars w6)); [reflexivity | discriminate Enone].
  - apply wp_fmap, wp_readJSON. cbn [fileAt FILES_status]. rewrite HBs.
    destruct (stored (statusFile (disk w))) as [before|e] eqn:Estatus;
      [apply Hrest; [right; exists before; reflexivity | reflexivity | lia]
      | apply Hh].
Qed.

End Tracing.

Arguments updateListings_traced {env _} w.

Lemma run_traced (env : Env) (w w' : World) :
  updateListings env w = (Returned tt, w') -> Traced env w w'.
Proof.
  intros E. pose proof (run_returned_logged env w w' E) as Hlog.
  exact (proj1 (wp_eq _ _ _ _ _ (@updateListings_traced env Hlog w) E eq_refl)).
Qed.

Lemma run_returned_healthy (env : Env) (w w' : World) :
  updateListings env w = (Returned tt, w') -> healthy env w.
Proof.
  intros E. pose proof (run_returned_logged env w w' E) as Hlog.
  exact (proj2 (wp_eq _ _ _ _ _ (@updateListings_traced env Hlog w) E eq_refl)).
Qed.

(** ** The log and the clock *)

Lemma appends_ret {A : Type} (a : A) : appends (mret a).
Proof. intros w. split; [reflexivity | cbn; lia]. Qed.

Lemma appends_throw {A : Type} (e : string) : appends (@throw A e).
Proof. intros w. split; [reflexivity | cbn; lia]. Qed.

Lemma appends_bind {A B : Type} (m : M A) (f : A -> M B) :
  appends m -> (forall a, appends (f a)) -> appends (m ≫= f).
Proof.
  intros Hm Hf w. specialize (Hm w). unfold mbind, M_bind.
  destruct (m w) as [[a|e] w1]; cbn [snd] in *; [|exact Hm].
  destruct Hm as [Hl Ht]. destruct (Hf a w1) as [Hl' Ht'].
  split; [etrans; eassumption | lia].
Qed.

Lemma appends_fmap {A B : Type} (f : A -> B) (m : M A) :
  appends m -> appends (f <$> m).
Proof.
  intros Hm w. specialize (Hm w). unfold fmap, M_fmap.
  destruct (m w) as [[a|e] w1]; exact Hm.
Qed.

Lemma appends_tryCatch {A : Type} (body : M A) (handler : string -> M A) :
  appends body -> (forall e, appends (handler e)) ->
  appends (tryCatch body handler).
Proof.
  intros Hm Hf w. specialize (Hm w). unfold tryCatch.
  destruct (body w) as [[a|e] w1]; cbn [snd] in *; [exact Hm|].
  destruct Hm as [Hl Ht]. destruct (Hf e w1) as [Hl' Ht'].
  split; [etrans; eassumption | lia].
Qed.

Lemma appends_inspect {A : Type} (f : World -> A) : appends (inspect f).
Proof. intros w. split; [reflexivity | cbn; lia]. Qed.

Lemma appends_modify_vars (g : World -> Vars) :
  appends (modify (fun w => withVars (g w) w)).
Proof. intros w. split; [reflexivity | cbn; lia]. Qed.

Lemma appends_nowISO (env : Env) : appends (nowISO env).
Proof. intros w. rewrite nowISO_eq. split; [reflexivity | cbn; lia]. Qed.

Lemma appends_writeLog (env : Env) (message : string) :
  appends (writeLog env message).
Proof.
  intros w. unfold writeLog, mbind, M_bind. rewrite nowISO_eq.
  destruct (logFault env) as [[error|error]|];
    cbn [throw mret M_ret]; rewrite ?nowISO_eq;
    cbn [snd fst modify throw logs ticks tick withLogs];
    (split; [first [reflexivity | apply prefix_app_r; reflexivity] | lia]).
Qed.

Lemma appends_readJSON {A : Type} (filePath : Path A) :
  appends (readJSON filePath).
Proof.
  intros w. unfold readJSON, tryCatch, throw.
  destruct (stored (fileAt filePath (disk w)));
    (split; [reflexivity | cbn; lia]).
Qed.

Lemma appends_writeJSON {A : Type} (filePath : Path A) (data : A) :
  appends (writeJSON filePath data).
Proof.
  intros w. unfold writeJSON, tryCatch, throw.
  destruct (writeFault (fileAt filePath (disk w))) as [[error|error damage]|];
    (split; [reflexivity | cbn; lia]).
Qed.

Lemma appends_detectNewListings (env : Env) (oldSymbols newSymbols : list string)
    (name : string) :
  appends (detectNewListings env oldSymbols newSymbols name).
Proof.
  intros w. rewrite detectNewListings_eq. cbn [snd].
  set (n := length _). clearbody n.
  split; [|rewrite ticks_advance; lia].
  induction n as [|n IH]; [reflexivity | exact IH].
Qed.

Lemma appends_cleanOldListings (env : Env) (entries : list NewListing) :
  appends (cleanOldListings env entries).
Proof.
  intros w. rewrite cleanOldListings_eq. split; [reflexivity | cbn; lia].
Qed.

(** The rules above decide the question for every computation the script
    is built from. *)
Ltac appends_step :=
  lazymatch goal with
  | |- appends (mret _) => apply appends_ret
  | |- appends (throw _) => apply appends_throw
  | |- appends (inspect _) => apply appends_inspect
  | |- appends (modify _) => apply (appends_modify_vars (fun w => _))
  | |- appends (nowISO _) => apply appends_nowISO
  | |- appends (writeLog _ _) => apply appends_writeLog
  | |- appends (readJSON _) => apply appends_readJSON
  | |- appends (writeJSON _ _) => apply appends_writeJSON
  | |- appends (detectNewListings _ _ _ _) => apply appends_detectNewListings
  | |- appends (cleanOldListings _ _) => apply appends_cleanOldListings
  | |- appends (_ <$> _) => apply appends_fmap
  | |- appends (_ ≫= _) => apply appends_bind; [|intros ?]
  | |- appends (tryCatch _ _) => apply appends_tryCatch; [|intros ?]
  | |- appends (if ?b then _ else _) => destruct b
  | |- appends (match ?x with _ => _ end) => destruct x
  end.

Lemma appends_fetcherOf (env : Env) (ex : Exchange) :
  appends (fetcherOf env ex).
Proof.
  assert (H : appends (fetchSymbols env ex))
    by (unfold fetchSymbols; repeat appends_step).
  destruct ex; exact H.
Qed.

Lemma appends_updateExchange (env : Env) (old : ExchangeListings)
    (ex : Exchange) :
  appends (updateExchange env old ex).
Proof.
  unfold updateExchange.
  repeat first [apply appends_fetcherOf | appends_step].
Qed.

Lemma appends_updateListings (env : Env) : appends (updateListings env).
Proof.
  unfold updateListings.
  repeat first [apply appends_updateExchange | appends_step].
Qed.

Lemma bind_returned {A B : Type} (m : M A) (f : A -> M B) (w w1 : World)
    (a : A) :
  m w = (Returned a, w1) -> (m ≫= f) w = f a w1.
Proof. intros E. unfold mbind, M_bind. rewrite E. reflexivity. Qed.

(** X1. Whatever a run does and however it ends, it only appends to the
    log: the lines logged before are kept in their order, and the clock
    has been read. On a host whose log can be written at least the three
    lines of the header are added; on a host whose log cannot be written
    none is, since the run stops at the first. *)
Theorem run_only_appends_to_log (env : Env) (w : World) :
  logs w `prefix_of` logs (updateListings env w).2
  /\ (ticks w < ticks (updateListings env w).2)%nat
  /\ logs (main env w).2 = logs (updateListings env w).2
  /\ (logFault env = None ->
      (length (logs w) + 3 <= length (logs (updateListings env w).2))%nat)
  /\ (forall fault,
        logFault env = Some fault -> logs (updateListings env w).2 = logs w).
Proof.
  split; [apply appends_updateListings|].
  assert (Hmain : logs (main env w).2 = logs (updateListings env w).2).
  { unfold main. destruct (updateListings env w) as [[u|e] w']; reflexivity. }
  assert (Hmute : forall fault,
             logFault env = Some fault ->
             logs (updateListings env w).2 = logs w
             /\ (ticks w < ticks (updateListings env w).2)%nat).
  { intros fault Hf.
    destruct (updateListings_mute env fault w Hf) as (w' & E & _ & L & _ & T).
    rewrite E. split; [exact L | exact T]. }
  assert (Hg : logFault env = None ->
               (length (logs w) + 3
                <= length (logs (updateListings env w).2))%nat
               /\ (ticks w < ticks (updateListings env w).2)%nat).
  { clear Hmain Hmute. intros Hlog.
    unfold updateListings.
    rewrite (bind_returned _ _ _ _ _ (nowISO_eq env w)).
    rewrite (bind_returned _ _ (tick w) (withErrors [] (tick w)) tt eq_refl).
    rewrite (bind_returned _ _ _ _ _ (@writeLog_eq env Hlog _ _)).
    rewrite (bind_returned _ _ _ _ _ (@writeLog_eq env Hlog _ _)).
    rewrite (bind_returned _ _ _ _ _ (@writeLog_eq env Hlog _ _)).
    match goal with
    | |- context [tryCatch ?b ?h ?w3] =>
        assert (Ht : appends (tryCatch b h))
          by (repeat first [apply appends_updateExchange | appends_step]);
        destruct (Ht w3) as [Hp Hk];
        assert (Hl3 : length (logs w3) = (length (logs w) + 3)%nat)
          by (cbn [logs withLogs withErrors withVars tick];
              rewrite !length_app; cbn [length]; lia);
        assert (Hk3 : (ticks w < ticks w3)%nat)
          by (cbn [ticks withLogs withErrors withVars tick]; lia);
        apply prefix_length in Hp; rewrite Hl3 in Hp;
        generalize dependent (tryCatch b h w3); clear Hl3; intros r Hp Hk
    end.
    split; [exact Hp | lia]. }
  split; [|split; [exact Hmain|split]].
  - destruct (logFault env) as [fault|] eqn:Hlog.
    + exact (proj2 (Hmute fault eq_refl)).
    + exact (proj2 (Hg eq_refl)).
  - intros Hlog. exact (proj1 (Hg Hlog)).
  - intros fault Hf. exact (proj1 (Hmute fault Hf)).
Qed.

Lemma run_only_appends_to_log_witness :
  (3 <= length (logs (updateListings (hostWith market)
                        (worldOf sampleDisk)).2))%nat
  /\ logs (updateListings (muteHost market) (worldOf sampleDisk)).2 = [].
Proof.
  split.
  - refine (proj1 (proj2 (proj2 (proj2
              (run_only_appends_to_log (hostWith market)
                 (worldOf sampleDisk))))) _).
    reflexivity.
  - refine (proj2 (proj2 (proj2 (proj2
              (run_only_appends_to_log (muteHost market)
                 (worldOf sampleDisk))))) _ _).
    reflexivity.
Defined.

(** ** More on the differ *)

Section DifferMore.

Context (env : Env).

Lemma detected_ext (old1 old2 : list string) (name : string)
    (newSymbols : list string) (n : nat) :
  (forall s, s ∈ newSymbols -> isNew old1 s = isNew old2 s) ->
  detected env old1 name newSymbols n = detected env old2 name newSymbols n.
Proof.
  revert n. induction newSymbols as [|s rest IH]; intros n H; [reflexivity|].
  cbn [detected]. rewrite (H s) by apply list_elem_of_here.
  assert (Hrest : forall s', s' ∈ rest -> isNew old1 s' = isNew old2 s')
    by (intros s' Hs'; apply H, list_elem_of_further, Hs').
  destruct (isNew old2 s); [f_equal|]; apply IH, Hrest.
Qed.

Lemma filter_sublist_weaker {A : Type} (p q : A -> bool) (l : list A) :
  (forall x, p x = true -> q x = true) ->
  List.filter p l `sublist_of` List.filter q l.
Proof.
  intros H. induction l as [|x l IH]; [constructor|].
  cbn [List.filter]. destruct (p x) eqn:Hp.
  - rewrite (H x Hp). apply sublist_skip, IH.
  - destruct (q x); [apply sublist_cons, IH | exact IH].
Qed.

Lemma filter_sublist {A : Type} (p : A -> bool) (l : list A) :
  List.filter p l `sublist_of` l.
Proof.
  induction l as [|x l IH]; [constructor|].
  cbn [List.filter]. destruct (p x);
    [apply sublist_skip, IH | apply sublist_cons, IH].
Qed.

Lemma elem_of_detected (oldSymbols : list string) (name : string)
    (newSymbols : list string) (n : nat) (e : NewListing) :
  e ∈ detected env oldSymbols name newSymbols n ->
  exchange e = name
  /\ symbol e ∈ newSymbols
  /\ isNew oldSymbols (symbol e) = true
  /\ exists i,
       (i < length (detected env oldSymbols name newSymbols n))%nat
       /\ detectedAt e = JSDate.toISOString (clock env (n + i)).
Proof.
  intros He.
  split.
  { pose proof (detected_exchange env oldSymbols name newSymbols n) as Hall.
    rewrite Forall_forall in Hall. exact (Hall e He). }
  assert (Hs : symbol e ∈ List.filter (isNew oldSymbols) newSymbols).
  { rewrite <- (detected_symbols env oldSymbols name newSymbols n).
    apply list_elem_of_fmap. exists e. split; [reflexivity | exact He]. }
  apply list_elem_of_In, filter_In in Hs. destruct Hs as [Hin Hnew].
  split; [apply list_elem_of_In, Hin|]. split; [exact Hnew|].
  apply list_elem_of_lookup in He. destruct He as [i Hi].
  exists i. split; [eapply lookup_lt_Some, Hi|].
  exact (detected_stamps env oldSymbols name newSymbols n i e Hi).
Qed.


End DifferMore.

(** X2. The differ reads the old list as a set of normalized forms: two
    old lists with the same normalized forms, whatever their order,
    repetitions, separators and case, give the same events. *)
Theorem detect_reads_old_as_a_set (env : Env) (old1 old2 newSymbols : list string)
    (name : string) (w : World) :
  (forall form,
      form ∈ normalizeSymbol <$> old1 <-> form ∈ normalizeSymbol <$> old2) ->
  detectNewListings env old1 newSymbols name w
  = detectNewListings env old2 newSymbols name w.
Proof.
  intros H. rewrite !detectNewListings_eq.
  rewrite (detected_ext env old1 old2); [reflexivity|].
  intros s _. unfold isNew. apply bool_decide_ext. rewrite H. reflexivity.
Qed.

Lemma detect_reads_old_as_a_set_witness :
  detectNewListings (hostWith market) ["BTC-USD"; "ETH-USD"]
    ["SOL-USD"; "ETH-USD"] "Coinbase" (worldOf sampleDisk)
  = detectNewListings (hostWith market) ["ethusd"; "BTC_USD"; "btc/usd"]
      ["SOL-USD"; "ETH-USD"] "Coinbase" (worldOf sampleDisk).
Proof.
  apply detect_reads_old_as_a_set.
  intros form. vm_compute normalizeSymbol.
  rewrite !list_elem_of_In. cbn [fmap list_fmap In normalizeSymbol].
  vm_compute. tauto.
Defined.

(** X3. With an empty old list, as on a first run against an empty
    snapshot, every fetched symbol is reported, in order and with its
    repetitions; with an empty new list nothing is reported and the clock
    is not read. *)
Theorem detect_against_empty_lists (env : Env) (symbols : list string)
    (name : string) (w : World) :
  (exists events,
      detectNewListings env [] symbols name w
      = (Returned events, advance (length symbols) w)
      /\ symbol <$> events = symbols
      /\ length events = length symbols)
  /\ detectNewListings env symbols [] name w = (Returned [], w).
Proof.
  split; [|rewrite detectNewListings_eq; reflexivity].
  assert (Hall : List.filter (isNew []) symbols = symbols).
  { induction symbols as [|s rest IH]; [reflexivity|].
    cbn [List.filter]. replace (isNew [] s) with true; [f_equal; exact IH|].
    symmetry. apply isNew_true. intros (o & Ho & _).
    apply elem_of_nil in Ho. exact Ho. }
  assert (Hsym : symbol <$> detected env [] name symbols (ticks w) = symbols)
    by (rewrite detected_symbols; exact Hall).
  assert (Hlen : length (detected env [] name symbols (ticks w))
                 = length symbols)
    by (rewrite <- Hsym at 2; rewrite length_fmap; reflexivity).
  exists (detected env [] name symbols (ticks w)).
  rewrite detectNewListings_eq, Hlen. auto.
Qed.

(** X4. The differ never reports a symbol the exchange did not return,
    and never more events than symbols returned; the more symbols the old
    list holds, the fewer it reports: the symbols reported against a
    larger old list are among those reported against a smaller one, in
    the same order. *)
Theorem detect_reports_less_as_old_grows (env : Env)
    (old old' newSymbols : list string) (name : string) (w : World) :
  (forall o, o ∈ old -> o ∈ old') ->
  exists events events',
    detectNewListings env old newSymbols name w
    = (Returned events, advance (length events) w)
    /\ detectNewListings env old' newSymbols name w
       = (Returned events', advance (length events') w)
    /\ (symbol <$> events') `sublist_of` (symbol <$> events)
    /\ (symbol <$> events) `sublist_of` newSymbols
    /\ (length events' <= length events <= length newSymbols)%nat.
Proof.
  intros Hsub.
  exists (detected env old name newSymbols (ticks w)),
         (detected env old' name newSymbols (ticks w)).
  split; [apply detectNewListings_eq|]. split; [apply detectNewListings_eq|].
  assert (H1 : (symbol <$> detected env old' name newSymbols (ticks w))
               `sublist_of` (symbol <$> detected env old name newSymbols (ticks w))).
  { rewrite !detected_symbols. apply filter_sublist_weaker.
    intros s Hs. apply isNew_true. apply isNew_true in Hs.
    intros (o & Ho & Heq). apply Hs. exists o. split; [apply Hsub, Ho | exact Heq]. }
  assert (H2 : (symbol <$> detected env old name newSymbols (ticks w))
               `sublist_of` newSymbols).
  { rewrite detected_symbols. apply filter_sublist. }
  split; [exact H1|]. split; [exact H2|].
  pose proof (sublist_length _ _ H1) as L1.
  pose proof (sublist_length _ _ H2) as L2.
  rewrite !length_fmap in L1. rewrite length_fmap in L2. lia.
Qed.

Lemma detect_reports_less_as_old_grows_witness :
  exists events events',
    detectNewListings (hostWith market) ["BTCUSDT"]
      ["BTCUSDT"; "ETHUSDT"; "SOLUSDT"] "Binance" (worldOf sampleDisk)
    = (Returned events, advance (length events) (worldOf sampleDisk))
    /\ detectNewListings (hostWith market) ["BTCUSDT"; "SOLUSDT"]
         ["BTCUSDT"; "ETHUSDT"; "SOLUSDT"] "Binance" (worldOf sampleDisk)
       = (Returned events', advance (length events') (worldOf sampleDisk))
    /\ (symbol <$> events') `sublist_of` (symbol <$> events).
Proof.
  destruct (detect_reports_less_as_old_grows (hostWith market) ["BTCUSDT"]
              ["BTCUSDT"; "SOLUSDT"] ["BTCUSDT"; "ETHUSDT"; "SOLUSDT"]
              "Binance" (worldOf sampleDisk))
    as (events & events' & E & E' & Hsub & _).
  - intros o Ho. apply list_elem_of_In in Ho. destruct Ho as [<- | []].
    apply list_elem_of_here.
  - exists events, events'. split; [exact E|]. split; [exact E' | exact Hsub].
Defined.

(** ** More on the normalizer *)

Lemma removeSeparators_append (a b : string) :
  removeSeparators (a +:+ b) = removeSeparators a +:+ removeSeparators b.
Proof.
  induction a as [|c a IH]; [reflexivity|].
  change (String c a +:+ b) with (String c (a +:+ b)).
  cbn [removeSeparators].
  destruct (isSeparator c); [exact IH|].
  change (String c (removeSeparators a) +:+ removeSeparators b)
    with (String c (removeSeparators a +:+ removeSeparators b)).
  rewrite IH. reflexivity.
Qed.

Lemma toUpperCase_append (a b : string) :
  toUpperCase (a +:+ b) = toUpperCase a +:+ toUpperCase b.
Proof.
  induction a as [|c a IH]; [reflexivity|].
  change (String c a +:+ b) with (String c (a +:+ b)).
  cbn [toUpperCase]. rewrite IH. reflexivity.
Qed.

Lemma toUpperCase_length (a : string) :
  String.length (toUpperCase a) = String.length a.
Proof. induction a as [|c a IH]; [reflexivity|]. cbn. rewrite IH. reflexivity. Qed.

Lemma removeSeparators_length (a : string) :
  (String.length (removeSeparators a) <= String.length a)%nat.
Proof.
  induction a as [|c a IH]; [reflexivity|].
  cbn [removeSeparators]. destruct (isSeparator c); cbn [String.length]; lia.
Qed.

(** X5. On symbols written in the 7-bit alphabet, normalizing is
    idempotent, goes through concatenation and never lengthens a symbol;
    so a symbol made of a base and a quote normalizes to the normalized
    base followed by the normalized quote, whatever separator stands
    between them. *)
Theorem normalizeSymbol_algebra (a b : string) :
  sevenBit a = true ->
  sevenBit b = true ->
  normalizeSymbol (normalizeSymbol a) = normalizeSymbol a
  /\ normalizeSymbol (a +:+ b) = normalizeSymbol a +:+ normalizeSymbol b
  /\ (String.length (normalizeSymbol a) <= String.length a)%nat
  /\ normalizeSymbol (a +:+ "-" +:+ b) = normalizeSymbol (a +:+ b)
  /\ normalizeSymbol (a +:+ "_" +:+ b) = normalizeSymbol (a +:+ b)
  /\ normalizeSymbol (a +:+ "/" +:+ b) = normalizeSymbol (a +:+ b).
Proof.
  intros _ _.
  assert (Happ : forall x y,
             normalizeSymbol (x +:+ y) = normalizeSymbol x +:+ normalizeSymbol y).
  { intros x y. unfold normalizeSymbol.
    rewrite removeSeparators_append, toUpperCase_append. reflexivity. }
  split; [apply normalizeSymbol_idempotent|]. split; [apply Happ|].
  split.
  { unfold normalizeSymbol. rewrite toUpperCase_length.
    apply removeSeparators_length. }
  rewrite !Happ. split; [|split]; reflexivity.
Qed.

Lemma normalizeSymbol_algebra_witness :
  normalizeSymbol (normalizeSymbol "btc-usd") = "BTCUSD"
  /\ normalizeSymbol ("btc" +:+ "/" +:+ "usd")
     = normalizeSymbol "btc" +:+ normalizeSymbol "usd".
Proof.
  destruct (normalizeSymbol_algebra "btc-usd" "usd" eq_refl eq_refl)
    as (Hidem & _).
  destruct (normalizeSymbol_algebra "btc" "usd" eq_refl eq_refl)
    as (_ & Happ & _ & _ & _ & Hslash).
  split; [rewrite Hidem; reflexivity|].
  rewrite Hslash. exact Happ.
Defined.

(** ** More on the pruner *)

Lemma filter_filter_stronger {A : Type} (p q : A -> bool) (l : list A) :
  (forall x, x ∈ l -> q x = true -> p x = true) ->
  List.filter q (List.filter p l) = List.filter q l.
Proof.
  intros H. induction l as [|x l IH]; [reflexivity|].
  assert (Hl : forall y, y ∈ l -> q y = true -> p y = true)
    by (intros y Hy; apply H, list_elem_of_further, Hy).
  cbn [List.filter]. destruct (p x) eqn:Hp.
  - cbn [List.filter]. destruct (q x); [f_equal|]; apply IH, Hl.
  - destruct (q x) eqn:Hq; [|apply IH, Hl].
    rewrite (H x (list_elem_of_here x l) Hq) in Hp. discriminate.
Qed.

(** X6. On a host that keeps one offset from UTC pruning composes:
    pruning a list and then pruning the result at the next reading of the
    clock, if the clock has not gone back in between, gives what pruning
    the original list once at the later reading gives, and no more than
    the first pruning kept. *)
Theorem pruning_twice_is_pruning_later (env : Env) (entries : list NewListing)
    (w : World) :
  fixedOffset env ->
  clock env (ticks w) <= clock env (S (ticks w)) ->
  (cleanOldListings env entries ≫= cleanOldListings env) w
  = (Returned (List.filter (withinWindow env (clock env (S (ticks w)))) entries),
     tick (tick w))
  /\ List.filter (withinWindow env (clock env (S (ticks w)))) entries
     `sublist_of` List.filter (withinWindow env (clock env (ticks w))) entries.
Proof.
  intros Hfix Hclock.
  assert (Hweaker : forall l,
             withinWindow env (clock env (S (ticks w))) l = true ->
             withinWindow env (clock env (ticks w)) l = true).
  { intros l Hl. apply withinWindow_true in Hl. destruct Hl as (t & Ht & Hle).
    apply withinWindow_true. exists t. split; [exact Ht | lia]. }
  split.
  - rewrite (bind_returned _ _ _ _ _ (cleanOldListings_fixed env entries w Hfix)).
    rewrite (cleanOldListings_fixed env _ _ Hfix). cbn [ticks tick].
    rewrite filter_filter_stronger; [reflexivity|].
    intros l _. apply Hweaker.
  - apply filter_sublist_weaker, Hweaker.
Qed.

Lemma pruning_twice_is_pruning_later_witness :
  (cleanOldListings (hostWith market) boundaryEntries
     ≫= cleanOldListings (hostWith market)) (worldOf sampleDisk)
  = (Returned [ listedAt "2024-01-02T00:00:00.000Z" ],
     tick (tick (worldOf sampleDisk))).
Proof.
  refine (eq_trans (proj1 (pruning_twice_is_pruning_later (hostWith market)
                             boundaryEntries (worldOf sampleDisk) _ _)) _).
  - exists 0. reflexivity.
  - vm_compute. discriminate.
  - vm_compute. reflexivity.
Defined.

(** ** More on the run *)

(** X7. Fetch failures never fail the process. On a host whose log can
    be written, with a prior snapshot and a prior listing log of the
    declared shape, three documents that can be written and a prior
    status document that can be read, the exit code is 0 even when all
    six fetches fail; the status document then says [failed] and lists
    six errors, one per exchange in the order of the blocks. The exit
    code is 1 exactly when the run throws. *)
Theorem exit_code_ignores_fetch_failures (env : Env) (w : World) :
  ((main env w).1 = 1 <-> exists e, (updateListings env w).1 = Thrown e)
  /\ (healthy env w ->
      (main env w).1 = 0
      /\ ((forall ex, fetchFailed env ex = true) ->
          exists report,
            stored (statusFile (disk (main env w).2)) = Parsed report
            /\ status report = failed
            /\ errors report = failures env
            /\ length (errors report) = 6%nat)).
Proof.
  split.
  { unfold main. destruct (updateListings env w) as [[u|e] w']; cbn.
    - split; [discriminate | intros (e & He); discriminate].
    - split; [intros _; exists e; reflexivity | reflexivity]. }
  intros Hw. destruct (run_healthy env w Hw) as (w' & E).
  unfold main. rewrite E. cbn [fst snd]. split; [reflexivity|].
  intros Hall.
  destruct (run_returned env w w' E)
    as (old & prior & snapshot & log & report & k & found
        & _ & _ & _ & _ & Hs & _ & _ & _ & _ & He & Ht & _).
  assert (Hsix : length (failures env) = 6%nat).
  { apply failures_all. intros ex. specialize (Hall ex).
    unfold fetchFailed in Hall. unfold blockFailed.
    destruct (network env ex); [discriminate | reflexivity | reflexivity]. }
  exists report. split; [exact Hs|]. split.
  - rewrite Ht, Hsix. reflexivity.
  - split; [exact He|]. rewrite He. exact Hsix.
Qed.

Lemma exit_code_ignores_fetch_failures_witness :
  (main (hostWith allDown) (worldOf sampleDisk)).1 = 0
  /\ exists report,
       stored (statusFile (disk (main (hostWith allDown)
                                   (worldOf sampleDisk)).2)) = Parsed report
       /\ status report = failed
       /\ length (errors report) = 6%nat.
Proof.
  destruct (proj2 (exit_code_ignores_fetch_failures (hostWith allDown)
                     (worldOf sampleDisk))) as [Hcode Hall].
  - unfold healthy. cbn.
    split; [reflexivity|].
    split; [eexists; reflexivity|]. split; [eexists; reflexivity|].
    split; [reflexivity|]. split; [reflexivity|]. split; [reflexivity|].
    right. eexists. reflexivity.
  - split; [exact Hcode|].
    destruct Hall as (report & Hs & Ht & _ & Hl).
    + intros ex. destruct ex; reflexivity.
    + exists report. split; [exact Hs|]. split; assumption.
Defined.

Section Origins.

Context (env : Env).

Lemma elem_of_found (old : Exchanges) (at_ : Exchange -> nat) (l : NewListing) :
  l ∈ concat ((fun ex => foundOf env old ex (at_ ex)) <$> EXCHANGES) ->
  exists ex symbols i,
    network env ex = Listed symbols
    /\ exchange l = exchangeName ex
    /\ symbol l ∈ symbols
    /\ isNew (exchangeSymbols ex old) (symbol l) = true
    /\ (i < length (foundOf env old ex (at_ ex)))%nat
    /\ detectedAt l = JSDate.toISOString (clock env (at_ ex + i)).
Proof.
  intros Hl. apply list_elem_of_In, in_concat in Hl.
  destruct Hl as (evs & Hevs & Hin).
  apply list_elem_of_In, list_elem_of_fmap in Hevs.
  destruct Hevs as (ex & -> & _).
  apply list_elem_of_In in Hin. revert Hin. unfold foundOf.
  destruct (network env ex) as [symbols|e|before e rest] eqn:Hn; intros Hin.
  - destruct (elem_of_detected env _ _ _ _ _ Hin) as (H1 & H2 & H3 & i & H4 & H5).
    exists ex, symbols, i. rewrite Hn. auto 10.
  - apply elem_of_nil in Hin. destruct Hin.
  - apply elem_of_nil in Hin. destruct Hin.
Qed.


End Origins.

(** X8. A run that returns invents no listing: every entry of the log it
    writes is an entry of the log it read, or an event for a symbol that
    one of the six exchanges returned in this run and that is new with
    respect to the snapshot the run read, carrying that exchange's name
    and a stamp read from the clock during the run. An exchange whose
    fetch failed contributes no event. *)
Theorem logged_entries_have_an_origin (env : Env) (w w' : World) :
  updateListings env w = (Returned tt, w') ->
  exists (old : ExchangeListings) (prior log : NewListingsData),
    stored (cexListingsFile (disk w)) = Parsed old
    /\ stored (newListingsFile (disk w)) = Parsed prior
    /\ stored (newListingsFile (disk w')) = Parsed log
    /\ forall l,
         l ∈ listings log ->
         l ∈ listings prior
         \/ exists ex symbols n,
              network env ex = Listed symbols
              /\ exchange l = exchangeName ex
              /\ symbol l ∈ symbols
              /\ isNew (exchangeSymbols ex (exchanges old)) (symbol l) = true
              /\ (ticks w <= n < ticks w')%nat
              /\ detectedAt l = JSDate.toISOString (clock env n).
Proof.
  intros E.
  destruct (run_traced env w w' E)
    as (old & prior & log & at_ & k & Ho & Hp & Hl & Hat & Hk & Hlog).
  exists old, prior, log. split; [exact Ho|]. split; [exact Hp|].
  split; [exact Hl|].
  intros l Hin. rewrite Hlog in Hin. apply elem_of_kept in Hin.
  destruct Hin as [Hin _]. apply elem_of_app in Hin.
  destruct Hin as [Hin | Hin]; [left; exact Hin | right].
  destruct (elem_of_found env _ _ _ Hin)
    as (ex & symbols & i & Hn & Hx & Hs & Hnew & Hi & Hstamp).
  exists ex, symbols, (at_ ex + i)%nat.
  destruct (Hat ex) as [Hlo Hhi].
  split; [exact Hn|]. split; [exact Hx|]. split; [exact Hs|].
  split; [exact Hnew|]. split; [lia | exact Hstamp].
Qed.

Lemma logged_entries_have_an_origin_witness :
  exists w' log,
    updateListings (hostWith market) (worldOf sampleDisk) = (Returned tt, w')
    /\ stored (newListingsFile (disk w')) = Parsed log
    /\ forall l,
         l ∈ listings log ->
         l ∈ listings sampleLog
         \/ exists ex symbols,
              market ex = Listed symbols /\ exchange l = exchangeName ex
              /\ symbol l ∈ symbols.
Proof.
  destruct (updateListings (hostWith market) (worldOf sampleDisk))
    as [o w'] eqn:E.
  assert (Ho : o = Returned tt)
    by (apply (f_equal fst) in E; vm_compute in E; symmetry; exact E).
  subst o.
  destruct (logged_entries_have_an_origin (hostWith market)
              (worldOf sampleDisk) w' E)
    as (old & prior & log & _ & Hp & Hl & Horigin).
  injection Hp as <-.
  exists w', log. split; [reflexivity|]. split; [exact Hl|].
  intros l Hin. destruct (Horigin l Hin) as [Hprior | Hnew]; [left; exact Hprior|].
  destruct Hnew as (ex & symbols & n & Hn & Hx & Hs & _).
  right. exists ex, symbols. split; [exact Hn|]. split; assumption.
Defined.

Lemma Exchanges_ext (a b : Exchanges) :
  (forall ex, exchangeSymbols ex a = exchangeSymbols ex b) -> a = b.
Proof.
  intros H. destruct a, b.
  pose proof (H Binance) as H1. pose proof (H Coinbase) as H2.
  pose proof (H Bybit) as H3. pose proof (H Upbit) as H4.
  pose proof (H OKX) as H5. pose proof (H Kraken) as H6.
  cbn in H1, H2, H3, H4, H5, H6. congruence.
Qed.

Lemma detected_nothing_against_itself (env : Env) (symbols : list string)
    (name : string) (n : nat) :
  detected env symbols name symbols n = [].
Proof.
  apply detected_nil. intros s Hs. apply isNew_false.
  exists s. split; [exact Hs | reflexivity].
Qed.

(** X9. Running again changes nothing the exchanges did not change: when
    a run has returned with no error in its status document and a second
    run gets the same reply from every exchange, the second run detects
    no listing, so the log it writes is the first run's log pruned once
    more, and the lists of its snapshot are those of the first run's
    snapshot. *)
Theorem second_run_detects_nothing (env env' : Env) (w w1 w2 : World)
    (report1 : StatusData) :
  updateListings env w = (Returned tt, w1) ->
  stored (statusFile (disk w1)) = Parsed report1 ->
  errors report1 = [] ->
  updateListings env' w1 = (Returned tt, w2) ->
  (forall ex, network env' ex = network env ex) ->
  exists (snapshot1 snapshot2 : ExchangeListings) (log1 log2 : NewListingsData)
         (k : nat),
    stored (cexListingsFile (disk w1)) = Parsed snapshot1
    /\ stored (cexListingsFile (disk w2)) = Parsed snapshot2
    /\ stored (newListingsFile (disk w1)) = Parsed log1
    /\ stored (newListingsFile (disk w2)) = Parsed log2
    /\ exchanges snapshot2 = exchanges snapshot1
    /\ (ticks w1 <= k < ticks w2)%nat
    /\ listings log2
       = List.filter (notBefore env' (cutoffOf env' (clock env' k)))
           (listings log1)
    /\ listings log2 `sublist_of` listings log1.
Proof.
  intros E1 _ _ E2 Hsame.
  destruct (run_returned env w w1 E1)
    as (old & prior & snapshot1 & log1 & report1' & k1 & found1
        & _ & _ & Hs1 & Hl1 & _ & Hcar1 & _).
  destruct (run_returned env' w1 w2 E2)
    as (old2 & prior2 & snapshot2 & log2 & report2 & k2 & found2
        & Ho2 & _ & Hs2 & Hl2 & _ & Hcar2 & _).
  destruct (run_traced env' w1 w2 E2)
    as (old3 & prior3 & log3 & at_ & k & Ho3 & Hp3 & Hl3 & Hat & Hk & Hlog).
  rewrite Hs1 in Ho2, Ho3. injection Ho2 as <-. injection Ho3 as <-.
  rewrite Hl1 in Hp3. injection Hp3 as <-.
  rewrite Hl2 in Hl3. injection Hl3 as <-.
  assert (Hnone : forall ex n, foundOf env' (exchanges snapshot1) ex n = []).
  { intros ex n. unfold foundOf. rewrite Hsame.
    destruct (network env ex) as [symbols|e|before e rest] eqn:Hn;
      [|reflexivity|reflexivity].
    rewrite Hcar1. unfold carried. rewrite Hn.
    apply detected_nothing_against_itself. }
  assert (Hfound : concat ((fun ex => foundOf env' (exchanges snapshot1) ex (at_ ex))
                             <$> EXCHANGES) = []).
  { unfold EXCHANGES. cbn [fmap list_fmap concat]. rewrite !Hnone. reflexivity. }
  rewrite Hfound, app_nil_r in Hlog.
  exists snapshot1, snapshot2, log1, log2, k.
  split; [exact Hs1|]. split; [exact Hs2|]. split; [exact Hl1|].
  split; [exact Hl2|]. split.
  { apply Exchanges_ext. intros ex. rewrite Hcar2. unfold carried.
    rewrite Hsame.
    destruct (network env ex) as [symbols|e|before e rest] eqn:Hn;
      [|reflexivity|reflexivity].
    rewrite Hcar1. unfold carried. rewrite Hn. reflexivity. }
  split; [destruct (Hat Binance); lia|]. split; [exact Hlog|].
  rewrite Hlog. apply kept_sublist.
Qed.

Lemma second_run_detects_nothing_witness :
  exists w1 w2 log1 log2,
    updateListings (hostWith allUp) (worldOf sampleDisk) = (Returned tt, w1)
    /\ updateListings (hostWith allUp) w1 = (Returned tt, w2)
    /\ stored (newListingsFile (disk w1)) = Parsed log1
    /\ stored (newListingsFile (disk w2)) = Parsed log2
    /\ listings log2 `sublist_of` listings log1.
Proof.
  destruct (updateListings (hostWith allUp) (worldOf sampleDisk))
    as [o1 w1] eqn:E1.
  assert (Ho1 : o1 = Returned tt)
    by (apply (f_equal fst) in E1; vm_compute in E1; symmetry; exact E1).
  subst o1.
  assert (Hr1 : exists report1,
             stored (statusFile (disk w1)) = Parsed report1
             /\ errors report1 = []).
  { apply (f_equal snd) in E1. cbn [snd] in E1. rewrite <- E1.
    eexists. split; vm_compute; reflexivity. }
  destruct Hr1 as (report1 & Hr1 & He1).
  destruct (updateListings (hostWith allUp) w1) as [o2 w2] eqn:E2.
  assert (Ho2 : o2 = Returned tt).
  { apply (f_equal fst) in E2. cbn [fst] in E2. rewrite <- E2.
    apply (f_equal snd) in E1. cbn [snd] in E1. rewrite <- E1.
    vm_compute. reflexivity. }
  subst o2.
  destruct (second_run_detects_nothing (hostWith allUp) (hostWith allUp)
              (worldOf sampleDisk) w1 w2 report1 E1 Hr1 He1 E2
              (fun ex => eq_refl))
    as (s1 & s2 & log1 & log2 & k & _ & _ & Hl1 & Hl2 & _ & _ & _ & Hsub).
  exists w1, w2, log1, log2.
  split; [reflexivity|]. split; [exact E2|]. split; [exact Hl1|].
  split; [exact Hl2 | exact Hsub].
Defined.







(** ** Writes that fail *)

Section Faults.

Context (env : Env) `{!LogWritable env}.

Lemma wp_any {A : Type} (m : M A) (w : World)
    (Q : Outcome A -> World -> Prop) :
  (forall o w', Q o w') -> wp m w Q.
Proof. intros H. apply H. Qed.

Ltac fault_step D :=
  apply wp_bind, wp_updateExchange;
  let w' := fresh "w" in
  let D' := fresh "D" in
  intros w' ? D' _ _;
  rewrite D in D'; clear D.

Lemma updateListings_faults (w : World) :
  wp (updateListings env) w (FaultPost w).
Proof.
  unfold updateListings.
  apply wp_bind, wp_nowISO, wp_bind, wp_modify.
  apply wp_bind, wp_writeLog. intros w1 (D1 & _ & _) _.
  apply wp_bind, wp_writeLog. intros w2 (D2 & _ & _) _.
  apply wp_bind, wp_writeLog. intros w3 (D3 & _ & _) _.
  cbn in D1. rewrite D2, D1 in D3. clear D1 D2 w1 w2.
  apply wp_tryCatch.
  apply wp_bind, wp_readJSON. cbn [fileAt FILES_cexListings]. rewrite D3.
  destruct (stored (cexListingsFile (disk w))) as [old|e0] eqn:Ecex.
  2:{ apply wp_onFailure. intros e' w1 Hc Hn _ _. rewrite D3 in Hc, Hn.
      split; intros fault Hf.
      - split; [exact Hn|]. split; [intros; exact Hc|]. intros; congruence.
      - split; [intros; exact Hn|]. intros; congruence. }
  apply wp_bind, wp_readJSON. cbn [fileAt FILES_newListings]. rewrite D3.
  destruct (stored (newListingsFile (disk w))) as [prior|e0] eqn:Enew.
  2:{ apply wp_onFailure. intros e' w1 Hc Hn _ _. rewrite D3 in Hc, Hn.
      split; intros fault Hf.
      - split; [exact Hn|]. split; [intros; exact Hc|]. intros; congruence.
      - split; [intros; exact Hn|]. intros; congruence. }
  apply wp_bind, wp_modify, wp_bind, wp_modify.
  set (w4 := withAllNewListings [] (withResults ∅ w3)).
  assert (D4 : disk w4 = disk w) by exact D3.
  clearbody w4. clear D3 w3.
  fault_step D4. fault_step D. fault_step D0.
  fault_step D. fault_step D0. fault_step D.
  apply wp_bind, wp_inspect, wp_bind, wp_nowISO, wp_bind, wp_writeJSON.
  cbn [fileAt FILES_cexListings disk tick]. rewrite D0.
  destruct (writeFault (cexListingsFile (disk w))) as [[e1|e1 damage]|] eqn:Fcex.
  { apply wp_onFailure. intros e' wf Hc Hn _ Hs. cbn [disk tick] in Hc, Hn, Hs.
    rewrite D0 in Hc, Hn, Hs.
    split; intros fault Hf.
    - rewrite Fcex in Hf. injection Hf as <-.
      split; [exact Hn|]. split; [intros; exact Hc|].
      intros old' prior' before _ _ Hb Hw.
      destruct (Hs before Hb Hw) as [-> _].
      split; [reflexivity | intros; discriminate].
    - split; [intros; exact Hn|]. intros; congruence. }
  { apply wp_onFailure. intros e' wf Hc Hn _ Hs.
    cbn [disk tick withDisk putFile FILES_cexListings cexListingsFile
         newListingsFile statusFile] in Hc, Hn, Hs.
    split; intros fault Hf.
    - rewrite Fcex in Hf. injection Hf as <-.
      split; [exact Hn|]. split; [intros; discriminate|].
      intros old' prior' before _ _ Hb Hw.
      destruct (Hs before Hb Hw) as [-> _].
      split; [reflexivity|]. intros e d [= <- <-]. rewrite Hc. reflexivity.
    - split; [intros; exact Hn|]. intros; congruence. }
  apply wp_bind, wp_inspect, wp_bind, wp_cleanOldListings.
  apply wp_bind, wp_nowISO, wp_bind, wp_writeJSON.
  cbn [fileAt FILES_newListings FILES_cexListings putFile disk tick withDisk
       newListingsFile].
  destruct (writeFault (newListingsFile (disk w))) as [[e2|e2 damage]|] eqn:Fnew.
  { apply wp_onFailure. intros e' wf Hc Hn _ Hs.
    cbn [disk tick withDisk putFile FILES_cexListings newListingsFile
         statusFile] in Hc, Hn, Hs.
    split; intros fault Hf; [rewrite Fcex in Hf; discriminate|].
    rewrite Fnew in Hf. injection Hf as <-. split; [intros; exact Hn|].
    intros old' prior' before _ _ _ Hb Hw.
    destruct (Hs before Hb Hw) as [-> _].
    split; [reflexivity | intros; discriminate]. }
  { apply wp_onFailure. intros e' wf Hc Hn _ Hs.
    cbn [disk tick withDisk putFile FILES_cexListings FILES_newListings
         newListingsFile statusFile] in Hc, Hn, Hs.
    split; intros fault Hf; [rewrite Fcex in Hf; discriminate|].
    rewrite Fnew in Hf. injection Hf as <-. split; [intros; discriminate|].
    intros old' prior' before _ _ _ Hb Hw.
    destruct (Hs before Hb Hw) as [-> _].
    split; [reflexivity|]. intros e d [= <- <-]. rewrite Hn. reflexivity. }
  assert (Hnone : forall o w', FaultPost w o w')
    by (intros o w'; split; intros e Hf; congruence).
  apply wp_any. intros [u|e] w'; [apply Hnone | apply wp_any, Hnone].
Qed.

End Faults.

Arguments updateListings_faults {env _} w.

Lemma main_of_unhealthy (env : Env) (w : World) :
  ~ healthy env w -> (main env w).1 = 1.
Proof.
  intros Hw. unfold main.
  destruct (updateListings env w) as [[[]|e] w'] eqn:E; [|reflexivity].
  destruct Hw. exact (run_returned_healthy env w w' E).
Qed.

(** X11. A run returns only when every step has succeeded: the log can
    be written, the snapshot and the listing log load, all three
    documents can be written and, when a block has failed, the status
    document loads. So the exit code is 0 only then, and it is 1 as soon
    as one of these fails. *)
Theorem run_returns_only_if_healthy (env : Env) (w : World) :
  ((exists w', updateListings env w = (Returned tt, w')) -> healthy env w)
  /\ ((main env w).1 = 0 -> healthy env w)
  /\ (~ healthy env w -> (main env w).1 = 1).
Proof.
  assert (H : (exists w', updateListings env w = (Returned tt, w'))
              -> healthy env w).
  { intros (w' & E); exact (run_returned_healthy env w w' E). }
  split; [exact H|]. split; [|apply main_of_unhealthy].
  intros Hcode. apply H. unfold main in Hcode.
  destruct (updateListings env w) as [[[]|e] w']; cbn [fst] in Hcode.
  - exists w'. reflexivity.
  - discriminate Hcode.
Qed.

Lemma run_returns_only_if_healthy_witness :
  healthy (hostWith market) (worldOf sampleDisk)
  /\ (main (hostWith market) (worldOf brokenSnapshotDisk)).1 = 1
  /\ (main (muteHost market) (worldOf sampleDisk)).1 = 1.
Proof.
  split; [|split].
  - apply (proj1 (run_returns_only_if_healthy (hostWith market)
                    (worldOf sampleDisk))).
    eexists. vm_compute. reflexivity.
  - apply (proj2 (proj2 (run_returns_only_if_healthy (hostWith market)
                           (worldOf brokenSnapshotDisk)))).
    intros (_ & (old & Ho) & _). discriminate Ho.
  - apply (proj2 (proj2 (run_returns_only_if_healthy (muteHost market)
                           (worldOf sampleDisk)))).
    intros (Hlog & _). discriminate Hlog.
Defined.

(** X12. When the snapshot document cannot be written, on a host whose
    log can be written, the run leaves the listing log as it was and the
    exit code is 1; with the documents readable and the status document
    writable, what the run throws is the error of the write. When the
    write fails as the file is opened, the snapshot is left as it was
    too; when it fails after the file has been truncated, the prior
    snapshot is lost: what is left does not parse. *)
Theorem snapshot_write_failure_spares_the_log (env : Env) (w : World)
    (fault : WriteFault) :
  logFault env = None ->
  writeFault (cexListingsFile (disk w)) = Some fault ->
  newListingsFile (disk (updateListings env w).2) = newListingsFile (disk w)
  /\ (main env w).1 = 1
  /\ (forall error,
        fault = FailsAtOpen error ->
        cexListingsFile (disk (updateListings env w).2)
        = cexListingsFile (disk w))
  /\ forall old prior before,
       stored (cexListingsFile (disk w)) = Parsed old ->
       stored (newListingsFile (disk w)) = Parsed prior ->
       stored (statusFile (disk w)) = Parsed before ->
       writeFault (statusFile (disk w)) = None ->
       (updateListings env w).1 = Thrown (writeError fault)
       /\ stored (statusFile (disk (updateListings env w).2))
          = Parsed (fatalStatus env w before (writeError fault))
       /\ forall error damage,
            fault = FailsAtWrite error damage ->
            stored (cexListingsFile (disk (updateListings env w).2))
            = Unreadable damage.
Proof.
  intros Hlog Hf.
  destruct (@updateListings_faults env Hlog w) as [H _].
  destruct (H fault Hf) as (Hn & Hc & Ho).
  split; [exact Hn|]. split.
  { apply main_of_unhealthy. intros (_ & _ & _ & Hw & _). congruence. }
  split; [exact Hc|].
  intros old prior before Eo Ep Eb Ew.
  destruct (Ho old prior before Eo Ep Eb Ew) as [Hthrown Hlost].
  split; [exact Hthrown|]. split; [|exact Hlost].
  apply (run_thrown env w _ _ before Hlog); [|exact Eb | exact Ew].
  rewrite <- Hthrown. destruct (updateListings env w); reflexivity.
Qed.

Lemma snapshot_write_failure_spares_the_log_witness :
  (cexListingsFile (disk (updateListings (hostWith market)
                            (worldOf readOnlySnapshotDisk)).2)
   = cexListingsFile readOnlySnapshotDisk
   /\ newListingsFile (disk (updateListings (hostWith market)
                               (worldOf readOnlySnapshotDisk)).2)
      = newListingsFile readOnlySnapshotDisk
   /\ (main (hostWith market) (worldOf readOnlySnapshotDisk)).1 = 1)
  /\ stored (cexListingsFile (disk (updateListings (hostWith market)
                                      (worldOf fullSnapshotDisk)).2))
     = Unreadable "SyntaxError: Unexpected end of JSON input"
  /\ newListingsFile (disk (updateListings (hostWith market)
                              (worldOf fullSnapshotDisk)).2)
     = newListingsFile fullSnapshotDisk.
Proof.
  split.
  - destruct (snapshot_write_failure_spares_the_log (hostWith market)
                (worldOf readOnlySnapshotDisk)
                (FailsAtOpen "Error: EACCES: permission denied, open")
                eq_refl eq_refl)
      as (Hn & Hcode & Hc & _).
    split; [exact (Hc _ eq_refl)|]. split; [exact Hn | exact Hcode].
  - destruct (snapshot_write_failure_spares_the_log (hostWith market)
                (worldOf fullSnapshotDisk)
                (FailsAtWrite "Error: ENOSPC: no space left on device, write"
                   "SyntaxError: Unexpected end of JSON input")
                eq_refl eq_refl)
      as (Hn & _ & _ & Hrun).
    split; [|exact Hn].
    destruct (Hrun sampleSnapshot sampleLog sampleStatus
                eq_refl eq_refl eq_refl eq_refl) as (_ & _ & Hlost).
    exact (Hlost _ _ eq_refl).
Defined.

(** X13. The snapshot and the listing log are not written together: on a
    host whose log can be written, when the documents load and the
    snapshot can be written but the listing log cannot, the run fails
    with exit code 1 after the snapshot has been replaced. What the run
    detected is then in the snapshot and not in the log, which is left as
    it was when the write fails as the file is opened, and does not parse
    any more when it fails after the file has been truncated. *)
Theorem log_write_failure_keeps_new_snapshot (env : Env) (w : World)
    (old : ExchangeListings) (prior : NewListingsData) (fault : WriteFault) :
  logFault env = None ->
  stored (cexListingsFile (disk w)) = Parsed old ->
  stored (newListingsFile (disk w)) = Parsed prior ->
  writeFault (cexListingsFile (disk w)) = None ->
  writeFault (newListingsFile (disk w)) = Some fault ->
  (main env w).1 = 1
  /\ (forall error,
        fault = FailsAtOpen error ->
        newListingsFile (disk (updateListings env w).2)
        = newListingsFile (disk w))
  /\ (exists snapshot,
        stored (cexListingsFile (disk (updateListings env w).2))
        = Parsed snapshot
        /\ forall ex, exchangeSymbols ex (exchanges snapshot)
                      = carried env (exchanges old) ex)
  /\ forall before,
       stored (statusFile (disk w)) = Parsed before ->
       writeFault (statusFile (disk w)) = None ->
       (updateListings env w).1 = Thrown (writeError fault)
       /\ forall error damage,
            fault = FailsAtWrite error damage ->
            stored (newListingsFile (disk (updateListings env w).2))
            = Unreadable damage.
Proof.
  intros Hlog Eo Ep Fc Fn.
  destruct (@updateListings_faults env Hlog w) as [_ H].
  destruct (H fault Fn) as (Hn & Ho).
  split.
  { apply main_of_unhealthy. intros (_ & _ & _ & _ & Hw & _). congruence. }
  split; [exact Hn|]. split.
  { destruct (run_snapshot env w old prior Hlog Eo Ep Fc)
      as (snapshot & Hs & Hcar & _).
    exists snapshot. split; [exact Hs | exact Hcar]. }
  intros before Eb Ew. exact (Ho old prior before Eo Ep Fc Eb Ew).
Qed.

Lemma log_write_failure_keeps_new_snapshot_witness :
  (main (hostWith market) (worldOf readOnlyLogDisk)).1 = 1
  /\ newListingsFile (disk (updateListings (hostWith market)
                              (worldOf readOnlyLogDisk)).2)
     = newListingsFile readOnlyLogDisk
  /\ exists snapshot,
       stored (cexListingsFile (disk (updateListings (hostWith market)
                                        (worldOf readOnlyLogDisk)).2))
       = Parsed snapshot
       /\ binance (exchanges snapshot) = ["BTCUSDT"; "ETHUSDT"].
Proof.
  destruct (log_write_failure_keeps_new_snapshot (hostWith market)
              (worldOf readOnlyLogDisk) sampleSnapshot sampleLog
              (FailsAtOpen "Error: EACCES: permission denied, open")
              eq_refl eq_refl eq_refl eq_refl eq_refl)
    as (Hcode & Hn & (snapshot & Hs & Hcar) & _).
  split; [exact Hcode|]. split; [exact (Hn _ eq_refl)|].
  exists snapshot. split; [exact Hs|]. exact (Hcar Binance).
Defined.

(** ** The replies of the exchanges *)

Module WireFacts.
Import Wire.

Lemma get_present (v : JSValue) (k : Key) :
  present v = true -> get v k = Normal (valueOf k v).
Proof. destruct v; cbn; intros H; first [discriminate H | reflexivity]. Qed.

Lemma get_absent (v : JSValue) (k : Key) :
  present v = false -> get v k = Abrupt (TypeError (CannotRead (keyName k))).
Proof. destruct v; cbn; intros H; first [discriminate H | reflexivity]. Qed.

Lemma get_normal (v : JSValue) (k : Key) (x : JSValue) :
  get v k = Normal x -> present v = true /\ x = valueOf k v.
Proof.
  destruct v; cbn; intros H; try discriminate H;
    injection H as <-; split; reflexivity.
Qed.

Lemma get_array (v : JSValue) (k : Key) (items : list JSValue) :
  get v k = Normal (JArray items) -> truthy v = true.
Proof. destruct v; cbn; intros H; try discriminate H. reflexivity. Qed.

Lemma filterItems_normal (callback : JSValue -> Completion bool)
    (p : JSValue -> bool) (items : list JSValue) :
  Forall (fun item => callback item = Normal (p item)) items ->
  filterItems callback items = Normal (List.filter p items).
Proof.
  induction 1 as [|item rest Hitem _ IH]; [reflexivity|].
  cbn [filterItems List.filter]. rewrite Hitem. cbn. rewrite IH. cbn.
  destruct (p item); reflexivity.
Qed.

Lemma filterItems_abrupt (callback : JSValue -> Completion bool)
    (items : list JSValue) :
  Exists (fun item => exists e, callback item = Abrupt e) items ->
  exists item e,
    item ∈ items /\ callback item = Abrupt e
    /\ filterItems callback items = Abrupt e.
Proof.
  induction items as [|item rest IH]; intros H; [inversion H|].
  cbn [filterItems]. destruct (callback item) as [keep|e] eqn:Hitem.
  - apply Exists_cons in H. destruct H as [(e & He) | H]; [congruence|].
    destruct (IH H) as (item' & e & Hin & He & Hf).
    exists item', e. split; [apply list_elem_of_further, Hin|].
    split; [exact He|]. cbn. rewrite Hf. reflexivity.
  - exists item, e. split; [apply list_elem_of_here|].
    split; [exact Hitem | reflexivity].
Qed.

Lemma filterItems_kept (callback : JSValue -> Completion bool)
    (items kept : list JSValue) :
  filterItems callback items = Normal kept ->
  Forall (fun item => callback item = Normal true) kept
  /\ kept `sublist_of` items.
Proof.
  revert kept. induction items as [|item rest IH]; intros kept H.
  - injection H as <-. split; constructor.
  - cbn [filterItems] in H.
    destruct (callback item) as [keep|e] eqn:Hitem; [|discriminate H].
    cbn in H.
    destruct (filterItems callback rest) as [kept'|e]; [|discriminate H].
    destruct (IH kept' eq_refl) as [Hall Hsub].
    cbn in H. injection H as <-. destruct keep.
    + split; [constructor; assumption | apply sublist_skip, Hsub].
    + split; [exact Hall | apply sublist_cons, Hsub].
Qed.

Lemma mapItems_normal (callback : JSValue -> Completion JSValue)
    (f : JSValue -> JSValue) (items : list JSValue) :
  Forall (fun item => callback item = Normal (f item)) items ->
  mapItems callback items = Normal (f <$> items).
Proof.
  induction 1 as [|item rest Hitem _ IH]; [reflexivity|].
  cbn [mapItems]. rewrite Hitem. cbn. rewrite IH. reflexivity.
Qed.

Lemma marked_present (flag : Key) (literal : string) (v : JSValue) :
  marked flag literal v = true -> present v = true.
Proof. destruct v; cbn; first [discriminate | reflexivity]. Qed.

Lemma select_present (items : list JSValue) (flag : Key) (literal : string)
    (name : Key) :
  Forall (fun item => present item = true) items ->
  select (JArray items) flag literal name
  = Normal (valueOf name <$> List.filter (marked flag literal) items).
Proof.
  intros H. unfold select. cbn [filter].
  rewrite (filterItems_normal _ (marked flag literal)).
  - cbn. apply mapItems_normal. apply Forall_forall. intros item Hin.
    apply get_present.
    apply list_elem_of_In, filter_In in Hin. destruct Hin as [_ Hm].
    exact (marked_present _ _ _ Hm).
  - eapply Forall_impl; [exact H|]. intros item Hp. cbv beta.
    rewrite (get_present _ _ Hp). reflexivity.
Qed.

Lemma select_absent (items : list JSValue) (flag : Key) (literal : string)
    (name : Key) :
  Exists (fun item => present item = false) items ->
  select (JArray items) flag literal name
  = Abrupt (TypeError (CannotRead (keyName flag))).
Proof.
  intros H. unfold select. cbn [filter].
  destruct (filterItems_abrupt
              (fun p => v ← get p flag; Normal (strictEquals v literal)) items)
    as (item & e & _ & He & ->).
  - eapply Exists_impl; [exact H|]. intros item Hp. cbv beta.
    rewrite (get_absent _ _ Hp). eexists. reflexivity.
  - cbn. f_equal. revert He. destruct item; cbn; congruence.
Qed.



Lemma get_typeError (v : JSValue) (k : Key) (e : JSError) :
  get v k = Abrupt e -> exists f, e = TypeError f.
Proof. destruct v; cbn; intros [= <-]; eexists; reflexivity. Qed.


Lemma upbit_callback (m : JSValue) (c : Completion bool) :
  (market ← get m k_market;
   if truthy market then startsWith market "KRW-" else Normal false) = c ->
  match c with
  | Normal true =>
      exists s, get m k_market = Normal (JString s)
                /\ String.prefix "KRW-" s = true
  | Normal false => True
  | Abrupt e => exists f, e = TypeError f
  end.
Proof.
  intros <-. destruct (get m k_market) as [market|e] eqn:Hg; cbn.
  - destruct market as [| |b|nz|s|items|properties]; cbn; try exact I;
      try (eexists; reflexivity).
    + destruct b; cbn; [eexists; reflexivity | exact I].
    + destruct nz; cbn; [eexists; reflexivity | exact I].
    + destruct (bool_decide (s = "")); cbn; [exact I|].
      destruct (String.prefix "KRW-" s) eqn:Hp; [|exact I].
      exists s. split; [reflexivity | exact Hp].
  - exact (get_typeError _ _ _ Hg).
Qed.

Lemma ownKeys_plain (properties : list (string * JSValue)) :
  Forall (fun p => arrayIndex p.1 = None) properties ->
  ownKeys properties = properties.*1.
Proof.
  intros H. unfold ownKeys.
  assert (Hall : List.filter (fun name => bool_decide (arrayIndex name = None))
                   properties.*1 = properties.*1).
  { induction H as [|p rest Hp _ IH]; [reflexivity|].
    cbn. rewrite Hp. cbn. rewrite IH. reflexivity. }
  assert (Hnone : omap arrayIndex properties.*1 = []).
  { induction H as [|p rest Hp _ IH]; [reflexivity|].
    cbn. rewrite Hp. apply IH. cbn in Hall. rewrite Hp in Hall. cbn in Hall.
    congruence. }
  rewrite Hnone, Hall. reflexivity.
Qed.

Lemma mapM_asString (symbols : list string) :
  mapM asString (JString <$> symbols) = Some symbols.
Proof.
  induction symbols as [|s rest IH]; [reflexivity|].
  cbn. cbn in IH. rewrite IH. reflexivity.
Qed.


End WireFacts.

(** X15. With a list of pairs none of which is [null], [fetchBinance],
    [fetchCoinbase], [fetchBybit] and [fetchOKX] return, in the order of
    the list, the name of every pair whose flag is exactly the literal
    of that exchange and of no other pair; reading the names never
    throws, and a pair without a name gives [undefined]. *)
Theorem fetchers_list_the_marked_entries (items : list Wire.JSValue) :
  Forall (fun item => Wire.present item = true) items ->
  (forall data,
      Wire.get data Wire.k_symbols = Wire.Normal (Wire.JArray items) ->
      Wire.fetchBinance data
      = Wire.Normal (Wire.valueOf Wire.k_symbol
                       <$> List.filter (Wire.marked Wire.k_status "TRADING")
                             items))
  /\ Wire.fetchCoinbase (Wire.JArray items)
     = Wire.Normal (Wire.valueOf Wire.k_id
                      <$> List.filter (Wire.marked Wire.k_status "online")
                            items)
  /\ (forall data result,
        Wire.get data Wire.k_result = Wire.Normal result ->
        Wire.get result Wire.k_list = Wire.Normal (Wire.JArray items) ->
        Wire.fetchBybit data
        = Wire.Normal (Wire.valueOf Wire.k_symbol
                         <$> List.filter (Wire.marked Wire.k_status "Trading")
                               items))
  /\ (forall data,
        Wire.get data Wire.k_data = Wire.Normal (Wire.JArray items) ->
        Wire.fetchOKX data
        = Wire.Normal (Wire.valueOf Wire.k_instId
                         <$> List.filter (Wire.marked Wire.k_state "live")
                               items)).
Proof.
  intros Hitems. split; [|split; [|split]].
  - intros data Hg. unfold Wire.fetchBinance. rewrite Hg. cbn.
    apply WireFacts.select_present, Hitems.
  - unfold Wire.fetchCoinbase. cbn.
    apply WireFacts.select_present, Hitems.
  - intros data result Hr Hl. unfold Wire.fetchBybit. rewrite Hr. cbn.
    rewrite (WireFacts.get_array _ _ _ Hl). cbn. rewrite Hl. cbn.
    apply WireFacts.select_present, Hitems.
  - intros data Hg. unfold Wire.fetchOKX. rewrite Hg. cbn.
    apply WireFacts.select_present, Hitems.
Qed.

Lemma fetchers_list_the_marked_entries_witness :
  Wire.fetchBinance Wire.sampleBody
  = Wire.Normal [Wire.JString "BTCUSDT"; Wire.JString "ETHUSDT"].
Proof.
  refine (eq_trans
            (proj1 (fetchers_list_the_marked_entries
                      [ Wire.pairOf Wire.k_symbol "BTCUSDT"
                          Wire.k_status "TRADING";
                        Wire.pairOf Wire.k_symbol "LUNAUSDT"
                          Wire.k_status "BREAK";
                        Wire.pairOf Wire.k_symbol "ETHUSDT"
                          Wire.k_status "TRADING" ] _)
               Wire.sampleBody eq_refl) _).
  - repeat constructor.
  - vm_compute. reflexivity.
Defined.

(** X16. One [null] in the list of pairs makes the whole fetch fail,
    wherever it stands and whatever the other pairs are: the four
    fetchers that compare a flag throw the TypeError of reading the flag
    of [null], and [fetchUpbit] throws a TypeError. *)
Theorem null_entry_fails_the_whole_fetch (items : list Wire.JSValue) :
  Exists (fun item => Wire.present item = false) items ->
  (forall data,
      Wire.get data Wire.k_symbols = Wire.Normal (Wire.JArray items) ->
      Wire.fetchBinance data
      = Wire.Abrupt (Wire.TypeError (Wire.CannotRead "status")))
  /\ Wire.fetchCoinbase (Wire.JArray items)
     = Wire.Abrupt (Wire.TypeError (Wire.CannotRead "status"))
  /\ (forall data result,
        Wire.get data Wire.k_result = Wire.Normal result ->
        Wire.get result Wire.k_list = Wire.Normal (Wire.JArray items) ->
        Wire.fetchBybit data
        = Wire.Abrupt (Wire.TypeError (Wire.CannotRead "status")))
  /\ (forall data,
        Wire.get data Wire.k_data = Wire.Normal (Wire.JArray items) ->
        Wire.fetchOKX data
        = Wire.Abrupt (Wire.TypeError (Wire.CannotRead "state")))
  /\ exists fault,
       Wire.fetchUpbit (Wire.JArray items)
       = Wire.Abrupt (Wire.TypeError fault).
Proof.
  intros Hitems. split; [|split; [|split; [|split]]].
  - intros data Hg. unfold Wire.fetchBinance. rewrite Hg. cbn.
    exact (WireFacts.select_absent items Wire.k_status _ _ Hitems).
  - unfold Wire.fetchCoinbase. cbn.
    exact (WireFacts.select_absent items Wire.k_status _ _ Hitems).
  - intros data result Hr Hl. unfold Wire.fetchBybit. rewrite Hr. cbn.
    rewrite (WireFacts.get_array _ _ _ Hl). cbn. rewrite Hl. cbn.
    exact (WireFacts.select_absent items Wire.k_status _ _ Hitems).
  - intros data Hg. unfold Wire.fetchOKX. rewrite Hg. cbn.
    exact (WireFacts.select_absent items Wire.k_state _ _ Hitems).
  - unfold Wire.fetchUpbit. cbn [Wire.isArray negb Wire.filter].
    destruct (WireFacts.filterItems_abrupt
                (fun m =>
                   market ← Wire.get m Wire.k_market;
                   if Wire.truthy market
                   then Wire.startsWith market "KRW-"
                   else Wire.Normal false) items)
      as (item & e & _ & He & Hf).
    + eapply Exists_impl; [exact Hitems|]. intros item Hp. cbv beta.
      rewrite (WireFacts.get_absent _ _ Hp). eexists. reflexivity.
    + destruct (WireFacts.upbit_callback item _ He) as (fault & ->).
      exists fault. rewrite Hf. reflexivity.
Qed.

Lemma null_entry_fails_the_whole_fetch_witness :
  Wire.fetchBinance Wire.poisonedBody
  = Wire.Abrupt (Wire.TypeError (Wire.CannotRead "status")).
Proof.
  refine (proj1 (null_entry_fails_the_whole_fetch
                   [ Wire.pairOf Wire.k_symbol "BTCUSDT"
                       Wire.k_status "TRADING";
                     Wire.JNull ] _)
            Wire.poisonedBody eq_refl).
  apply Exists_cons_tl, Exists_cons_hd. reflexivity.
Defined.


(** X18. What [fetchUpbit] returns is always a list of strings that
    start with [KRW-], a sublist of the [market] values of the body. *)
Theorem fetchUpbit_returns_krw_markets (data : Wire.JSValue)
    (values : list Wire.JSValue) :
  Wire.fetchUpbit data = Wire.Normal values ->
  exists symbols items,
    values = Wire.JString <$> symbols
    /\ Forall (fun s => String.prefix "KRW-" s = true) symbols
    /\ data = Wire.JArray items
    /\ values `sublist_of` (Wire.valueOf Wire.k_market <$> items)
    /\ forall engine,
         Wire.replyOf engine (Wire.fetchUpbit data) = Some (Listed symbols).
Proof.
  intros H.
  assert (Hcore : exists symbols items,
             values = Wire.JString <$> symbols
             /\ Forall (fun s => String.prefix "KRW-" s = true) symbols
             /\ data = Wire.JArray items
             /\ values `sublist_of` (Wire.valueOf Wire.k_market <$> items)).
  { revert H. unfold Wire.fetchUpbit.
    destruct data as [| |b|nz|s|items|properties]; cbn [Wire.isArray negb];
      try discriminate.
    cbn [Wire.filter].
    destruct (Wire.filterItems _ items) as [kept|e] eqn:Hf; cbn;
      [|discriminate].
    destruct (WireFacts.filterItems_kept _ _ _ Hf) as [Hkept Hsub].
    clear Hf. intros Hm.
    assert (Hvals : values = Wire.valueOf Wire.k_market <$> kept
                    /\ exists symbols,
                         values = Wire.JString <$> symbols
                         /\ Forall (fun s => String.prefix "KRW-" s = true)
                              symbols).
    { clear Hsub. revert values Hm.
      induction Hkept as [|item rest Hitem _ IH]; intros values Hm.
      - injection Hm as <-. split; [reflexivity|].
        exists []. split; [reflexivity | constructor].
      - pose proof (WireFacts.upbit_callback item _ Hitem) as (s & Hg & Hp).
        cbn [Wire.mapItems] in Hm. rewrite Hg in Hm. cbn in Hm.
        destruct (Wire.mapItems _ rest) as [values'|e]; [|discriminate Hm].
        cbn in Hm. injection Hm as <-.
        destruct (IH values' eq_refl) as (Hv & symbols & -> & Hall).
        destruct (WireFacts.get_normal _ _ _ Hg) as [_ Hval].
        split; [cbn; rewrite <- Hval, <- Hv; reflexivity|].
        exists (s :: symbols). split; [reflexivity | constructor; assumption]. }
    destruct Hvals as (Hv & symbols & Hs & Hall).
    exists symbols, items. split; [exact Hs|]. split; [exact Hall|].
    split; [reflexivity|]. rewrite Hv. apply fmap_sublist, Hsub. }
  destruct Hcore as (symbols & items & Hs & Hall & Hd & Hsub).
  exists symbols, items. split; [exact Hs|]. split; [exact Hall|].
  split; [exact Hd|]. split; [exact Hsub|].
  intros engine. rewrite H, Hs. unfold Wire.replyOf.
  rewrite WireFacts.mapM_asString. reflexivity.
Qed.

Lemma fetchUpbit_returns_krw_markets_witness :
  Wire.replyOf Wire.sampleEngine (Wire.fetchUpbit Wire.upbitBody)
  = Some (Listed ["KRW-BTC"]).
Proof.
  destruct (fetchUpbit_returns_krw_markets Wire.upbitBody
              [Wire.JString "KRW-BTC"] eq_refl)
    as (symbols & items & Hs & _ & _ & _ & Hreply).
  rewrite Hreply. f_equal. f_equal.
  destruct symbols as [|s [|s' rest]]; try discriminate Hs.
  injection Hs as <-. reflexivity.
Defined.

(** X19. What [fetchKraken] returns is always a list of strings, the
    keys of [result]; for an object none of whose property names is an
    array index, they are the names in the order of the body. An empty
    object is no error and gives the empty list. *)
Theorem fetchKraken_returns_the_pair_names (data : Wire.JSValue) :
  (forall values,
      Wire.fetchKraken data = Wire.Normal values ->
      exists symbols,
        values = Wire.JString <$> symbols
        /\ (forall engine,
              Wire.replyOf engine (Wire.fetchKraken data)
              = Some (Listed symbols))
        /\ forall properties,
             Wire.valueOf Wire.k_result data = Wire.JObject properties ->
             Forall (fun p => Wire.arrayIndex p.1 = None) properties ->
             symbols = properties.*1)
  /\ (Wire.valueOf Wire.k_result data = Wire.JObject [] ->
      Wire.fetchKraken data = Wire.Normal []
      /\ forall engine,
           Wire.replyOf engine (Wire.fetchKraken data) = Some (Listed [])).
Proof.
  split.
  - intros values H.
    assert (Hcore : exists symbols,
               values = Wire.JString <$> symbols
               /\ forall properties,
                    Wire.valueOf Wire.k_result data = Wire.JObject properties ->
                    Forall (fun p => Wire.arrayIndex p.1 = None) properties ->
                    symbols = properties.*1).
    { revert H. unfold Wire.fetchKraken.
      destruct (Wire.present data) eqn:Hp.
      - rewrite (WireFacts.get_present _ _ Hp). cbn.
        destruct (Wire.truthy (Wire.valueOf Wire.k_result data)) eqn:Hr; cbn;
          [|discriminate].
        destruct (Wire.valueOf Wire.k_result data)
          as [| |b|nz|s|items|properties];
          cbn [Wire.Object_keys mbind Wire.Completion_bind];
          try discriminate;
          match goal with
          | |- Wire.Normal (Wire.JString <$> ?l) = _ -> _ =>
              intros [= <-]; exists l
          end;
          (split; [reflexivity|]);
          intros properties' Hv; try discriminate Hv.
        injection Hv as <-. apply WireFacts.ownKeys_plain.
      - rewrite (WireFacts.get_absent _ _ Hp). cbn. discriminate. }
    destruct Hcore as (symbols & Hs & Hplain).
    exists symbols. split; [exact Hs|]. split; [|exact Hplain].
    intros engine. rewrite H, Hs. unfold Wire.replyOf.
    rewrite WireFacts.mapM_asString. reflexivity.
  - intros Hempty.
    assert (H : Wire.fetchKraken data = Wire.Normal []).
    { unfold Wire.fetchKraken.
      assert (Hp : Wire.present data = true)
        by (destruct data; first [discriminate Hempty | reflexivity]).
      rewrite (WireFacts.get_present _ _ Hp), Hempty. reflexivity. }
    split; [exact H|]. intros engine. rewrite H. reflexivity.
Qed.

Lemma fetchKraken_returns_the_pair_names_witness :
  Wire.replyOf Wire.sampleEngine (Wire.fetchKraken Wire.krakenBody)
  = Some (Listed ["XXBTZUSD"; "XETHZUSD"])
  /\ Wire.fetchKraken
       (Wire.JObject [("error", Wire.JArray []); ("result", Wire.JObject [])])
     = Wire.Normal [].
Proof.
  split.
  - destruct (proj1 (fetchKraken_returns_the_pair_names Wire.krakenBody)
                [Wire.JString "XXBTZUSD"; Wire.JString "XETHZUSD"] eq_refl)
      as (symbols & _ & Hreply & Hplain).
    rewrite Hreply. f_equal. f_equal.
    refine (Hplain _ eq_refl _).
    repeat constructor.
  - exact (proj1 (proj2 (fetchKraken_returns_the_pair_names
                           (Wire.JObject [("error", Wire.JArray []);
                                          ("result", Wire.JObject [])]))
                    eq_refl)).
Defined.
